(** * Replay-buffer storage (rllib/utils/replay_buffers): a shallow embedding

    The file embeds [storage.py] ([LocalStorage], [StorageView],
    [InMemoryStorage], [OnDiskStorage]) and [reservoir_buffer.py]
    ([ReservoirBuffer]) and proves properties of the ring buffer, its views,
    its snapshots and the reservoir policy.

    Conventions of the embedding:
    - Python integers are [Z]; list and array positions are Python indices
      (negative positions count from the end, anything else out of range
      raises [IndexError]).
    - A method is an action of the monad [M]: it transforms the state it runs
      in and either returns, raises, or runs out of fuel.  The state survives
      a raised exception, as the object does in Python.
    - [while] loops whose termination is not evident take a [fuel] bound on
      the number of times the loop body may run.
    - The float arithmetic of the capacity forecast is carried out in exact
      rationals ([Q]). *)

From Stdlib Require Import ZArith QArith Lia.
From stdpp Require Import base option list strings gmap pretty.

Local Open Scope Z_scope.

(* ================================================================= *)
(** * Part I: the embedding *)
(* ================================================================= *)

(** ** Exceptions, results and the state-and-exception monad *)

Inductive exn :=
| IndexError
| AssertionError
| ValueError
| ZeroDivisionError
| TypeError
| RuntimeError
| AttributeError
| KeyError.

Inductive res (A : Type) :=
| Ok (a : A)
| Raise (e : exn)
| OutOfFuel.
Arguments Ok {A} a.
Arguments Raise {A} e.
Arguments OutOfFuel {A}.

Definition M (St A : Type) : Type := St -> St * res A.

Section Monad.
Context {St : Type}.

Definition ret {A} (a : A) : M St A := fun s => (s, Ok a).

Definition bind {A B} (m : M St A) (k : A -> M St B) : M St B :=
  fun s =>
    match m s with
    | (s', Ok a) => k a s'
    | (s', Raise e) => (s', Raise e)
    | (s', OutOfFuel) => (s', OutOfFuel)
    end.

Definition raise {A} (e : exn) : M St A := fun s => (s, Raise e).
Definition get : M St St := fun s => (s, Ok s).
Definition modify (f : St -> St) : M St unit := fun s => (f s, Ok tt).
Definition lift {A} (r : res A) : M St A := fun s => (s, r).

(** Python's [assert]. *)
Definition py_assert (b : bool) : M St unit :=
  if b then ret tt else raise AssertionError.
End Monad.

Declare Scope py_scope.
Delimit Scope py_scope with py.
Notation "'let!' x ':=' m 'in' k" := (bind m (fun x => k))
  (at level 10, x name, m at level 100, k at level 200) : py_scope.
Notation "m '>>' k" := (bind m (fun _ => k))
  (at level 190, right associativity) : py_scope.
Local Open Scope py_scope.

(** Running an action on a component of a larger state. *)
Definition zoom {St T A} (proj : St -> T) (upd : T -> St -> St)
    (m : M T A) : M St A :=
  fun s => let '(t, r) := m (proj s) in (upd t s, r).

(** ** Python sequences indexed by integers *)

(** The position a Python index denotes in a sequence of length [len]. *)
Definition py_index (len idx : Z) : option nat :=
  if bool_decide (0 <= idx < len) then Some (Z.to_nat idx)
  else if bool_decide (- len <= idx < 0) then Some (Z.to_nat (idx + len))
  else None.

Definition len_ {A} (l : list A) : Z := Z.of_nat (length l).

Definition list_getitem {A} (l : list A) (idx : Z) : res A :=
  match py_index (len_ l) idx with
  | Some n => match l !! n with Some x => Ok x | None => Raise IndexError end
  | None => Raise IndexError
  end.

Definition list_setitem {A} (l : list A) (idx : Z) (x : A) : res (list A) :=
  match py_index (len_ l) idx with
  | Some n => Ok (<[n:=x]> l)
  | None => Raise IndexError
  end.

(** [numpy] arrays of dtype [int64]: values wrap around on overflow. *)
Definition wrap_int64 (z : Z) : Z := (z + 2 ^ 63) mod 2 ^ 64 - 2 ^ 63.

(** [np.zeros(n, dtype=np.int64)]; a negative dimension is refused. *)
Definition np_zeros (n : Z) : res (list Z) :=
  if n <? 0 then Raise ValueError else Ok (replicate (Z.to_nat n) 0).

(** ** Items *)

(** A sample batch, as far as the storage looks at it: [count] timesteps,
    [size_bytes()] bytes; [payload] stands for the data it carries. *)
Record SampleBatch := mkBatch {
  count : Z;
  size_bytes : Z;
  payload : nat
}.

(** A capacity is an integer or [math.inf]. *)
Inductive capacity :=
| Finite (c : Z)
| math_inf.

(** [x > c] for a capacity [c]. *)
Definition exceeds (x : Z) (c : capacity) : bool :=
  match c with
  | Finite k => k <? x
  | math_inf => false
  end.

(** [c > 0] for a capacity [c]. *)
Definition capacity_positive (c : capacity) : bool :=
  match c with
  | Finite k => 0 <? k
  | math_inf => true
  end.

(** ** Collaborators that are not part of the sources *)

(** Modelled from the spec: the windowed statistic
    ([ray.rllib.utils.metrics.window_stat.WindowStat] is not among the
    sources).  "A fixed-size rolling sample supporting push(value) and
    summary over the last N pushes": the window keeps the last
    [window_size] pushed values, newest first, and counts the pushes. *)
Record WindowStat := mkWindowStat {
  window_size : nat;
  items : list Z;
  pushes : Z
}.

Definition WindowStat_new (n : nat) : WindowStat :=
  {| window_size := n; items := []; pushes := 0 |}.

Definition push (v : Z) (w : WindowStat) : WindowStat :=
  {| window_size := window_size w;
     items := take (window_size w) (v :: items w);
     pushes := pushes w + 1 |}.

(** What the module's [logger] receives. *)
Inductive LogRecord :=
| warning_batch_not_added (item_count capacity_items : Z)
| warning_new_item_more_timesteps
| warning_estimated_usage (est_final_size remainder free_gb : Q)
| info_estimated_usage (est_final_size remainder free_gb : Q).

(** ** The storage object and the process state around it *)

Record LocalStorage (B : Type) := mkLocalStorage {
  _capacity_ts : capacity;
  _capacity_items : Z;
  _capacity_bytes : capacity;
  _eviction_started : bool;
  _num_items : Z;
  _oldest_item_idx : Z;
  _num_timesteps_added : Z;
  _num_timesteps : Z;
  _hit_count : list Z;
  _evicted_hit_stats : WindowStat;
  _size_bytes : Z;
  est_final_size : option Q;
  _samples : B
}.
Arguments mkLocalStorage {B}.
Arguments _capacity_ts {B}.
Arguments _capacity_items {B}.
Arguments _capacity_bytes {B}.
Arguments _eviction_started {B}.
Arguments _num_items {B}.
Arguments _oldest_item_idx {B}.
Arguments _num_timesteps_added {B}.
Arguments _num_timesteps {B}.
Arguments _hit_count {B}.
Arguments _evicted_hit_stats {B}.
Arguments _size_bytes {B}.
Arguments est_final_size {B}.
Arguments _samples {B}.

(** The storage [self] together with the process-wide state its methods
    write to: the log and the registry of [log_once] keys. *)
Record World (B : Type) := mkWorld {
  self : LocalStorage B;
  logger : list LogRecord;
  logged_once : gset string
}.
Arguments mkWorld {B}.
Arguments self {B}.
Arguments logger {B}.
Arguments logged_once {B}.

Section Assignments.
Context {B : Type}.
Implicit Type s : LocalStorage B.

Definition set_capacity_ts (v : capacity) s : LocalStorage B :=
  mkLocalStorage v (_capacity_items s) (_capacity_bytes s)
    (_eviction_started s) (_num_items s) (_oldest_item_idx s)
    (_num_timesteps_added s) (_num_timesteps s) (_hit_count s)
    (_evicted_hit_stats s) (_size_bytes s) (est_final_size s) (_samples s).

Definition set_capacity_items (v : Z) s : LocalStorage B :=
  mkLocalStorage (_capacity_ts s) v (_capacity_bytes s)
    (_eviction_started s) (_num_items s) (_oldest_item_idx s)
    (_num_timesteps_added s) (_num_timesteps s) (_hit_count s)
    (_evicted_hit_stats s) (_size_bytes s) (est_final_size s) (_samples s).

Definition set_capacity_bytes (v : capacity) s : LocalStorage B :=
  mkLocalStorage (_capacity_ts s) (_capacity_items s) v
    (_eviction_started s) (_num_items s) (_oldest_item_idx s)
    (_num_timesteps_added s) (_num_timesteps s) (_hit_count s)
    (_evicted_hit_stats s) (_size_bytes s) (est_final_size s) (_samples s).

Definition set_eviction_started (v : bool) s : LocalStorage B :=
  mkLocalStorage (_capacity_ts s) (_capacity_items s) (_capacity_bytes s)
    v (_num_items s) (_oldest_item_idx s) (_num_timesteps_added s)
    (_num_timesteps s) (_hit_count s) (_evicted_hit_stats s)
    (_size_bytes s) (est_final_size s) (_samples s).

Definition set_num_items (v : Z) s : LocalStorage B :=
  mkLocalStorage (_capacity_ts s) (_capacity_items s) (_capacity_bytes s)
    (_eviction_started s) v (_oldest_item_idx s) (_num_timesteps_added s)
    (_num_timesteps s) (_hit_count s) (_evicted_hit_stats s)
    (_size_bytes s) (est_final_size s) (_samples s).

Definition set_oldest_item_idx (v : Z) s : LocalStorage B :=
  mkLocalStorage (_capacity_ts s) (_capacity_items s) (_capacity_bytes s)
    (_eviction_started s) (_num_items s) v (_num_timesteps_added s)
    (_num_timesteps s) (_hit_count s) (_evicted_hit_stats s)
    (_size_bytes s) (est_final_size s) (_samples s).

Definition set_num_timesteps_added (v : Z) s : LocalStorage B :=
  mkLocalStorage (_capacity_ts s) (_capacity_items s) (_capacity_bytes s)
    (_eviction_started s) (_num_items s) (_oldest_item_idx s) v
    (_num_timesteps s) (_hit_count s) (_evicted_hit_stats s)
    (_size_bytes s) (est_final_size s) (_samples s).

Definition set_num_timesteps (v : Z) s : LocalStorage B :=
  mkLocalStorage (_capacity_ts s) (_capacity_items s) (_capacity_bytes s)
    (_eviction_started s) (_num_items s) (_oldest_item_idx s)
    (_num_timesteps_added s) v (_hit_count s) (_evicted_hit_stats s)
    (_size_bytes s) (est_final_size s) (_samples s).

Definition set_hit_count (v : list Z) s : LocalStorage B :=
  mkLocalStorage (_capacity_ts s) (_capacity_items s) (_capacity_bytes s)
    (_eviction_started s) (_num_items s) (_oldest_item_idx s)
    (_num_timesteps_added s) (_num_timesteps s) v (_evicted_hit_stats s)
    (_size_bytes s) (est_final_size s) (_samples s).

Definition set_evicted_hit_stats (v : WindowStat) s : LocalStorage B :=
  mkLocalStorage (_capacity_ts s) (_capacity_items s) (_capacity_bytes s)
    (_eviction_started s) (_num_items s) (_oldest_item_idx s)
    (_num_timesteps_added s) (_num_timesteps s) (_hit_count s) v
    (_size_bytes s) (est_final_size s) (_samples s).

Definition set_size_bytes (v : Z) s : LocalStorage B :=
  mkLocalStorage (_capacity_ts s) (_capacity_items s) (_capacity_bytes s)
    (_eviction_started s) (_num_items s) (_oldest_item_idx s)
    (_num_timesteps_added s) (_num_timesteps s) (_hit_count s)
    (_evicted_hit_stats s) v (est_final_size s) (_samples s).

Definition set_est_final_size (v : option Q) s : LocalStorage B :=
  mkLocalStorage (_capacity_ts s) (_capacity_items s) (_capacity_bytes s)
    (_eviction_started s) (_num_items s) (_oldest_item_idx s)
    (_num_timesteps_added s) (_num_timesteps s) (_hit_count s)
    (_evicted_hit_stats s) (_size_bytes s) v (_samples s).

Definition set_samples (v : B) s : LocalStorage B :=
  mkLocalStorage (_capacity_ts s) (_capacity_items s) (_capacity_bytes s)
    (_eviction_started s) (_num_items s) (_oldest_item_idx s)
    (_num_timesteps_added s) (_num_timesteps s) (_hit_count s)
    (_evicted_hit_stats s) (_size_bytes s) (est_final_size s) v.

(** Reading and assigning attributes of [self]. *)
Definition attr {A} (f : LocalStorage B -> A) : M (World B) A :=
  fun w => (w, Ok (f (self w))).

Definition assign (f : LocalStorage B -> LocalStorage B)
  : M (World B) unit :=
  fun w => (mkWorld (f (self w)) (logger w) (logged_once w), Ok tt).

(** [logger.warning(..)] and [logger.info(..)]: the record is appended. *)
Definition log (r : LogRecord) : M (World B) unit :=
  fun w => (mkWorld (self w) (logger w ++ [r]) (logged_once w), Ok tt).

(** Modelled from the spec: [ray.util.debug.log_once] (not among the
    sources), the "one-time-warning registry (so each distinct warning
    fires only once per process)": true the first time a key is seen. *)
Definition log_once (key : string) : M (World B) bool :=
  fun w =>
    if bool_decide (key ∈ logged_once w) then (w, Ok false)
    else (mkWorld (self w) (logger w) ({[key]} ∪ logged_once w), Ok true).
End Assignments.

(** ** [LocalStorage]: the abstract ring buffer *)

(** The three primitives a concrete storage implements ([_get], [_set] and
    [__delitem__] are abstract in [LocalStorage]).  [_set] takes, as its
    first argument, the free memory or disk space in bytes that the system
    reports at the time of the call. *)
Class Backend (B : Type) := {
  _get : Z -> M (World B) (option SampleBatch);
  _set : Z -> Z -> SampleBatch -> M (World B) unit;
  __delitem__ : Z -> M (World B) (option SampleBatch)
}.

(** Attribute access on a value that may be [None]. *)
Definition attr_of {St A} (o : option SampleBatch) (f : SampleBatch -> A)
  : M St A :=
  match o with
  | Some b => ret (f b)
  | None => raise AttributeError
  end.

Section LocalStorage.
Context {B : Type} `{Backend B}.

(** [LocalStorage.__init__], up to the attributes of the subclass. *)
Definition LocalStorage___init__ (capacity_items : Z)
    (capacity_ts capacity_bytes : capacity) (samples : B)
  : res (LocalStorage B) :=
  if negb ((0 <? capacity_items) && capacity_positive capacity_ts
           && capacity_positive capacity_bytes)
  then Raise AssertionError
  else
    match np_zeros capacity_items with
    | Ok zeros =>
        Ok {| _capacity_ts := capacity_ts;
              _capacity_items := capacity_items;
              _capacity_bytes := capacity_bytes;
              _eviction_started := false;
              _num_items := 0;
              _oldest_item_idx := 0;
              _num_timesteps_added := 0;
              _num_timesteps := 0;
              _hit_count := zeros;
              _evicted_hit_stats := WindowStat_new 1000;
              _size_bytes := 0;
              est_final_size := None;
              _samples := samples |}
    | Raise e => Raise e
    | OutOfFuel => OutOfFuel
    end.

(** [__len__] *)
Definition len : M (World B) Z := attr _num_items.

Definition _get_internal_index (idx : Z) : M (World B) Z :=
  if idx <? 0 then raise IndexError
  else
    let! oldest := attr _oldest_item_idx in
    let! cap := attr _capacity_items in
    ret ((oldest + idx) mod Z.max 1 cap).

Definition _get_external_index (idx : Z) : M (World B) Z :=
  if idx <? 0 then raise IndexError
  else
    let! oldest := attr _oldest_item_idx in
    if oldest <=? idx then ret (idx - oldest)
    else
      let! cap := attr _capacity_items in
      ret (idx + cap - oldest).

(** [self._evicted_hit_stats.push(self._hit_count[idx])] *)
Definition push_hit_count (idx : Z) : M (World B) unit :=
  let! hits := attr _hit_count in
  let! h := lift (list_getitem hits idx) in
  let! stats := attr _evicted_hit_stats in
  assign (set_evicted_hit_stats (push h stats)).

(** [self._hit_count[idx] = v] *)
Definition store_hit_count (idx v : Z) : M (World B) unit :=
  let! hits := attr _hit_count in
  let! hits' := lift (list_setitem hits idx v) in
  assign (set_hit_count hits').

(** The two loops that open [__getitem__]:
    [while i < 0: i += len(self)] and [while i >= len(self): i -= len(self)].
    [fuel] bounds the number of times each body runs. *)
Fixpoint while_negative (fuel : nat) (n i : Z) : res Z :=
  if i <? 0 then
    match fuel with
    | O => OutOfFuel
    | S fuel' => while_negative fuel' n (i + n)
    end
  else Ok i.

Fixpoint while_not_below (fuel : nat) (n i : Z) : res Z :=
  if n <=? i then
    match fuel with
    | O => OutOfFuel
    | S fuel' => while_not_below fuel' n (i - n)
    end
  else Ok i.

(** [i = key] followed by the two loops, for a container of length [n]:
    the lines that [LocalStorage.__getitem__] and [StorageView.__getitem__]
    have in common. *)
Definition wrap_key (fuel : nat) (n key : Z) : res Z :=
  match while_negative fuel n key with
  | Ok i => while_not_below fuel n i
  | Raise e => Raise e
  | OutOfFuel => OutOfFuel
  end.

(** [__getitem__] with an integer key. *)
Definition __getitem__ (fuel : nat) (key : Z)
  : M (World B) (option SampleBatch) :=
  let! n := len in
  let! i := lift (wrap_key fuel n key) in
  let! idx := _get_internal_index i in
  let! hits := attr _hit_count in
  let! h := lift (list_getitem hits idx) in
  store_hit_count idx (wrap_int64 (h + 1)) >>
  _get idx.

(** [__setitem__] with an integer index. *)
Definition __setitem__ (avail : Z) (i : Z) (item : SampleBatch)
  : M (World B) unit :=
  let! n := len in
  if (n <=? i) || (i <? 0) then raise IndexError
  else
    let! started := attr _eviction_started in
    if negb started then raise RuntimeError
    else
      let! idx := _get_internal_index i in
      let! drop_item := __delitem__ idx in
      let! drop_count := attr_of drop_item count in
      (if drop_count <? count item
       then log warning_new_item_more_timesteps else ret tt) >>
      push_hit_count idx >>
      let! ts := attr _num_timesteps in
      assign (set_num_timesteps (ts - drop_count)) >>
      let! drop_size := attr_of drop_item size_bytes in
      let! sz := attr _size_bytes in
      assign (set_size_bytes (sz - drop_size)) >>
      store_hit_count idx 0 >>
      let! added := attr _num_timesteps_added in
      assign (set_num_timesteps_added (added + count item)) >>
      let! ts := attr _num_timesteps in
      assign (set_num_timesteps (ts + count item)) >>
      let! sz := attr _size_bytes in
      assign (set_size_bytes (sz + size_bytes item)) >>
      _set avail idx item.

(** The condition of the [while] loop of [add]. *)
Definition over_capacity (s : LocalStorage B) : bool :=
  exceeds (_num_timesteps s) (_capacity_ts s)
  || exceeds (_size_bytes s) (_capacity_bytes s)
  || (_capacity_items s <=? _num_items s).

(** The body of the [while] loop of [add]: one eviction. *)
Definition evict_oldest : M (World B) unit :=
  let! n := attr _num_items in
  py_assert (0 <? n) >>
  assign (set_eviction_started true) >>
  let! oldest := attr _oldest_item_idx in
  push_hit_count oldest >>
  store_hit_count oldest 0 >>
  let! drop_item := __delitem__ oldest in
  let! drop_count := attr_of drop_item count in
  let! ts := attr _num_timesteps in
  assign (set_num_timesteps (ts - drop_count)) >>
  let! drop_size := attr_of drop_item size_bytes in
  let! sz := attr _size_bytes in
  assign (set_size_bytes (sz - drop_size)) >>
  let! n := attr _num_items in
  assign (set_num_items (n - 1)) >>
  let! next := _get_internal_index 1 in
  assign (set_oldest_item_idx next).

(** The [while] loop of [add]. *)
Fixpoint drop_old_items (fuel : nat) : M (World B) unit :=
  let! over := attr over_capacity in
  if over then
    match fuel with
    | O => lift OutOfFuel
    | S fuel' => evict_oldest >> drop_old_items fuel'
    end
  else ret tt.

(** [add].  Every turn of the loop needs [_num_items > 0] and lowers it
    by one, so the loop body runs at most [_num_items] times before the
    assertion stops it: the fuel given here is never used up (lemma
    [add_returns_or_raises]). *)
Definition add (avail : Z) (item : SampleBatch) : M (World B) unit :=
  let! cap := attr _capacity_items in
  if cap <? count item then
    log (warning_batch_not_added (count item) cap)
  else
    let! added := attr _num_timesteps_added in
    assign (set_num_timesteps_added (added + count item)) >>
    let! ts := attr _num_timesteps in
    assign (set_num_timesteps (ts + count item)) >>
    let! sz := attr _size_bytes in
    assign (set_size_bytes (sz + size_bytes item)) >>
    let! n := attr _num_items in
    drop_old_items (S (Z.to_nat n)) >>
    let! n := attr _num_items in
    let! new_idx := _get_internal_index n in
    _set avail new_idx item >>
    let! n := attr _num_items in
    assign (set_num_items (n + 1)) >>
    let! n := attr _num_items in
    let! cap := attr _capacity_items in
    py_assert (n <=? cap).

(** ** The capacity forecast shared by the concrete storages *)

(** Python's [max(a, b)]. *)
Definition py_max (a b : Q) : Q := if Qle_bool b a then a else b.

Definition Qgtb (a b : Q) : bool := negb (Qle_bool a b).

Definition giga : Q := inject_Z 1000000000.

(** [_warn_replay_capacity].  [avail] is [psutil.virtual_memory().available]
    (for the storage on disk: [shutil.disk_usage(..).free]).  The second
    parameter of the method, [num_items], is not used by its body and is
    left out. *)
Definition _warn_replay_capacity (avail : Z) (item : SampleBatch)
  : M (World B) unit :=
  let item_size := size_bytes item in
  if count item =? 0 then raise ZeroDivisionError
  else
    let ts_size := (inject_Z item_size / inject_Z (count item))%Q in
    let free_gb := (inject_Z avail / giga)%Q in
    let! cap_ts := attr _capacity_ts in
    let max_size_for_ts_capacity :=
      match cap_ts with
      | math_inf => inject_Z (-1)
      | Finite c => (inject_Z c * ts_size)%Q
      end in
    let! cap := attr _capacity_items in
    let est :=
      (py_max (inject_Z (cap * item_size)) max_size_for_ts_capacity
       / giga)%Q in
    assign (set_est_final_size (Some est)) >>
    let! sz := attr _size_bytes in
    let remainder := (est - inject_Z sz / giga)%Q in
    if Qgtb remainder free_gb then raise ValueError
    else if Qgtb remainder ((2 # 10) * free_gb)%Q then
      let! first := log_once "warning_replay_buffer_storage_capacity_disk" in
      if first then log (warning_estimated_usage est remainder free_gb)
      else ret tt
    else
      let! first := log_once "warning_replay_buffer_storage_capacity_disk" in
      if first then log (info_estimated_usage est remainder free_gb)
      else ret tt.

(** ** Snapshots *)

(** The values held by a state dictionary. *)
Inductive pyobj :=
| PyInt (z : Z)
| PyInf
| PyBool (b : bool)
| PySamples (l : B).

Definition of_capacity (c : capacity) : pyobj :=
  match c with
  | Finite z => PyInt z
  | math_inf => PyInf
  end.

(** [LocalStorage.get_state] *)
Definition LocalStorage_get_state (s : LocalStorage B)
  : gmap string pyobj :=
  <["_size_bytes" := PyInt (_size_bytes s)]>
  (<["_num_timesteps" := PyInt (_num_timesteps s)]>
  (<["_num_timesteps_added" := PyInt (_num_timesteps_added s)]>
  (<["_eviction_started" := PyBool (_eviction_started s)]>
  (<["_oldest_item_idx" := PyInt (_oldest_item_idx s)]>
  (<["_num_items" := PyInt (_num_items s)]>
  (<["_capacity_bytes" := of_capacity (_capacity_bytes s)]>
  (<["_capacity_items" := PyInt (_capacity_items s)]>
  (<["_capacity_ts" := of_capacity (_capacity_ts s)]> ∅)))))))).

(** [state[key]]: a missing key raises [KeyError].  The attributes of the
    embedding are typed, so a value of another type than the attribute
    holds is reported as [TypeError]. *)
Definition item_int (state : gmap string pyobj) (key : string) : res Z :=
  match state !! key with
  | Some (PyInt z) => Ok z
  | Some _ => Raise TypeError
  | None => Raise KeyError
  end.

Definition item_capacity (state : gmap string pyobj) (key : string)
  : res capacity :=
  match state !! key with
  | Some (PyInt z) => Ok (Finite z)
  | Some PyInf => Ok math_inf
  | Some _ => Raise TypeError
  | None => Raise KeyError
  end.

Definition item_bool (state : gmap string pyobj) (key : string)
  : res bool :=
  match state !! key with
  | Some (PyBool b) => Ok b
  | Some _ => Raise TypeError
  | None => Raise KeyError
  end.

Definition item_samples (state : gmap string pyobj) (key : string)
  : res B :=
  match state !! key with
  | Some (PySamples l) => Ok l
  | Some _ => Raise TypeError
  | None => Raise KeyError
  end.

(** [LocalStorage.set_state], as an action on the storage alone: one
    assignment after the other, each reading its key of [state]. *)
Definition LocalStorage_set_state (state : gmap string pyobj)
  : M (LocalStorage B) unit :=
  let! cap_ts := lift (item_capacity state "_capacity_ts") in
  modify (set_capacity_ts cap_ts) >>
  let! cap_items := lift (item_int state "_capacity_items") in
  modify (set_capacity_items cap_items) >>
  let! cap_bytes := lift (item_capacity state "_capacity_bytes") in
  modify (set_capacity_bytes cap_bytes) >>
  let! num_items := lift (item_int state "_num_items") in
  modify (set_num_items num_items) >>
  let! oldest := lift (item_int state "_oldest_item_idx") in
  modify (set_oldest_item_idx oldest) >>
  let! started := lift (item_bool state "_eviction_started") in
  modify (set_eviction_started started) >>
  let! added := lift (item_int state "_num_timesteps_added") in
  modify (set_num_timesteps_added added) >>
  let! ts := lift (item_int state "_num_timesteps") in
  modify (set_num_timesteps ts) >>
  let! sz := lift (item_int state "_size_bytes") in
  modify (set_size_bytes sz) >>
  let! s := get in
  let! zeros := lift (np_zeros (_capacity_items s)) in
  modify (set_hit_count zeros).
End LocalStorage.

(** ** [InMemoryStorage]: the slots are a Python list *)

Abbreviation Slots := (list (option SampleBatch)).

(** [InMemoryStorage._get] *)
Definition InMemoryStorage__get (i : Z)
  : M (World Slots) (option SampleBatch) :=
  let! samples := attr _samples in
  lift (list_getitem samples i).

(** [InMemoryStorage._set].  The first argument of the call to
    [_warn_replay_capacity], [self._capacity_items / max(1, item.count)],
    cannot fail and is not used by the callee. *)
Definition InMemoryStorage__set (avail idx : Z) (item : SampleBatch)
  : M (World Slots) unit :=
  _warn_replay_capacity avail item >>
  let! samples := attr _samples in
  if idx =? len_ samples then
    assign (set_samples (samples ++ [Some item]))
  else
    let! samples' := lift (list_setitem samples idx (Some item)) in
    assign (set_samples samples').

(** [InMemoryStorage.__delitem__] *)
Definition InMemoryStorage___delitem__ (i : Z)
  : M (World Slots) (option SampleBatch) :=
  let! samples := attr _samples in
  let! del_sample := lift (list_getitem samples i) in
  let! samples' := lift (list_setitem samples i None) in
  assign (set_samples samples') >>
  push_hit_count i >>
  store_hit_count i 0 >>
  ret del_sample.

#[export] Instance InMemoryStorage : Backend Slots := {|
  _get := InMemoryStorage__get;
  _set := InMemoryStorage__set;
  __delitem__ := InMemoryStorage___delitem__
|}.

(** [InMemoryStorage.__init__]: [self._samples = [None] * capacity_items]
    after the initialisation of the base class. *)
Definition InMemoryStorage___init__ (capacity_items : Z)
    (capacity_ts capacity_bytes : capacity) : res (LocalStorage Slots) :=
  LocalStorage___init__ capacity_items capacity_ts capacity_bytes
    (replicate (Z.to_nat capacity_items) None).

(** [InMemoryStorage.get_state] *)
Definition InMemoryStorage_get_state (s : LocalStorage Slots)
  : gmap string pyobj :=
  <["_samples" := PySamples (_samples s)]> (LocalStorage_get_state s).

(** [InMemoryStorage.set_state] *)
Definition InMemoryStorage_set_state (state : gmap string pyobj)
  : M (LocalStorage Slots) unit :=
  let! samples := lift (item_samples state "_samples") in
  modify (set_samples samples) >>
  LocalStorage_set_state state.

(** A freshly constructed storage in a process that has logged nothing. *)
Definition fresh (s : LocalStorage Slots) : World Slots :=
  {| self := s; logger := []; logged_once := ∅ |}.

(** ** [OnDiskStorage]: the slots are a shelf

    The shelf is a dictionary on disk, keyed by [str(index)].  The
    attributes that name the backing file and its directory play no part in
    the three primitives and are left out; a shelf that fails to read or
    write is not modelled. *)

Abbreviation Shelf := (gmap string SampleBatch).

(** [shelf[str(i)]]: a missing key raises [KeyError]. *)
Definition shelf_getitem (shelf : Shelf) (i : Z) : res SampleBatch :=
  match shelf !! pretty i with
  | Some item => Ok item
  | None => Raise KeyError
  end.

(** [OnDiskStorage._get] *)
Definition OnDiskStorage__get (i : Z) : M (World Shelf) (option SampleBatch) :=
  let! samples := attr _samples in
  let! item := lift (shelf_getitem samples i) in
  ret (Some item).

(** [OnDiskStorage._set].  The first argument of the call to
    [_warn_replay_capacity], [self._capacity_items / item.count], divides by
    the item's count before the callee does; [sync()] changes nothing in the
    model. *)
Definition OnDiskStorage__set (avail idx : Z) (item : SampleBatch)
  : M (World Shelf) unit :=
  (if count item =? 0 then raise ZeroDivisionError else ret tt) >>
  _warn_replay_capacity avail item >>
  let! samples := attr _samples in
  assign (set_samples (<[pretty idx := item]> samples)).

(** [OnDiskStorage.__delitem__]: the item stays on the shelf. *)
Definition OnDiskStorage___delitem__ (i : Z)
  : M (World Shelf) (option SampleBatch) :=
  let! samples := attr _samples in
  let! drop_item := lift (shelf_getitem samples i) in
  push_hit_count i >>
  store_hit_count i 0 >>
  ret (Some drop_item).

#[export] Instance OnDiskStorage : Backend Shelf := {|
  _get := OnDiskStorage__get;
  _set := OnDiskStorage__set;
  __delitem__ := OnDiskStorage___delitem__
|}.

(** ** [StorageView]: a read-only list of logical indices over a storage *)

(** A Python [slice] object: each part is an integer or [None]. *)
Record slice := mkSlice {
  start : option Z;
  stop : option Z;
  step : option Z
}.

(** [x or d]: [None] and [0] are both falsy. *)
Definition or_ (x : option Z) (d : Z) : Z :=
  match x with
  | Some v => if v =? 0 then d else v
  | None => d
  end.

(** [len(range(start, stop, step))] for a step that is not zero. *)
Definition range_len (start stop step : Z) : Z :=
  if 0 <? step then
    if start <? stop then (stop - start - 1) / step + 1 else 0
  else
    if stop <? start then (start - stop - 1) / (- step) + 1 else 0.

(** [list(range(start, stop, step))]; a zero step raises [ValueError]. *)
Definition py_range (start stop step : Z) : res (list Z) :=
  if step =? 0 then Raise ValueError
  else Ok ((fun k => start + Z.of_nat k * step)
             <$> seq 0 (Z.to_nat (range_len start stop step))).

(** The object a view reads from: the storage held by the world, or a
    view ([_storage], [_slice], [_idx_map]) over such an object. *)
Inductive Container :=
| Storage
| StorageView (_storage : Container) (_slice : Z * Z * Z)
    (_idx_map : list Z).

Section StorageView.
Context {B : Type} `{Backend B}.

(** [len(storage)] for a storage or a view. *)
Definition len_of (storage : Container) : M (World B) Z :=
  match storage with
  | Storage => len
  | StorageView _ _ idx_map => ret (len_ idx_map)
  end.

(** [StorageView.__init__] *)
Definition StorageView___init__ (storage : Container) (storage_slice : slice)
  : M (World B) Container :=
  let! n := len_of storage in
  let step_ := or_ (step storage_slice) 1 in
  let start_ :=
    if 0 <? step_ then or_ (start storage_slice) 0
    else or_ (start storage_slice) (n - 1) in
  let stop_ :=
    if 0 <? step_ then or_ (stop storage_slice) n
    else or_ (stop storage_slice) (- (n + 1)) in
  let stop' :=
    if (step_ <? 0) && bool_decide (stop storage_slice = None)
    then stop_ + n else stop_ in
  let! idx_map := lift (py_range start_ stop' step_) in
  ret (StorageView storage (start_, stop_, step_) idx_map).

(** [__getitem__] with an integer key, on a storage or on a view: a view
    normalises the key against its own length, looks the index up in its
    index list and asks the object beneath it. *)
Fixpoint getitem (fuel : nat) (storage : Container) (key : Z)
  : M (World B) (option SampleBatch) :=
  match storage with
  | Storage => __getitem__ fuel key
  | StorageView parent _ idx_map =>
      let n := len_ idx_map in
      let! i := lift (wrap_key fuel n key) in
      let! idx := lift (list_getitem idx_map i) in
      getitem fuel parent idx
  end.
End StorageView.

(** ** [ReservoirBuffer] *)

Record ReservoirBuffer (B : Type) := mkReservoirBuffer {
  _storage : World B;
  _num_add_calls : Z;
  _num_evicted : Z
}.
Arguments mkReservoirBuffer {B}.
Arguments _storage {B}.
Arguments _num_add_calls {B}.
Arguments _num_evicted {B}.

(** A positional argument of a call: the buffer object or an item. *)
Inductive argument :=
| the_buffer
| an_item (item : SampleBatch).

(** [random.randint(a, b)]: an integer of [a..b], here picked by [entropy]. *)
Definition random_randint (entropy a b : Z) : res Z :=
  if b <? a then Raise ValueError else Ok (a + entropy mod (b - a + 1)).

Section ReservoirBuffer.
Context {B : Type} `{Backend B}.

(** An action of the storage, run on [self._storage]. *)
Definition on_storage {A} (m : M (World B) A) : M (ReservoirBuffer B) A :=
  zoom _storage
    (fun w b => mkReservoirBuffer w (_num_add_calls b) (_num_evicted b)) m.

(** Modelled from the spec: [ReplayBuffer._add_single_batch]
    ([replay_buffer.py] is not among the sources), which the spec describes
    as "delegate directly to the Storage's normal FIFO add".  It is the
    method that [ReservoirBuffer._add_single_batch(self, item, **kwargs)]
    overrides, called here through the class with the list of positional
    arguments of the call: the first is bound to [self], the second to
    [item]; an item has no [_storage]. *)
Definition ReplayBuffer__add_single_batch (avail : Z) (args : list argument)
  : M (ReservoirBuffer B) unit :=
  match args with
  | [the_buffer; an_item item] => on_storage (add avail item)
  | [an_item _; an_item _] => raise AttributeError
  | _ => raise TypeError
  end.

(** [ReservoirBuffer._add_single_batch] *)
Definition _add_single_batch (entropy avail : Z) (item : SampleBatch)
  : M (ReservoirBuffer B) unit :=
  modify (fun b =>
    mkReservoirBuffer (_storage b) (_num_add_calls b + 1) (_num_evicted b)) >>
  let! started := on_storage (attr _eviction_started) in
  if started then
    let! b := get in
    let! idx := lift (random_randint entropy 0 (_num_add_calls b - 1)) in
    let! n := on_storage len in
    if idx <? n then
      modify (fun b =>
        mkReservoirBuffer (_storage b) (_num_add_calls b)
          (_num_evicted b + 1)) >>
      on_storage (__setitem__ avail idx item)
    else ret tt
  else
    ReplayBuffer__add_single_batch avail [an_item item].
End ReservoirBuffer.

(** ** Specification vocabulary *)

(** [wp m s Q]: running [m] in state [s] ends in a state and a result that
    satisfy [Q]. *)
Definition wp {St A} (m : M St A) (s : St) (Q : St -> res A -> Prop) : Prop :=
  Q (m s).1 (m s).2.

(** Latest state after a series of calls of [add], each with the free
    space reported at that call; a caller that catches an exception goes on
    with the storage as the failed call left it. *)
Definition after_adds {B} `{Backend B} (calls : list (Z * SampleBatch))
    (w : World B) : World B :=
  foldl (fun w call => (add call.1 call.2 w).1) w calls.

(** The attributes the ring buffer accounts with. *)
Definition accounting {B} (s : LocalStorage B) :=
  (_capacity_ts s, _capacity_items s, _capacity_bytes s,
   _num_items s, _num_timesteps s, _size_bytes s).

(** What [LocalStorage] expects of the primitives of a subclass: they
    return or raise, and they keep their hands off the accounting of the
    ring buffer. *)
Class BackendLaws (B : Type) `{Backend B} := {
  _get_returns idx w : (_get idx w).2 <> OutOfFuel;
  _set_accounting avail idx item w :
    accounting (self (_set avail idx item w).1) = accounting (self w)
    /\ (_set avail idx item w).2 <> OutOfFuel;
  __delitem___accounting idx w :
    accounting (self (__delitem__ idx w).1) = accounting (self w)
    /\ (__delitem__ idx w).2 <> OutOfFuel
}.

(** The three capacity bounds. *)
Definition within_capacities {B} (s : LocalStorage B) : Prop :=
  _num_items s <= _capacity_items s
  /\ exceeds (_num_timesteps s) (_capacity_ts s) = false
  /\ exceeds (_size_bytes s) (_capacity_bytes s) = false.

(** The physical slot of logical index [i]. *)
Definition slot_of {B} (s : LocalStorage B) (i : Z) : nat :=
  Z.to_nat ((_oldest_item_idx s + i) mod _capacity_items s).

(** Well-formed storages in memory: the shape [__init__] sets up and [add]
    maintains. *)
Record well_formed (s : LocalStorage Slots) : Prop := {
  wf_capacity : 0 < _capacity_items s;
  wf_oldest : 0 <= _oldest_item_idx s < _capacity_items s;
  wf_num_items : 0 <= _num_items s <= _capacity_items s;
  wf_hit_count : len_ (_hit_count s) = _capacity_items s;
  wf_samples : len_ (_samples s) = _capacity_items s;
  wf_occupied : forall i, 0 <= i < _num_items s ->
    exists item, _samples s !! slot_of s i = Some (Some item)
}.

(** The records the capacity forecast writes to the log. *)
Definition estimated_usage (r : LogRecord) : Prop :=
  match r with
  | warning_estimated_usage _ _ _ | info_estimated_usage _ _ _ => True
  | _ => False
  end.

(** The state one eviction leaves behind. *)
Definition evicted (h : Z) (item : SampleBatch) (s : LocalStorage Slots)
  : LocalStorage Slots :=
  let oldest := Z.to_nat (_oldest_item_idx s) in
  {| _capacity_ts := _capacity_ts s;
     _capacity_items := _capacity_items s;
     _capacity_bytes := _capacity_bytes s;
     _eviction_started := true;
     _num_items := _num_items s - 1;
     _oldest_item_idx := (_oldest_item_idx s + 1) mod _capacity_items s;
     _num_timesteps_added := _num_timesteps_added s;
     _num_timesteps := _num_timesteps s - count item;
     _hit_count := <[oldest := 0]> (_hit_count s);
     _evicted_hit_stats := push 0 (push h (_evicted_hit_stats s));
     _size_bytes := _size_bytes s - size_bytes item;
     est_final_size := est_final_size s;
     _samples := <[oldest := None]> (_samples s) |}.

(** What the evictions of one call of [add] may change. *)
Definition evictions_only (s s' : LocalStorage Slots) : Prop :=
  _capacity_ts s' = _capacity_ts s
  /\ _capacity_items s' = _capacity_items s
  /\ _capacity_bytes s' = _capacity_bytes s
  /\ _num_timesteps_added s' = _num_timesteps_added s
  /\ est_final_size s' = est_final_size s
  /\ _num_items s' <= _num_items s
  /\ forall p, _samples s' !! p = _samples s !! p
               \/ _samples s' !! p = Some None.

(** The state of [add] once the item is counted: the three assignments
    that precede its loop. *)
Definition counted {B} (item : SampleBatch) (w : World B) : World B :=
  mkWorld
    (set_size_bytes (_size_bytes (self w) + size_bytes item)
       (set_num_timesteps (_num_timesteps (self w) + count item)
          (set_num_timesteps_added
             (_num_timesteps_added (self w) + count item) (self w))))
    (logger w) (logged_once w).

(** The number of evictions of a call of [add] that went from [w] to [w']
    and stored its item: every turn of the loop lowers [_num_items] by one
    (lemma [evict_oldest_accounting]) and the insertion raises it by one. *)
Definition evictions_during {B} (w w' : World B) : Z :=
  _num_items (self w) + 1 - _num_items (self w').

(** ** Sample data *)

Definition GB : Z := 1000000000.

(** Batches of one gigabyte. *)
Definition batch_A : SampleBatch := mkBatch 1 GB 1.
Definition batch_B : SampleBatch := mkBatch 1 GB 2.
Definition batch_C : SampleBatch := mkBatch 1 GB 3.
Definition batch_D : SampleBatch := mkBatch 1 GB 4.
Definition batch_E : SampleBatch := mkBatch 3 GB 5.
Definition batch_F : SampleBatch := mkBatch 2 GB 6.
Definition batch_G : SampleBatch := mkBatch 4 GB 7.

(** Free memory reported by the system: plenty, and too little. *)
Definition plenty : Z := 64 * GB.
Definition scarce : Z := GB / 2.

(** [InMemoryStorage(capacity_items=3, capacity_ts=4)] *)
Definition empty_storage : LocalStorage Slots :=
  {| _capacity_ts := Finite 4;
     _capacity_items := 3;
     _capacity_bytes := math_inf;
     _eviction_started := false;
     _num_items := 0;
     _oldest_item_idx := 0;
     _num_timesteps_added := 0;
     _num_timesteps := 0;
     _hit_count := [0; 0; 0];
     _evicted_hit_stats := WindowStat_new 1000;
     _size_bytes := 0;
     est_final_size := None;
     _samples := [None; None; None] |}.

(** The storage after [add(A)], [add(B)], and after [add(C)]. *)
Definition storage_AB : World Slots :=
  after_adds [(plenty, batch_A); (plenty, batch_B)] (fresh empty_storage).

Definition storage_ABC : World Slots :=
  after_adds [(plenty, batch_C)] storage_AB.

(** The storage after [add(A)], [add(B)], [add(F)], [add(C)]: the last call
    evicted [A], so the storage holds [B], [F], [C] and has begun
    evicting. *)
Definition storage_BFC : World Slots :=
  after_adds [(plenty, batch_A); (plenty, batch_B); (plenty, batch_F);
              (plenty, batch_C)] (fresh empty_storage).

(** A storage holds an item; a view lists an index and so does everything
    beneath it. *)
Fixpoint all_nonempty {B} (storage : Container) (w : World B) : Prop :=
  match storage with
  | Storage => 0 < _num_items (self w)
  | StorageView parent _ idx_map => idx_map <> [] /\ all_nonempty parent w
  end.

(** The state [__setitem__] leaves behind when it replaces [old], read [h]
    times, in physical slot [p] by [item]: [slot] is what the slot holds in
    the end and [e] the forecast stored by [_set]. *)
Definition replaced (h : Z) (old item : SampleBatch) (e : option Q)
    (p : nat) (slot : option SampleBatch) (s : LocalStorage Slots)
  : LocalStorage Slots :=
  {| _capacity_ts := _capacity_ts s;
     _capacity_items := _capacity_items s;
     _capacity_bytes := _capacity_bytes s;
     _eviction_started := _eviction_started s;
     _num_items := _num_items s;
     _oldest_item_idx := _oldest_item_idx s;
     _num_timesteps_added := _num_timesteps_added s + count item;
     _num_timesteps := _num_timesteps s - count old + count item;
     _hit_count := <[p := 0]> (_hit_count s);
     _evicted_hit_stats := push 0 (push h (_evicted_hit_stats s));
     _size_bytes := _size_bytes s - size_bytes old + size_bytes item;
     est_final_size := e;
     _samples := <[p := slot]> (_samples s) |}.

(** ** Python's slicing of a sequence, as the reference for views *)

(** An explicit bound of a slice over a sequence of length [n], the way
    Python resolves it: a negative bound counts from the end, and the
    result is cut down to the sequence. *)
Definition clamp_bound (n : Z) (backwards : bool) (b : Z) : Z :=
  if b <? 0 then
    if b + n <? 0 then (if backwards then -1 else 0) else b + n
  else
    if n <=? b then (if backwards then n - 1 else n) else b.

(** Following the spec's words, "conventional Python sequence-slicing
    semantics over range(len(parent))": the start and the stop that Python
    resolves a slice to over a sequence of length [n], that is,
    [slice(start, stop, step).indices(n)]. *)
Definition python_start (n : Z) (s : slice) : Z :=
  let backwards := default 1 (step s) <? 0 in
  match start s with
  | None => if backwards then n - 1 else 0
  | Some b => clamp_bound n backwards b
  end.

Definition python_stop (n : Z) (s : slice) : Z :=
  let backwards := default 1 (step s) <? 0 in
  match stop s with
  | None => if backwards then -1 else n
  | Some b => clamp_bound n backwards b
  end.

(** [list(range(n))[start:stop:step]], that is,
    [list(range( *slice(start, stop, step).indices(n)))]. *)
Definition sequence_slice (n : Z) (s : slice) : res (list Z) :=
  let step_ := default 1 (step s) in
  if step_ =? 0 then Raise ValueError
  else py_range (python_start n s) (python_stop n s) step_.

(** A start that is left out, or given as a position within the sequence:
    [0 .. n] going forwards, [1 .. n - 1] going backwards. *)
Definition plain_start (n : Z) (s : slice) : Prop :=
  match start s with
  | None => True
  | Some v => if default 1 (step s) <? 0 then 0 < v <= n - 1 else 0 <= v <= n
  end.

(** A stop that is left out, or given as a position above zero within the
    sequence: [1 .. n] going forwards, [1 .. n - 1] going backwards. *)
Definition plain_stop (n : Z) (s : slice) : Prop :=
  match stop s with
  | None => True
  | Some v => 0 < v <= (if default 1 (step s) <? 0 then n - 1 else n)
  end.

(** [InMemoryStorage(capacity_items=10)], and the same after ten calls of
    [add]. *)
Definition empty_storage_of_ten : LocalStorage Slots :=
  {| _capacity_ts := math_inf;
     _capacity_items := 10;
     _capacity_bytes := math_inf;
     _eviction_started := false;
     _num_items := 0;
     _oldest_item_idx := 0;
     _num_timesteps_added := 0;
     _num_timesteps := 0;
     _hit_count := replicate 10 0;
     _evicted_hit_stats := WindowStat_new 1000;
     _size_bytes := 0;
     est_final_size := None;
     _samples := replicate 10 None |}.

Definition storage_of_ten : World Slots :=
  after_adds ((fun k => (plenty, mkBatch 1 GB k)) <$> seq 0 10)
    (fresh empty_storage_of_ten).

(** A reservoir buffer over the empty sample storage, and one over the
    sample storage that has begun evicting after four calls. *)
Definition new_buffer : ReservoirBuffer Slots :=
  mkReservoirBuffer (fresh empty_storage) 0 0.

Definition buffer_BFC : ReservoirBuffer Slots :=
  mkReservoirBuffer storage_BFC 4 0.

(** [OnDiskStorage(capacity_items=3, capacity_ts=4)] in a process that has
    logged nothing, and the same after three calls of [add]. *)
Definition empty_shelf : World Shelf :=
  {| self :=
       {| _capacity_ts := Finite 4;
          _capacity_items := 3;
          _capacity_bytes := math_inf;
          _eviction_started := false;
          _num_items := 0;
          _oldest_item_idx := 0;
          _num_timesteps_added := 0;
          _num_timesteps := 0;
          _hit_count := [0; 0; 0];
          _evicted_hit_stats := WindowStat_new 1000;
          _size_bytes := 0;
          est_final_size := None;
          _samples := ∅ |};
     logger := [];
     logged_once := ∅ |}.

Definition shelf_ABC : World Shelf :=
  after_adds [(plenty, batch_A); (plenty, batch_B); (plenty, batch_C)]
    empty_shelf.

(** The storage as [__setitem__] hands it to [_set], over any backend:
    [s] is the storage as [__delitem__] left it, [old] the item it
    returned, [h] the hit count the slot [idx] had by then. *)
Definition replacement_counted {B} (h : Z) (old item : SampleBatch) (idx : Z)
    (s : LocalStorage B) : LocalStorage B :=
  {| _capacity_ts := _capacity_ts s;
     _capacity_items := _capacity_items s;
     _capacity_bytes := _capacity_bytes s;
     _eviction_started := _eviction_started s;
     _num_items := _num_items s;
     _oldest_item_idx := _oldest_item_idx s;
     _num_timesteps_added := _num_timesteps_added s + count item;
     _num_timesteps := _num_timesteps s - count old + count item;
     _hit_count := <[Z.to_nat idx := 0]> (_hit_count s);
     _evicted_hit_stats := push h (_evicted_hit_stats s);
     _size_bytes := _size_bytes s - size_bytes old + size_bytes item;
     est_final_size := est_final_size s;
     _samples := _samples s |}.

(** ** Iteration *)

Section Iteration.
Context {B : Type} `{Backend B}.

(** The items that the loop [for i in range(..): yield self[i]] yields from
    index [i] on, [todo] turns of it, when the iterator is run to its end
    with nothing else touching the storage in between. *)
Fixpoint yield_from (fuel : nat) (storage : Container) (i : Z) (todo : nat)
  : M (World B) (list (option SampleBatch)) :=
  match todo with
  | O => ret []
  | S todo' =>
      let! item := getitem fuel storage i in
      let! rest := yield_from fuel storage (i + 1) todo' in
      ret (item :: rest)
  end.

(** [__iter__], which [StorageView] inherits: [range(len(self))] is taken
    once, before the first item. *)
Definition __iter__ (fuel : nat) (storage : Container)
  : M (World B) (list (option SampleBatch)) :=
  let! n := len_of storage in
  yield_from fuel storage 0 (Z.to_nat n).
End Iteration.

(** ** The contents of a storage in memory, in logical order *)

(** What the slot of logical index [i] holds. *)
Definition held (s : LocalStorage Slots) (i : Z) : option SampleBatch :=
  default None (_samples s !! slot_of s i).

(** The slots of the logical indices [0 .. num_items - 1], oldest first. *)
Definition logical (s : LocalStorage Slots) : list (option SampleBatch) :=
  (fun k => held s (Z.of_nat k)) <$> seq 0 (Z.to_nat (_num_items s)).

(** The same for the storage on disk: what the shelf holds under the keys
    of the logical indices [0 .. num_items - 1], oldest first. *)
Definition on_shelf (s : LocalStorage Shelf) : list (option SampleBatch) :=
  (fun k => _samples s
              !! pretty ((_oldest_item_idx s + Z.of_nat k)
                         mod _capacity_items s))
    <$> seq 0 (Z.to_nat (_num_items s)).

(** Timesteps and bytes of a list of slots. *)
Definition timesteps_of (l : list (option SampleBatch)) : Z :=
  foldr (fun slot total => from_option count 0 slot + total) 0 l.

Definition bytes_of (l : list (option SampleBatch)) : Z :=
  foldr (fun slot total => from_option size_bytes 0 slot + total) 0 l.

(** The live counters say what the stored items add up to. *)
Definition accounted (s : LocalStorage Slots) : Prop :=
  _num_timesteps s = timesteps_of (logical s)
  /\ _size_bytes s = bytes_of (logical s).

(** The hit counts of the stored items, oldest first. *)
Definition hits_of (s : LocalStorage Slots) : list Z :=
  (fun k => default 0 (_hit_count s !! slot_of s (Z.of_nat k)))
    <$> seq 0 (Z.to_nat (_num_items s)).

(** The hit count of every slot that holds no item is zero. *)
Definition free_slots_unread (s : LocalStorage Slots) : Prop :=
  forall p, (forall i, 0 <= i < _num_items s -> slot_of s i <> p) ->
    (p < length (_hit_count s))%nat -> _hit_count s !! p = Some 0.

(** [s'] is [s] after the eviction of its [k] oldest items. *)
Definition evicted_first (k : nat) (s s' : LocalStorage Slots) : Prop :=
  (k <= Z.to_nat (_num_items s))%nat
  /\ _capacity_ts s' = _capacity_ts s
  /\ _capacity_items s' = _capacity_items s
  /\ _capacity_bytes s' = _capacity_bytes s
  /\ _num_timesteps_added s' = _num_timesteps_added s
  /\ est_final_size s' = est_final_size s
  /\ _num_items s' = _num_items s - Z.of_nat k
  /\ logical s' = drop k (logical s)
  /\ _num_timesteps s' = _num_timesteps s - timesteps_of (take k (logical s))
  /\ _size_bytes s' = _size_bytes s - bytes_of (take k (logical s))
  /\ _eviction_started s'
     = _eviction_started s || bool_decide (0 < k)%nat.

(** No stored item has a negative number of timesteps or bytes. *)
Definition nonnegative (l : list (option SampleBatch)) : Prop :=
  Forall (fun slot => 0 <= from_option count 0 slot
                      /\ 0 <= from_option size_bytes 0 slot) l.

(** ** What a view reads *)

(** The length of a storage or view over a storage of [n] items. *)
Definition length_of (storage : Container) (n : Z) : Z :=
  match storage with
  | Storage => n
  | StorageView _ _ idx_map => len_ idx_map
  end.

(** Every index list stays within what lies beneath it. *)
Fixpoint in_bounds (storage : Container) (n : Z) : Prop :=
  match storage with
  | Storage => True
  | StorageView parent _ idx_map =>
      in_bounds parent n
      /\ Forall (fun idx => 0 <= idx < length_of parent n) idx_map
  end.

(** The logical index of the storage that position [i] of a storage or
    view stands for. *)
Fixpoint resolve (storage : Container) (i : Z) : Z :=
  match storage with
  | Storage => i
  | StorageView parent _ idx_map =>
      resolve parent (default 0 (idx_map !! Z.to_nat i))
  end.

(** The hit counts [hits] after one more read of logical index [i], and
    the hit counts of [s] after a read of each of the logical indices
    [reads]. *)
Definition bump (s : LocalStorage Slots) (hits : list Z) (i : Z) : list Z :=
  <[slot_of s i := wrap_int64 (default 0 (hits !! slot_of s i) + 1)]> hits.

Definition bumped (s : LocalStorage Slots) (reads : list Z) : list Z :=
  foldl (bump s) (_hit_count s) reads.

(** ** More sample data *)

(** [InMemoryStorage(capacity_items=3, capacity_ts=2)], and the same after
    [add(A)], [add(B)]. *)
Definition small_storage : LocalStorage Slots :=
  {| _capacity_ts := Finite 2;
     _capacity_items := 3;
     _capacity_bytes := math_inf;
     _eviction_started := false;
     _num_items := 0;
     _oldest_item_idx := 0;
     _num_timesteps_added := 0;
     _num_timesteps := 0;
     _hit_count := [0; 0; 0];
     _evicted_hit_stats := WindowStat_new 1000;
     _size_bytes := 0;
     est_final_size := None;
     _samples := [None; None; None] |}.

Definition small_storage_AB : World Slots :=
  after_adds [(plenty, batch_A); (plenty, batch_B)] (fresh small_storage).

(* ================================================================= *)
(** * Part II: properties *)
(* ================================================================= *)

(** ** Rules for [wp] *)

Section WpRules.
Context {St : Type}.

Lemma wp_bind {A C} (m : M St A) (k : A -> M St C) s Q :
  wp m s (fun s' r =>
    match r with
    | Ok a => wp (k a) s' Q
    | Raise e => Q s' (Raise e)
    | OutOfFuel => Q s' OutOfFuel
    end) ->
  wp (bind m k) s Q.
Proof. unfold wp, bind. destruct (m s) as [s' [a|e|]]; simpl; auto. Qed.

Lemma wp_wand {A} (m : M St A) s (Q1 Q2 : St -> res A -> Prop) :
  wp m s Q1 -> (forall s' r, Q1 s' r -> Q2 s' r) -> wp m s Q2.
Proof. unfold wp. auto. Qed.

Lemma wp_wand_run {A} (m : M St A) s (Q1 Q2 : St -> res A -> Prop) :
  wp m s Q1 -> (forall s' r, m s = (s', r) -> Q1 s' r -> Q2 s' r) ->
  wp m s Q2.
Proof. unfold wp. intros H1 H12. apply H12; [now destruct (m s)|done]. Qed.

Lemma wp_ret {A} (a : A) s (Q : St -> res A -> Prop) :
  Q s (Ok a) -> wp (ret a) s Q.
Proof. auto. Qed.

Lemma wp_raise {A} e s (Q : St -> res A -> Prop) :
  Q s (Raise e) -> wp (raise e) s Q.
Proof. auto. Qed.

Lemma wp_lift {A} (r : res A) s (Q : St -> res A -> Prop) :
  Q s r -> wp (lift r) s Q.
Proof. auto. Qed.

Lemma wp_get s (Q : St -> res St -> Prop) : Q s (Ok s) -> wp get s Q.
Proof. auto. Qed.

Lemma wp_modify f s (Q : St -> res unit -> Prop) :
  Q (f s) (Ok tt) -> wp (modify f) s Q.
Proof. auto. Qed.

Lemma wp_py_assert (b : bool) s (Q : St -> res unit -> Prop) :
  (if b then Q s (Ok tt) else Q s (Raise AssertionError)) ->
  wp (py_assert b) s Q.
Proof. destruct b; auto. Qed.

Lemma wp_attr_of {A} o (f : SampleBatch -> A) s (Q : St -> res A -> Prop) :
  match o with
  | Some b => Q s (Ok (f b))
  | None => Q s (Raise AttributeError)
  end ->
  wp (attr_of o f) s Q.
Proof. destruct o; auto. Qed.
End WpRules.

Section WpWorld.
Context {B : Type}.

Lemma wp_attr {A} (f : LocalStorage B -> A) w (Q : World B -> res A -> Prop) :
  Q w (Ok (f (self w))) -> wp (attr f) w Q.
Proof. auto. Qed.

Lemma wp_assign f (w : World B) (Q : World B -> res unit -> Prop) :
  Q (mkWorld (f (self w)) (logger w) (logged_once w)) (Ok tt) ->
  wp (assign f) w Q.
Proof. auto. Qed.

Lemma wp_log r (w : World B) (Q : World B -> res unit -> Prop) :
  Q (mkWorld (self w) (logger w ++ [r]) (logged_once w)) (Ok tt) ->
  wp (log r) w Q.
Proof. auto. Qed.
End WpWorld.

(** One step through an action: split a [bind], run a primitive. *)
Ltac wp_step :=
  lazymatch goal with
  | |- wp (bind _ _) _ _ => apply wp_bind
  | |- wp (attr _) _ _ => apply wp_attr
  | |- wp (assign _) _ _ => apply wp_assign
  | |- wp (log _) _ _ => apply wp_log
  | |- wp (ret _) _ _ => apply wp_ret
  | |- wp (raise _) _ _ => apply wp_raise
  | |- wp (lift _) _ _ => apply wp_lift
  | |- wp get _ _ => apply wp_get
  | |- wp (modify _) _ _ => apply wp_modify
  | |- wp (py_assert _) _ _ => apply wp_py_assert
  | |- wp (attr_of _ _) _ _ => apply wp_attr_of
  | |- wp len _ _ => apply wp_attr
  end; cbv beta iota.

Ltac wp_steps := repeat wp_step.

(** ** Laws of the ring buffer over any lawful backend *)

Section Generic.
Context {B : Type} `{BackendLaws B}.

Lemma wp___delitem__ idx (w : World B) :
  wp (__delitem__ idx) w (fun w' r =>
    accounting (self w') = accounting (self w) /\ r <> OutOfFuel).
Proof. apply __delitem___accounting. Qed.

Lemma wp__set avail idx item (w : World B) :
  wp (_set avail idx item) w (fun w' r =>
    accounting (self w') = accounting (self w) /\ r <> OutOfFuel).
Proof. apply _set_accounting. Qed.

Lemma wp__get_internal_index idx (w : World B) Q :
  (if idx <? 0 then Q w (Raise IndexError)
   else Q w (Ok ((_oldest_item_idx (self w) + idx)
                   mod Z.max 1 (_capacity_items (self w))))) ->
  wp (_get_internal_index idx) w Q.
Proof.
  unfold _get_internal_index. destruct (idx <? 0); intros HQ; now wp_steps.
Qed.

Lemma wp_push_hit_count idx (w : World B) Q :
  match list_getitem (_hit_count (self w)) idx with
  | Ok h =>
      Q (mkWorld (set_evicted_hit_stats (push h (_evicted_hit_stats (self w)))
                    (self w)) (logger w) (logged_once w)) (Ok tt)
  | Raise e => Q w (Raise e)
  | OutOfFuel => Q w OutOfFuel
  end ->
  wp (push_hit_count idx) w Q.
Proof.
  unfold push_hit_count. intros HQ. wp_steps.
  destruct (list_getitem _ idx); now wp_steps.
Qed.

Lemma wp_store_hit_count idx v (w : World B) Q :
  match list_setitem (_hit_count (self w)) idx v with
  | Ok hits =>
      Q (mkWorld (set_hit_count hits (self w)) (logger w) (logged_once w))
        (Ok tt)
  | Raise e => Q w (Raise e)
  | OutOfFuel => Q w OutOfFuel
  end ->
  wp (store_hit_count idx v) w Q.
Proof.
  unfold store_hit_count. intros HQ. wp_steps.
  destruct (list_setitem _ idx v); now wp_steps.
Qed.

Lemma list_getitem_returns {A} (l : list A) idx : list_getitem l idx <> OutOfFuel.
Proof. unfold list_getitem. repeat case_match; discriminate. Qed.

Lemma list_setitem_returns {A} (l : list A) idx x :
  list_setitem l idx x <> OutOfFuel.
Proof. unfold list_setitem. repeat case_match; discriminate. Qed.

(** One eviction lowers [_num_items] by exactly one, and only when there is
    an item; an eviction that raises leaves [_num_items] as it was. *)
Lemma evict_oldest_accounting (w : World B) :
  wp evict_oldest w (fun w' r =>
    _capacity_items (self w') = _capacity_items (self w)
    /\ match r with
       | Ok _ => 0 < _num_items (self w)
                 /\ _num_items (self w') = _num_items (self w) - 1
       | Raise _ => _num_items (self w') = _num_items (self w)
       | OutOfFuel => False
       end).
Proof.
  unfold evict_oldest. wp_steps.
  destruct (0 <? _num_items (self w)) eqn:Hn; [|done].
  apply Z.ltb_lt in Hn. wp_steps.
  apply wp_push_hit_count.
  pose proof (list_getitem_returns (_hit_count (set_eviction_started true (self w))) (_oldest_item_idx (self w))).
  destruct (list_getitem _ _); try done. simpl.
  wp_steps. apply wp_store_hit_count. simpl.
  pose proof (list_setitem_returns (_hit_count (self w)) (_oldest_item_idx (self w)) 0).
  destruct (list_setitem _ _ _); try done.
  wp_steps. eapply wp_wand; [apply wp___delitem__|].
  intros w1 r [Ha Hr]. unfold accounting in Ha. simpl in Ha.
  destruct r as [d| |]; try done; [|split; congruence].
  wp_steps. destruct d; [|split; congruence].
  wp_steps. apply wp__get_internal_index. simpl. wp_steps. simpl.
  split; [congruence|]. split; [lia|]. congruence.
Qed.

(** The loop of [add] stops: fuel beyond [_num_items] is never used up.  It
    leaves [_capacity_items] alone, never raises [_num_items], and when it
    is left normally its condition is false. *)
Lemma drop_old_items_accounting fuel (w : World B) :
  (Z.to_nat (_num_items (self w)) < fuel)%nat ->
  wp (drop_old_items fuel) w (fun w' r =>
    _capacity_items (self w') = _capacity_items (self w)
    /\ _num_items (self w') <= _num_items (self w)
    /\ match r with
       | Ok _ => over_capacity (self w') = false
       | Raise _ => True
       | OutOfFuel => False
       end).
Proof.
  revert w. induction fuel as [|fuel IH]; intros w Hfuel; [lia|].
  simpl. wp_steps.
  destruct (over_capacity (self w)) eqn:Hover; [|now wp_steps].
  wp_steps. eapply wp_wand; [apply evict_oldest_accounting|].
  intros w1 r [Hcap Hr]. destruct r as [[]|e|]; [|repeat split; lia|done].
  destruct Hr as [Hpos Hn].
  eapply wp_wand; [apply IH; lia|].
  intros w2 r (Hcap2 & Hn2 & Hr2). repeat split; [congruence|lia|done].
Qed.

(** What every call of [add] guarantees, whatever its outcome. *)
Lemma add_accounting avail item (w : World B) :
  wp (add avail item) w (fun w' r =>
    _capacity_items (self w') = _capacity_items (self w)
    /\ r <> OutOfFuel
    /\ (_num_items (self w) <= _capacity_items (self w) ->
        _num_items (self w') <= _capacity_items (self w'))
    /\ (r = Ok tt -> count item <= _capacity_items (self w) ->
        within_capacities (self w'))).
Proof.
  unfold add. wp_steps.
  destruct (_capacity_items (self w) <? count item) eqn:Hsize.
  { wp_steps. simpl. apply Z.ltb_lt in Hsize. repeat split; try done; lia. }
  wp_steps.
  eapply wp_wand; [apply drop_old_items_accounting; simpl; lia|].
  intros w1 r (Hcap1 & Hn1 & Hr1). simpl in Hcap1, Hn1.
  destruct r as [[]|e|]; [|repeat split; try done; lia|done].
  unfold over_capacity in Hr1.
  apply orb_false_iff in Hr1 as [Hr1 Hitems].
  apply orb_false_iff in Hr1 as [Hts Hbytes].
  apply Z.leb_gt in Hitems.
  wp_steps. apply wp__get_internal_index.
  destruct (_num_items (self w1) <? 0); [repeat split; try done; lia|].
  wp_steps. eapply wp_wand; [apply wp__set|].
  intros w2 r [Ha Hr]. unfold accounting in Ha.
  injection Ha as Hts2 Hcap2 Hbytes2 Hn2 Hnts2 Hsz2.
  destruct r as [[]|e|]; [|repeat split; try done; lia|done].
  wp_steps. simpl.
  assert (Hle : _num_items (self w2) + 1 <= _capacity_items (self w2)) by lia.
  apply Z.leb_le in Hle as Hleb. rewrite Hleb.
  repeat split; try done; try lia; simpl; congruence.
Qed.

(** [add] returns or raises: the fuel of its loop is never used up. *)
Lemma add_returns_or_raises avail item (w : World B) :
  (add avail item w).2 <> OutOfFuel.
Proof. now destruct (add_accounting avail item w) as (_ & Hr & _). Qed.
End Generic.

(** No series of calls of [add] takes a storage beyond [capacity_items]
    items, over any lawful backend. *)
Lemma after_adds_within_capacity {B} `{BackendLaws B}
    (calls : list (Z * SampleBatch)) (w : World B) :
  _num_items (self w) <= _capacity_items (self w) ->
  _num_items (self (after_adds calls w))
  <= _capacity_items (self (after_adds calls w)).
Proof.
  revert w. induction calls as [|[avail item] calls IH]; intros w Hw; [done|].
  simpl. apply IH.
  destruct (add_accounting avail item w) as (_ & _ & Hkeep & _). auto.
Qed.

(** ** Python indexing *)

Lemma list_getitem_in_range {A} (l : list A) idx x :
  0 <= idx -> l !! Z.to_nat idx = Some x -> list_getitem l idx = Ok x.
Proof.
  intros Hidx Hx. unfold list_getitem, py_index, len_.
  apply lookup_lt_Some in Hx as Hlt.
  rewrite bool_decide_eq_true_2 by lia. now rewrite Hx.
Qed.

Lemma list_setitem_in_range {A} (l : list A) idx x :
  0 <= idx < len_ l -> list_setitem l idx x = Ok (<[Z.to_nat idx := x]> l).
Proof.
  intros Hidx. unfold list_setitem, py_index.
  now rewrite bool_decide_eq_true_2.
Qed.

Lemma lookup_in_range {A} (l : list A) idx :
  0 <= idx < len_ l -> exists x, l !! Z.to_nat idx = Some x.
Proof.
  intros Hidx. apply lookup_lt_is_Some. unfold len_ in Hidx. lia.
Qed.

(** ** The capacity forecast *)

Lemma set_est_final_size_same {B} (s : LocalStorage B) :
  set_est_final_size (est_final_size s) s = s.
Proof. now destruct s. Qed.

(** The forecast touches [est_final_size] and the log only; it returns, or
    raises [ZeroDivisionError] (an item of no timesteps) or [ValueError]
    (the rejection), and a call that raises has logged nothing. *)
Lemma wp__warn_replay_capacity {B} avail item (w : World B) :
  wp (_warn_replay_capacity avail item) w (fun w' r =>
    (exists e, self w' = set_est_final_size e (self w))
    /\ (exists records,
         logger w' = logger w ++ records /\ Forall estimated_usage records)
    /\ (r = Ok tt \/ r = Raise ValueError \/ r = Raise ZeroDivisionError)
    /\ (r <> Ok tt -> logger w' = logger w /\ logged_once w' = logged_once w)).
Proof.
  unfold _warn_replay_capacity.
  destruct (count item =? 0).
  { wp_steps. split; [eexists; symmetry; apply set_est_final_size_same|].
    split; [exists []; now rewrite app_nil_r|]. split; auto. }
  wp_steps. simpl.
  destruct (Qgtb _ _).
  { wp_steps. simpl. split; [now eexists|].
    split; [exists []; now rewrite app_nil_r|]. split; auto. }
  assert (Hquiet : forall w0 : World B, exists records,
            logger w0 = logger w0 ++ records /\ Forall estimated_usage records).
  { intros w0. exists []. now rewrite app_nil_r. }
  assert (Hloud : forall (w0 : World B) r, estimated_usage r ->
            exists records, logger w0 ++ [r] = logger w0 ++ records
                            /\ Forall estimated_usage records).
  { intros w0 r Hr. exists [r]. split; [done|]. now constructor. }
  destruct (Qgtb _ _); wp_steps; unfold wp, log_once; simpl;
    destruct (bool_decide _); simpl;
    (split; [now eexists|]);
    (split; [first [apply Hquiet | now apply Hloud]|]);
    (split; [auto | congruence]).
Qed.

(** ** [InMemoryStorage] is a lawful backend *)

#[export] Instance InMemoryStorage_laws : BackendLaws Slots.
Proof.
  split.
  - intros idx w. cbn. apply list_getitem_returns.
  - intros avail idx item w. change (wp (InMemoryStorage__set avail idx item) w
      (fun w' r => accounting (self w') = accounting (self w) /\ r <> OutOfFuel)).
    unfold InMemoryStorage__set. wp_steps.
    eapply wp_wand; [apply wp__warn_replay_capacity|].
    intros w1 r ([e He] & _ & Hr & _).
    assert (Ha : accounting (self w1) = accounting (self w)) by now rewrite He.
    destruct Hr as [->|[->| ->]]; try done.
    wp_steps. destruct (idx =? len_ _); wp_steps; [done|].
    pose proof (list_setitem_returns (_samples (self w1)) idx (Some item)).
    destruct (list_setitem _ _ _); now wp_steps.
  - intros idx w.
    change (wp (InMemoryStorage___delitem__ idx) w
      (fun w' r => accounting (self w') = accounting (self w) /\ r <> OutOfFuel)).
    unfold InMemoryStorage___delitem__. wp_steps.
    pose proof (list_getitem_returns (_samples (self w)) idx).
    destruct (list_getitem _ _); try done. wp_steps.
    pose proof (list_setitem_returns (_samples (self w)) idx None).
    destruct (list_setitem _ _ _); try done. wp_steps.
    apply wp_push_hit_count. simpl.
    pose proof (list_getitem_returns (_hit_count (self w)) idx).
    destruct (list_getitem _ _); try done. wp_steps.
    apply wp_store_hit_count. simpl.
    pose proof (list_setitem_returns (_hit_count (self w)) idx 0).
    destruct (list_setitem _ _ _); try done; now wp_steps.
Qed.

(** ** [OnDiskStorage] is a lawful backend *)

#[export] Instance OnDiskStorage_laws : BackendLaws Shelf.
Proof.
  split.
  - intros idx w.
    change (wp (OnDiskStorage__get idx) w (fun _ r => r <> OutOfFuel)).
    unfold OnDiskStorage__get. wp_steps.
    unfold shelf_getitem. destruct (_ !! _); wp_steps; discriminate.
  - intros avail idx item w.
    change (wp (OnDiskStorage__set avail idx item) w
      (fun w' r => accounting (self w') = accounting (self w)
                   /\ r <> OutOfFuel)).
    unfold OnDiskStorage__set. wp_steps.
    destruct (count item =? 0); wp_steps; [done|].
    eapply wp_wand; [apply wp__warn_replay_capacity|].
    intros w1 r ([e He] & _ & Hr & _).
    assert (Ha : accounting (self w1) = accounting (self w)) by now rewrite He.
    destruct Hr as [->|[->| ->]]; try done; now wp_steps.
  - intros idx w.
    change (wp (OnDiskStorage___delitem__ idx) w
      (fun w' r => accounting (self w') = accounting (self w)
                   /\ r <> OutOfFuel)).
    unfold OnDiskStorage___delitem__. wp_steps.
    unfold shelf_getitem. destruct (_ !! _); try done. wp_steps.
    apply wp_push_hit_count.
    pose proof (list_getitem_returns (_hit_count (self w)) idx).
    destruct (list_getitem _ _); try done. wp_steps.
    apply wp_store_hit_count. simpl.
    pose proof (list_setitem_returns (_hit_count (self w)) idx 0).
    destruct (list_setitem _ _ _); try done; now wp_steps.
Qed.

(** ** The ring buffer in memory *)

Lemma wp_equation {St A} (m : M St A) s s' r :
  wp m s (fun s1 r1 => s1 = s' /\ r1 = r) -> m s = (s', r).
Proof. unfold wp. destruct (m s). simpl. now intros [-> ->]. Qed.

Ltac in_memory :=
  change (@__delitem__ _ InMemoryStorage) with InMemoryStorage___delitem__;
  change (@_set _ InMemoryStorage) with InMemoryStorage__set;
  change (@_get _ InMemoryStorage) with InMemoryStorage__get.

Lemma slot_of_bound (s : LocalStorage Slots) i :
  0 < _capacity_items s ->
  0 <= (_oldest_item_idx s + i) mod _capacity_items s < _capacity_items s.
Proof. intros Hcap. now apply Z.mod_pos_bound. Qed.

Lemma slot_of_inj (s : LocalStorage Slots) i j :
  0 < _capacity_items s ->
  0 <= i < _capacity_items s -> 0 <= j < _capacity_items s ->
  slot_of s i = slot_of s j -> i = j.
Proof.
  intros Hcap Hi Hj Heq. unfold slot_of in Heq.
  apply Z2Nat.inj in Heq; try (apply Z.mod_pos_bound; lia).
  set (o := _oldest_item_idx s) in *. set (c := _capacity_items s) in *.
  clearbody o c.
  assert (Hd : (i - j) mod c = 0).
  { replace (i - j) with ((o + i) - (o + j)) by lia.
    rewrite Zminus_mod, Heq, Z.sub_diag. now apply Z.mod_0_l, Z.neq_sym, Z.lt_neq. }
  apply Z.mod_divide in Hd; [|lia]. destruct Hd as [q Hq].
  assert (q = 0) by nia. lia.
Qed.

Lemma slot_of_zero (s : LocalStorage Slots) :
  well_formed s -> slot_of s 0 = Z.to_nat (_oldest_item_idx s).
Proof.
  intros Hwf. unfold slot_of. rewrite Z.add_0_r.
  rewrite Z.mod_small; [done|apply Hwf].
Qed.

(** [InMemoryStorage.__delitem__] on a slot within the arrays. *)
Lemma wp_InMemoryStorage___delitem__ idx (w : World Slots) x h Q :
  0 <= idx ->
  _samples (self w) !! Z.to_nat idx = Some x ->
  _hit_count (self w) !! Z.to_nat idx = Some h ->
  Q (mkWorld
       (set_hit_count (<[Z.to_nat idx := 0]> (_hit_count (self w)))
          (set_evicted_hit_stats (push h (_evicted_hit_stats (self w)))
             (set_samples (<[Z.to_nat idx := None]> (_samples (self w)))
                (self w))))
       (logger w) (logged_once w)) (Ok x) ->
  wp (InMemoryStorage___delitem__ idx) w Q.
Proof.
  intros Hidx Hx Hh HQ. unfold InMemoryStorage___delitem__.
  apply lookup_lt_Some in Hx as Hlx. apply lookup_lt_Some in Hh as Hlh.
  wp_steps. rewrite (list_getitem_in_range _ _ x) by done.
  wp_steps. rewrite list_setitem_in_range by (unfold len_; lia).
  wp_steps. apply wp_push_hit_count. simpl.
  rewrite (list_getitem_in_range _ _ h) by done.
  wp_steps. apply wp_store_hit_count. simpl.
  rewrite list_setitem_in_range by (unfold len_; lia).
  now wp_steps.
Qed.

(** One turn of the loop of [add] on a well-formed storage that holds an
    item: the eviction of the oldest item, in full. *)
Lemma evict_oldest_in_memory (w : World Slots) :
  well_formed (self w) -> 0 < _num_items (self w) ->
  exists h item,
    _hit_count (self w) !! Z.to_nat (_oldest_item_idx (self w)) = Some h
    /\ _samples (self w) !! Z.to_nat (_oldest_item_idx (self w))
       = Some (Some item)
    /\ evict_oldest w
       = (mkWorld (evicted h item (self w)) (logger w) (logged_once w), Ok tt).
Proof.
  intros Hwf Hn.
  destruct (wf_occupied _ Hwf 0) as [item Hitem]; [lia|].
  rewrite slot_of_zero in Hitem by done.
  pose proof (wf_oldest _ Hwf) as Ho.
  destruct (lookup_in_range (_hit_count (self w)) (_oldest_item_idx (self w)))
    as [h Hh]; [rewrite (wf_hit_count _ Hwf); lia|].
  exists h, item. split; [done|]. split; [done|].
  apply wp_equation. unfold evict_oldest. wp_steps.
  apply Z.ltb_lt in Hn as Hnb. rewrite Hnb. wp_steps.
  apply wp_push_hit_count. simpl.
  rewrite (list_getitem_in_range _ _ h) by (done || lia).
  wp_steps. apply wp_store_hit_count. simpl.
  rewrite list_setitem_in_range by (rewrite (wf_hit_count _ Hwf); lia).
  wp_steps. in_memory.
  eapply (wp_InMemoryStorage___delitem__ _ _ (Some item) 0); simpl;
    [lia|done| |].
  { apply list_lookup_insert_eq. now apply lookup_lt_Some in Hh. }
  wp_steps. apply wp__get_internal_index. simpl. wp_steps. simpl.
  split; [|done]. unfold evicted. f_equal.
  rewrite Z.max_r by (pose proof (wf_capacity _ Hwf); lia).
  rewrite list_insert_insert_eq. reflexivity.
Qed.

Lemma well_formed_same_ring (s s' : LocalStorage Slots) :
  well_formed s ->
  _capacity_items s' = _capacity_items s ->
  _oldest_item_idx s' = _oldest_item_idx s ->
  _num_items s' = _num_items s ->
  _hit_count s' = _hit_count s ->
  _samples s' = _samples s ->
  well_formed s'.
Proof.
  intros [] Hc Ho Hn Hh Hs.
  split; unfold slot_of; rewrite ?Hc, ?Ho, ?Hn, ?Hh, ?Hs; auto.
Qed.

Lemma InMemoryStorage___init___well_formed capacity_items capacity_ts
    capacity_bytes s :
  InMemoryStorage___init__ capacity_items capacity_ts capacity_bytes = Ok s ->
  well_formed s /\ _num_items s = 0.
Proof.
  unfold InMemoryStorage___init__, LocalStorage___init__, np_zeros.
  destruct (0 <? capacity_items) eqn:Hcap; [|done].
  apply Z.ltb_lt in Hcap.
  destruct (capacity_positive capacity_ts); [|done].
  destruct (capacity_positive capacity_bytes); [|done]. simpl.
  destruct (capacity_items <? 0) eqn:Hneg; [done|].
  intros [= <-]. split; [|done].
  split; simpl; unfold len_; rewrite ?length_replicate; try lia.
Qed.

(** An eviction keeps the storage well-formed. *)
Lemma evicted_well_formed h item (s : LocalStorage Slots) :
  well_formed s -> 0 < _num_items s -> well_formed (evicted h item s).
Proof.
  intros Hwf Hn.
  pose proof (wf_capacity _ Hwf) as Hcap.
  pose proof (wf_oldest _ Hwf) as Ho.
  pose proof (wf_num_items _ Hwf) as Hni.
  split; simpl.
  - done.
  - now apply Z.mod_pos_bound.
  - lia.
  - unfold len_. rewrite length_insert. apply Hwf.
  - unfold len_. rewrite length_insert. apply Hwf.
  - intros i Hi.
    assert (Hshift : slot_of (evicted h item s) i = slot_of s (i + 1)).
    { unfold slot_of. simpl. rewrite Zplus_mod_idemp_l. f_equal. f_equal. lia. }
    rewrite Hshift.
    destruct (wf_occupied _ Hwf (i + 1)) as [x Hx]; [lia|].
    exists x. rewrite list_lookup_insert_ne; [done|].
    rewrite <- (slot_of_zero s Hwf). intros Heq.
    apply slot_of_inj in Heq; lia.
Qed.

Lemma evictions_only_refl s : evictions_only s s.
Proof. repeat split; auto; lia. Qed.

Lemma evictions_only_evicted h item s s' :
  evictions_only (evicted h item s) s' -> evictions_only s s'.
Proof.
  intros (Hts & Hci & Hcb & Hadd & Hest & Hn & Hs). simpl in *.
  repeat split; try done; try lia.
  intros p. destruct (Hs p) as [Hp|Hp]; [|now right].
  rewrite Hp.
  destruct (decide (Z.to_nat (_oldest_item_idx s) = p)) as [<-|Hne].
  - destruct (decide (Z.to_nat (_oldest_item_idx s) < length (_samples s))%nat).
    + right. now apply list_lookup_insert_eq.
    + left. rewrite list_insert_ge; [done|lia].
  - left. now apply list_lookup_insert_ne.
Qed.

(** The loop of [add] on a well-formed storage: it evicts and does nothing
    else, it keeps the storage well-formed, and it is left normally with a
    false condition or by the assertion on an empty storage. *)
Lemma drop_old_items_in_memory fuel (w : World Slots) :
  well_formed (self w) ->
  (Z.to_nat (_num_items (self w)) < fuel)%nat ->
  wp (drop_old_items fuel) w (fun w' r =>
    well_formed (self w')
    /\ evictions_only (self w) (self w')
    /\ logger w' = logger w /\ logged_once w' = logged_once w
    /\ (r = Ok tt /\ over_capacity (self w') = false
        \/ r = Raise AssertionError /\ _num_items (self w') = 0)).
Proof.
  revert w. induction fuel as [|fuel IH]; intros w Hwf Hfuel; [lia|].
  simpl. wp_steps.
  destruct (over_capacity (self w)) eqn:Hover.
  2: { wp_steps. split; [done|]. split; [apply evictions_only_refl|].
       do 2 (split; [done|]). now left. }
  destruct (decide (0 < _num_items (self w))) as [Hn|Hn].
  - destruct (evict_oldest_in_memory w Hwf Hn) as (h & item & Hh & Hitem & Hev).
    apply wp_bind. unfold wp at 1. rewrite Hev. simpl.
    eapply wp_wand; [apply IH; simpl; [now apply evicted_well_formed|lia]|].
    intros w' r (Hwf' & Hev' & Hlog & Honce & Hr). simpl in *.
    split; [done|]. split; [eauto using evictions_only_evicted|].
    do 2 (split; [done|]). done.
  - pose proof (wf_num_items _ Hwf).
    apply wp_bind. unfold evict_oldest. wp_steps.
    assert (Hz : (0 <? _num_items (self w)) = false) by (apply Z.ltb_ge; lia).
    rewrite Hz. split; [done|]. split; [apply evictions_only_refl|].
    do 2 (split; [done|]). right. split; [done|lia].
Qed.

(** [InMemoryStorage._set] on a slot of the list. *)
Lemma InMemoryStorage__set_spec avail idx item (w : World Slots) :
  0 <= idx < len_ (_samples (self w)) ->
  wp (InMemoryStorage__set avail idx item) w (fun w' r =>
    exists e records,
      logger w' = logger w ++ records /\ Forall estimated_usage records
      /\ (r = Ok tt
          /\ self w' = set_samples
                         (<[Z.to_nat idx := Some item]> (_samples (self w)))
                         (set_est_final_size e (self w))
          \/ (r = Raise ValueError \/ r = Raise ZeroDivisionError)
             /\ self w' = set_est_final_size e (self w)
             /\ records = [] /\ logged_once w' = logged_once w)).
Proof.
  intros Hidx. unfold InMemoryStorage__set. wp_steps.
  eapply wp_wand; [apply wp__warn_replay_capacity|].
  intros w1 r ([e He] & (records & Hlog & Hrec) & Hr & Hquiet).
  assert (Hraise : r <> Ok tt -> exists e0 records0,
            logger w1 = logger w ++ records0 /\ Forall estimated_usage records0
            /\ (r = Raise ValueError \/ r = Raise ZeroDivisionError)
            /\ self w1 = set_est_final_size e0 (self w)
            /\ records0 = [] /\ logged_once w1 = logged_once w).
  { intros Hne. destruct (Hquiet Hne) as [Hl Ho]. exists e, [].
    rewrite app_nil_r. split; [done|]. split; [constructor|].
    destruct Hr as [->|Hr]; done. }
  destruct Hr as [->|[->| ->]].
  - wp_steps. rewrite He. simpl.
    assert (Hne : (idx =? len_ (_samples (self w))) = false)
      by (apply Z.eqb_neq; lia).
    rewrite Hne. wp_steps. rewrite list_setitem_in_range by done.
    wp_steps. simpl. exists e, records. split; [done|]. split; [done|].
    left. split; [done|]. now rewrite He.
  - destruct Hraise as (e0 & r0 & ? & ? & ?); [done|]. eauto 10.
  - destruct Hraise as (e0 & r0 & ? & ? & ?); [done|]. eauto 10.
Qed.

(** The state after the new item went into the slot behind the newest. *)
Lemma inserted_well_formed item e (s : LocalStorage Slots) :
  well_formed s -> _num_items s < _capacity_items s ->
  well_formed
    (set_num_items (_num_items s + 1)
       (set_samples (<[slot_of s (_num_items s) := Some item]> (_samples s))
          (set_est_final_size e s))).
Proof.
  intros Hwf Hn.
  pose proof (wf_capacity _ Hwf) as Hcap.
  pose proof (wf_num_items _ Hwf) as Hni.
  split; simpl; try apply Hwf; try lia.
  - unfold len_. rewrite length_insert. apply Hwf.
  - intros i Hi. unfold slot_of at 1. simpl. fold (slot_of s i).
    destruct (decide (i = _num_items s)) as [->|Hne].
    + exists item. apply list_lookup_insert_eq.
      pose proof (wf_samples _ Hwf) as Hlen. unfold len_ in Hlen.
      pose proof (slot_of_bound s (_num_items s) Hcap). unfold slot_of. lia.
    + destruct (wf_occupied _ Hwf i) as [x Hx]; [lia|].
      exists x. rewrite list_lookup_insert_ne; [done|].
      intros Heq. apply slot_of_inj in Heq; lia.
Qed.

Lemma well_formed_set_est_final_size e (s : LocalStorage Slots) :
  well_formed s -> well_formed (set_est_final_size e s).
Proof. intros Hwf. now apply (well_formed_same_ring s). Qed.

(** [add] on a well-formed storage in memory, outcome by outcome.  An item
    that passes the size check is counted first; the evictions follow; the
    forecast runs last, right before the slot is written. *)
Lemma add_in_memory avail item (w : World Slots) :
  well_formed (self w) -> count item <= _capacity_items (self w) ->
  wp (add avail item) w (fun w' r =>
    well_formed (self w')
    /\ _num_timesteps_added (self w')
       = _num_timesteps_added (self w) + count item
    /\ _capacity_items (self w') = _capacity_items (self w)
    /\ (r = Ok tt
        /\ (exists n1, _num_items (self w') = n1 + 1 /\ n1 <= _num_items (self w)
              /\ _samples (self w') !! slot_of (self w') n1 = Some (Some item))
        \/ (r = Raise ValueError \/ r = Raise ZeroDivisionError)
           /\ over_capacity (self w') = false
           /\ _num_items (self w') <= _num_items (self w)
           /\ (forall p, _samples (self w') !! p = _samples (self w) !! p
                         \/ _samples (self w') !! p = Some None)
           /\ logger w' = logger w /\ logged_once w' = logged_once w
           /\ (exists w1 e,
                 drop_old_items (S (Z.to_nat (_num_items (self w))))
                   (counted item w) = (w1, Ok tt)
                 /\ self w' = set_est_final_size e (self w1))
        \/ r = Raise AssertionError /\ _num_items (self w') = 0)).
Proof.
  intros Hwf Hcount. unfold add. wp_steps.
  assert (Hsize : (_capacity_items (self w) <? count item) = false)
    by (apply Z.ltb_ge; lia).
  rewrite Hsize. wp_steps.
  eapply wp_wand_run.
  { apply drop_old_items_in_memory; simpl; [|lia].
    now apply (well_formed_same_ring (self w)). }
  intros w1 r Hrun (Hwf1 & Hev & Hlog1 & Honce1 & Hr).
  change (drop_old_items (S (Z.to_nat (_num_items (self w))))
            (counted item w) = (w1, r)) in Hrun.
  simpl in Hev, Hlog1, Honce1.
  destruct Hev as (Hts & Hci & Hcb & Hadd & Hest & Hn1 & Hs1). simpl in *.
  destruct Hr as [[-> Hover]|[-> Hzero]]; [|auto 10].
  pose proof (wf_capacity _ Hwf1) as Hcap1.
  pose proof (wf_num_items _ Hwf1) as Hni1.
  assert (Hroom : _num_items (self w1) < _capacity_items (self w1)).
  { unfold over_capacity in Hover. apply orb_false_iff in Hover as [_ Hover].
    now apply Z.leb_gt in Hover. }
  wp_steps. apply wp__get_internal_index.
  assert (Hnn : (_num_items (self w1) <? 0) = false) by (apply Z.ltb_ge; lia).
  rewrite Hnn. wp_steps. in_memory. rewrite Z.max_r by lia.
  pose proof (slot_of_bound (self w1) (_num_items (self w1)) Hcap1) as Hslot.
  eapply wp_wand.
  { apply InMemoryStorage__set_spec. now rewrite (wf_samples _ Hwf1). }
  intros w2 r (e & records & Hlog2 & Hrec & Hr).
  destruct Hr as [[-> Hself]|(Hr & Hself & -> & Honce2)].
  - wp_steps. rewrite Hself. simpl.
    assert (Hle : (_num_items (self w1) + 1 <=? _capacity_items (self w1)) = true)
      by (apply Z.leb_le; lia).
    rewrite Hle.
    pose proof (inserted_well_formed item e (self w1) Hwf1 Hroom) as Hwf2.
    split; [exact Hwf2|]. simpl. split; [done|]. split; [done|]. left.
    split; [done|]. exists (_num_items (self w1)).
    split; [done|]. split; [done|].
    unfold slot_of at 1. simpl. apply list_lookup_insert_eq.
    pose proof (wf_samples _ Hwf1) as Hlen. unfold len_ in Hlen. lia.
  - assert (Hpost : well_formed (self w2)
        /\ _num_timesteps_added (self w2)
           = _num_timesteps_added (self w) + count item
        /\ _capacity_items (self w2) = _capacity_items (self w)
        /\ over_capacity (self w2) = false
        /\ _num_items (self w2) <= _num_items (self w)
        /\ (forall p, _samples (self w2) !! p = _samples (self w) !! p
                      \/ _samples (self w2) !! p = Some None)
        /\ logger w2 = logger w /\ logged_once w2 = logged_once w
        /\ (exists w1 e,
              drop_old_items (S (Z.to_nat (_num_items (self w))))
                (counted item w) = (w1, Ok tt)
              /\ self w2 = set_est_final_size e (self w1))).
    { rewrite Hself, Hlog2, Honce2, app_nil_r. simpl.
      split; [now apply well_formed_set_est_final_size|].
      do 7 (split; [done|]). eauto. }
    destruct Hpost as (? & ? & ? & ?).
    destruct Hr as [-> | ->]; auto 10.
Qed.

(** [add] keeps a storage in memory well-formed, whatever its outcome. *)
Lemma add_well_formed avail item (w : World Slots) :
  well_formed (self w) -> well_formed (self (add avail item w).1).
Proof.
  intros Hwf.
  destruct (decide (count item <= _capacity_items (self w))) as [Hc|Hc].
  - now destruct (add_in_memory avail item w Hwf Hc).
  - unfold add, bind, attr. simpl.
    assert (Hsize : (_capacity_items (self w) <? count item) = true)
      by (apply Z.ltb_lt; lia).
    now rewrite Hsize.
Qed.

Lemma after_adds_well_formed calls (w : World Slots) :
  well_formed (self w) -> well_formed (self (after_adds calls w)).
Proof.
  revert w. induction calls as [|[avail item] calls IH]; intros w Hwf; [done|].
  simpl. apply IH. now apply add_well_formed.
Qed.

Lemma empty_storage_constructed :
  InMemoryStorage___init__ 3 (Finite 4) math_inf = Ok empty_storage.
Proof. reflexivity. Qed.

Lemma empty_storage_well_formed : well_formed empty_storage.
Proof.
  now destruct (InMemoryStorage___init___well_formed _ _ _ _
                  empty_storage_constructed).
Qed.

Lemma storage_AB_well_formed : well_formed (self storage_AB).
Proof. apply after_adds_well_formed, empty_storage_well_formed. Qed.

Lemma storage_ABC_well_formed : well_formed (self storage_ABC).
Proof. apply after_adds_well_formed, storage_AB_well_formed. Qed.

Lemma storage_BFC_well_formed : well_formed (self storage_BFC).
Proof. apply after_adds_well_formed, empty_storage_well_formed. Qed.

(** An item of more timesteps than [capacity_items] is logged and dropped. *)
Lemma add_oversized {B} `{Backend B} avail item (w : World B) :
  _capacity_items (self w) < count item ->
  add avail item w
  = (mkWorld (self w)
       (logger w ++ [warning_batch_not_added (count item)
                       (_capacity_items (self w))])
       (logged_once w), Ok tt).
Proof.
  intros Hsize. apply Z.ltb_lt in Hsize.
  unfold add, bind, attr. simpl. now rewrite Hsize.
Qed.

Lemma slot_of_in_range (s : LocalStorage Slots) i :
  well_formed s ->
  (slot_of s i < length (_hit_count s))%nat
  /\ (slot_of s i < length (_samples s))%nat.
Proof.
  intros Hwf. pose proof (slot_of_bound s i (wf_capacity _ Hwf)) as Hb.
  pose proof (wf_hit_count _ Hwf) as Hh. pose proof (wf_samples _ Hwf) as Hs.
  unfold slot_of, len_ in *. lia.
Qed.


(** ** The contents of the ring in logical order *)

Lemma logical_length s : length (logical s) = Z.to_nat (_num_items s).
Proof. unfold logical. now rewrite length_fmap, length_seq. Qed.

Lemma logical_lookup s (k : nat) :
  (k < Z.to_nat (_num_items s))%nat ->
  logical s !! k = Some (held s (Z.of_nat k)).
Proof.
  intros Hk. unfold logical. rewrite list_lookup_fmap.
  now rewrite lookup_seq_lt.
Qed.

Lemma logical_ext s (l : list (option SampleBatch)) :
  length l = Z.to_nat (_num_items s) ->
  (forall k : nat, (k < Z.to_nat (_num_items s))%nat ->
     l !! k = Some (held s (Z.of_nat k))) ->
  logical s = l.
Proof.
  intros Hlen Hl. apply list_eq. intros k.
  destruct (decide (k < Z.to_nat (_num_items s))%nat) as [Hk|Hk].
  - now rewrite logical_lookup, Hl.
  - rewrite !lookup_ge_None_2; [done| |]; rewrite ?logical_length; lia.
Qed.

Lemma held_occupied s i :
  well_formed s -> 0 <= i < _num_items s -> exists item, held s i = Some item.
Proof.
  intros Hwf Hi. destruct (wf_occupied _ Hwf i Hi) as [item Hitem].
  exists item. unfold held. now rewrite Hitem.
Qed.

Lemma timesteps_of_app l1 l2 :
  timesteps_of (l1 ++ l2) = timesteps_of l1 + timesteps_of l2.
Proof. induction l1 as [|x l1 IH]; simpl; [done|]. rewrite IH. lia. Qed.

Lemma bytes_of_app l1 l2 : bytes_of (l1 ++ l2) = bytes_of l1 + bytes_of l2.
Proof. induction l1 as [|x l1 IH]; simpl; [done|]. rewrite IH. lia. Qed.

Lemma timesteps_of_take_drop k l :
  timesteps_of l = timesteps_of (take k l) + timesteps_of (drop k l).
Proof. now rewrite <- timesteps_of_app, take_drop. Qed.

Lemma bytes_of_take_drop k l :
  bytes_of l = bytes_of (take k l) + bytes_of (drop k l).
Proof. now rewrite <- bytes_of_app, take_drop. Qed.

(** The oldest item leads the logical order, and evicting it leaves the
    rest of the order as it was. *)
Lemma logical_oldest item s :
  well_formed s -> 0 < _num_items s ->
  _samples s !! Z.to_nat (_oldest_item_idx s) = Some (Some item) ->
  logical s = Some item :: drop 1 (logical s).
Proof.
  intros Hwf Hn Hitem.
  assert (Hhead : logical s !! 0%nat = Some (Some item)).
  { rewrite logical_lookup by lia. f_equal. unfold held.
    change (Z.of_nat 0) with 0. now rewrite slot_of_zero, Hitem. }
  destruct (logical s) as [|x l]; [done|].
  simpl in Hhead. injection Hhead as ->. reflexivity.
Qed.

Lemma logical_evicted h item s :
  well_formed s -> 0 < _num_items s ->
  logical (evicted h item s) = drop 1 (logical s).
Proof.
  intros Hwf Hn.
  pose proof (wf_capacity _ Hwf) as Hcap.
  pose proof (wf_num_items _ Hwf) as Hni.
  apply logical_ext.
  - rewrite length_drop, logical_length. simpl. lia.
  - intros k Hk. simpl in Hk.
    rewrite lookup_drop, logical_lookup by lia. f_equal.
    unfold held.
    assert (Hshift : slot_of (evicted h item s) (Z.of_nat k)
                     = slot_of s (Z.of_nat (1 + k))).
    { unfold slot_of. simpl. rewrite Zplus_mod_idemp_l. do 2 f_equal. lia. }
    rewrite Hshift. simpl. rewrite list_lookup_insert_ne; [done|].
    rewrite <- (slot_of_zero s Hwf). intros Heq.
    apply slot_of_inj in Heq; lia.
Qed.

Lemma logical_inserted item e s :
  well_formed s -> _num_items s < _capacity_items s ->
  logical
    (set_num_items (_num_items s + 1)
       (set_samples (<[slot_of s (_num_items s) := Some item]> (_samples s))
          (set_est_final_size e s)))
  = logical s ++ [Some item].
Proof.
  intros Hwf Hn.
  pose proof (wf_capacity _ Hwf) as Hcap.
  pose proof (wf_num_items _ Hwf) as Hni.
  apply logical_ext.
  - rewrite length_app, logical_length. simpl. lia.
  - intros k Hk. simpl in Hk. unfold held, slot_of at 1. simpl.
    fold (slot_of s (Z.of_nat k)).
    destruct (decide (Z.of_nat k = _num_items s)) as [Heq|Hne].
    + rewrite lookup_app_r by (rewrite logical_length; lia).
      rewrite logical_length.
      replace (k - Z.to_nat (_num_items s))%nat with 0%nat by lia.
      rewrite Heq, list_lookup_insert_eq; [done|].
      apply (slot_of_in_range s (_num_items s) Hwf).
    + rewrite lookup_app_l by (rewrite logical_length; lia).
      rewrite logical_lookup by lia. f_equal. unfold held.
      rewrite list_lookup_insert_ne; [done|].
      intros Heq. apply slot_of_inj in Heq; lia.
Qed.

(** Storages that differ in what the ring does not look at have the same
    logical order. *)
Lemma logical_same_ring (s s' : LocalStorage Slots) :
  _capacity_items s' = _capacity_items s ->
  _oldest_item_idx s' = _oldest_item_idx s ->
  _num_items s' = _num_items s ->
  _samples s' = _samples s ->
  logical s' = logical s.
Proof.
  intros Hc Ho Hn Hs. unfold logical, held, slot_of.
  now rewrite Hc, Ho, Hn, Hs.
Qed.

(** ** The evictions of [add], item by item *)

Lemma evicted_first_refl s : evicted_first 0 s s.
Proof.
  unfold evicted_first. simpl. rewrite drop_0, orb_false_r.
  repeat split; lia.
Qed.

Lemma evicted_first_step k h item s s' :
  well_formed s -> 0 < _num_items s ->
  _samples s !! Z.to_nat (_oldest_item_idx s) = Some (Some item) ->
  evicted_first k (evicted h item s) s' ->
  evicted_first (S k) s s'.
Proof.
  intros Hwf Hn Hitem
    (Hk & Hts & Hci & Hcb & Hadd & Hest & Hn' & Hl & Hnts & Hsz & Hst).
  simpl in *. rewrite (logical_evicted h item s Hwf Hn) in *.
  pose proof (logical_oldest item s Hwf Hn Hitem) as Hhead.
  assert (Htake : take (S k) (logical s)
                  = Some item :: take k (drop 1 (logical s))).
  { rewrite Hhead at 1. reflexivity. }
  unfold evicted_first. rewrite Htake. simpl.
  rewrite drop_drop in Hl.
  split; [lia|]. do 5 (split; [done|]). split; [lia|].
  split; [exact Hl|]. split; [lia|]. split; [lia|].
  rewrite Hst. now rewrite orb_true_r.
Qed.

(** The loop of [add] on a well-formed storage in memory evicts the oldest
    items, one after the other, and nothing else; it keeps every property
    [P] of the storage that an eviction keeps. *)
Lemma drop_old_items_fifo_with (P : LocalStorage Slots -> Prop) fuel
    (w : World Slots) :
  (forall h item s,
     well_formed s -> 0 < _num_items s ->
     _hit_count s !! Z.to_nat (_oldest_item_idx s) = Some h ->
     _samples s !! Z.to_nat (_oldest_item_idx s) = Some (Some item) ->
     P s -> P (evicted h item s)) ->
  well_formed (self w) -> P (self w) ->
  (Z.to_nat (_num_items (self w)) < fuel)%nat ->
  wp (drop_old_items fuel) w (fun w' r =>
    exists k,
      evicted_first k (self w) (self w')
      /\ well_formed (self w') /\ P (self w')
      /\ logger w' = logger w /\ logged_once w' = logged_once w
      /\ (r = Ok tt /\ over_capacity (self w') = false
          \/ r = Raise AssertionError /\ _num_items (self w') = 0
             /\ over_capacity (self w') = true)).
Proof.
  intros HP.
  revert w. induction fuel as [|fuel IH]; intros w Hwf HPw Hfuel; [lia|].
  simpl. wp_steps.
  destruct (over_capacity (self w)) eqn:Hover.
  2: { wp_steps. exists 0%nat. split; [apply evicted_first_refl|].
       do 4 (split; [done|]). now left. }
  destruct (decide (0 < _num_items (self w))) as [Hn|Hn].
  - destruct (evict_oldest_in_memory w Hwf Hn) as (h & item & Hh & Hitem & Hev).
    apply wp_bind. unfold wp at 1. rewrite Hev. simpl.
    eapply wp_wand;
      [apply IH; simpl; [now apply evicted_well_formed|now apply HP|lia]|].
    intros w' r (k & Hk & Hwf' & HP' & Hlog & Honce & Hr). simpl in *.
    exists (S k). split; [eauto using evicted_first_step|].
    do 4 (split; [done|]). done.
  - pose proof (wf_num_items _ Hwf).
    apply wp_bind. unfold evict_oldest. wp_steps.
    assert (Hz : (0 <? _num_items (self w)) = false) by (apply Z.ltb_ge; lia).
    rewrite Hz. exists 0%nat. split; [apply evicted_first_refl|].
    do 4 (split; [done|]). right. repeat split; [lia|done].
Qed.

Lemma drop_old_items_fifo fuel (w : World Slots) :
  well_formed (self w) ->
  (Z.to_nat (_num_items (self w)) < fuel)%nat ->
  wp (drop_old_items fuel) w (fun w' r =>
    exists k,
      evicted_first k (self w) (self w')
      /\ well_formed (self w')
      /\ logger w' = logger w /\ logged_once w' = logged_once w
      /\ (r = Ok tt /\ over_capacity (self w') = false
          \/ r = Raise AssertionError /\ _num_items (self w') = 0
             /\ over_capacity (self w') = true)).
Proof.
  intros Hwf Hfuel.
  eapply wp_wand;
    [apply (drop_old_items_fifo_with (fun _ => True)); auto|].
  intros w' r (k & Hk & Hwf' & _ & Hrest). eauto.
Qed.

(** ** What [add] does to the contents *)

(** [add] of an item that passes the size check, on a well-formed storage
    in memory: the item is counted, the [k] oldest items are evicted, and
    then the item is stored, or the forecast of the write raises, or the
    assertion of the loop stopped the call on an emptied storage.  The
    state [s1] after the evictions has every property [P] of the storage
    that an eviction keeps. *)
Lemma add_outcome_with (P : LocalStorage Slots -> Prop) avail item
    (w : World Slots) :
  (forall h item s,
     well_formed s -> 0 < _num_items s ->
     _hit_count s !! Z.to_nat (_oldest_item_idx s) = Some h ->
     _samples s !! Z.to_nat (_oldest_item_idx s) = Some (Some item) ->
     P s -> P (evicted h item s)) ->
  well_formed (self w) -> count item <= _capacity_items (self w) ->
  P (self (counted item w)) ->
  wp (add avail item) w (fun w' r =>
    exists k s1,
      evicted_first k (self (counted item w)) s1
      /\ well_formed s1 /\ P s1
      /\ (r = Ok tt /\ over_capacity s1 = false
          /\ (exists e,
                self w'
                = set_num_items (_num_items s1 + 1)
                    (set_samples
                       (<[slot_of s1 (_num_items s1) := Some item]>
                          (_samples s1))
                       (set_est_final_size e s1)))
          \/ (r = Raise ValueError \/ r = Raise ZeroDivisionError)
             /\ over_capacity s1 = false
             /\ (exists e, self w' = set_est_final_size e s1)
          \/ r = Raise AssertionError /\ _num_items s1 = 0
             /\ over_capacity s1 = true /\ self w' = s1
             /\ logger w' = logger w)).
Proof.
  intros HP Hwf Hcount HPw. unfold add. wp_steps.
  assert (Hsize : (_capacity_items (self w) <? count item) = false)
    by (apply Z.ltb_ge; lia).
  rewrite Hsize. wp_steps.
  eapply wp_wand.
  { apply (drop_old_items_fifo_with P); simpl; [done| |done|lia].
    now apply (well_formed_same_ring (self w)). }
  intros w1 r (k & Hk & Hwf1 & HP1 & Hlog1 & Honce1 & Hr).
  change (evicted_first k (self (counted item w)) (self w1)) in Hk.
  destruct Hr as [[-> Hover]|(-> & Hzero & Hover)].
  2: { exists k, (self w1). simpl in Hlog1. auto 12. }
  pose proof (wf_capacity _ Hwf1) as Hcap1.
  pose proof (wf_num_items _ Hwf1) as Hni1.
  assert (Hroom : _num_items (self w1) < _capacity_items (self w1)).
  { unfold over_capacity in Hover. apply orb_false_iff in Hover as [_ Hover].
    now apply Z.leb_gt in Hover. }
  wp_steps. apply wp__get_internal_index.
  assert (Hnn : (_num_items (self w1) <? 0) = false) by (apply Z.ltb_ge; lia).
  rewrite Hnn. wp_steps. in_memory. rewrite Z.max_r by lia.
  pose proof (slot_of_bound (self w1) (_num_items (self w1)) Hcap1) as Hslot.
  eapply wp_wand.
  { apply InMemoryStorage__set_spec. now rewrite (wf_samples _ Hwf1). }
  intros w2 r (e & records & Hlog2 & Hrec & Hr).
  destruct Hr as [[-> Hself]|(Hr & Hself & -> & Honce2)].
  - wp_steps. rewrite Hself. simpl.
    assert (Hle : (_num_items (self w1) + 1 <=? _capacity_items (self w1)) = true)
      by (apply Z.leb_le; lia).
    rewrite Hle. exists k, (self w1). split; [done|]. split; [done|].
    split; [done|]. left. split; [done|]. split; [done|]. now exists e.
  - assert (Hpost : exists k0 s1,
        evicted_first k0 (self (counted item w)) s1 /\ well_formed s1
        /\ P s1 /\ over_capacity s1 = false
        /\ exists e0, self w2 = set_est_final_size e0 s1).
    { exists k, (self w1). eauto 10. }
    destruct Hpost as (k0 & s1 & ? & ? & ? & ? & ?).
    destruct Hr as [-> | ->]; exists k0, s1; auto 12.
Qed.

Lemma add_outcome avail item (w : World Slots) :
  well_formed (self w) -> count item <= _capacity_items (self w) ->
  wp (add avail item) w (fun w' r =>
    exists k s1,
      evicted_first k (self (counted item w)) s1
      /\ well_formed s1
      /\ (r = Ok tt /\ over_capacity s1 = false
          /\ (exists e,
                self w'
                = set_num_items (_num_items s1 + 1)
                    (set_samples
                       (<[slot_of s1 (_num_items s1) := Some item]>
                          (_samples s1))
                       (set_est_final_size e s1)))
          \/ (r = Raise ValueError \/ r = Raise ZeroDivisionError)
             /\ over_capacity s1 = false
             /\ (exists e, self w' = set_est_final_size e s1)
          \/ r = Raise AssertionError /\ _num_items s1 = 0
             /\ over_capacity s1 = true /\ self w' = s1
             /\ logger w' = logger w)).
Proof.
  intros Hwf Hcount.
  eapply wp_wand;
    [apply (add_outcome_with (fun _ => True)); auto|].
  intros w' r (k & s1 & Hk & Hwf1 & _ & Hrest). eauto.
Qed.

Lemma logical_counted item (w : World Slots) :
  logical (self (counted item w)) = logical (self w).
Proof. now apply logical_same_ring. Qed.

(** What a call of [add] that stores its item does to the logical order
    and to the counters. *)
Lemma add_stored avail item (w : World Slots) :
  well_formed (self w) -> count item <= _capacity_items (self w) ->
  (add avail item w).2 = Ok tt ->
  let s := self w in
  let s' := self (add avail item w).1 in
  exists k : nat,
    (k <= length (logical s))%nat
    /\ logical s' = drop k (logical s) ++ [Some item]
    /\ _num_items s' = _num_items s - Z.of_nat k + 1
    /\ _num_timesteps s'
       = _num_timesteps s - timesteps_of (take k (logical s)) + count item
    /\ _size_bytes s'
       = _size_bytes s - bytes_of (take k (logical s)) + size_bytes item
    /\ _eviction_started s' = _eviction_started s || bool_decide (0 < k)%nat
    /\ well_formed s'.
Proof.
  intros Hwf Hcount Hok s s'.
  destruct (add_outcome avail item w Hwf Hcount) as (k & s1 & Hk & Hwf1 & Hr).
  fold s' in Hr. rewrite Hok in Hr.
  destruct Hr as [(_ & Hover & e & Hs')|[([?|?] & _)|(? & _)]]; try discriminate.
  destruct Hk as (Hkn & Hts & Hci & Hcb & Hadd & Hest & Hn1 & Hl & Hnts & Hsz
                  & Hst).
  rewrite logical_counted in *. simpl in *. fold s in Hkn, Hn1, Hl, Hnts, Hsz, Hst.
  assert (Hroom : _num_items s1 < _capacity_items s1).
  { unfold over_capacity in Hover. apply orb_false_iff in Hover as [_ Hover].
    now apply Z.leb_gt in Hover. }
  exists k. rewrite logical_length. split; [done|].
  rewrite Hs'.
  split; [now rewrite logical_inserted, Hl|]. simpl.
  split; [lia|]. split; [lia|]. split; [lia|]. split; [done|].
  now apply inserted_well_formed.
Qed.


(** ** What [add] does to the shelf of the storage on disk *)

Lemma wp_conj {St A} (m : M St A) s (Q1 Q2 : St -> res A -> Prop) :
  wp m s Q1 -> wp m s Q2 -> wp m s (fun s' r => Q1 s' r /\ Q2 s' r).
Proof. unfold wp. auto. Qed.

Ltac on_disk :=
  change (@__delitem__ _ OnDiskStorage) with OnDiskStorage___delitem__;
  change (@_set _ OnDiskStorage) with OnDiskStorage__set;
  change (@_get _ OnDiskStorage) with OnDiskStorage__get.

Lemma mod_offset_inj o c i j :
  0 < c -> 0 <= i < c -> 0 <= j < c ->
  (o + i) mod c = (o + j) mod c -> i = j.
Proof.
  intros Hc Hi Hj Heq.
  assert (Hd : (i - j) mod c = 0).
  { replace (i - j) with ((o + i) - (o + j)) by lia.
    rewrite Zminus_mod, Heq, Z.sub_diag. now apply Z.mod_0_l, Z.neq_sym, Z.lt_neq. }
  apply Z.mod_divide in Hd; [|lia]. destruct Hd as [q Hq].
  assert (q = 0) by nia. lia.
Qed.

Lemma on_shelf_length s : length (on_shelf s) = Z.to_nat (_num_items s).
Proof. unfold on_shelf. now rewrite length_fmap, length_seq. Qed.

Lemma on_shelf_lookup s (k : nat) :
  (k < Z.to_nat (_num_items s))%nat ->
  on_shelf s !! k
  = Some (_samples s
            !! pretty ((_oldest_item_idx s + Z.of_nat k)
                       mod _capacity_items s)).
Proof.
  intros Hk. unfold on_shelf. rewrite list_lookup_fmap.
  now rewrite lookup_seq_lt.
Qed.

(** [__delitem__] on disk returns the item of the shelf and leaves the
    shelf and the ring as they are. *)
Lemma OnDiskStorage___delitem___ring idx (w : World Shelf) :
  wp (OnDiskStorage___delitem__ idx) w (fun w' r =>
    r <> OutOfFuel
    /\ _samples (self w') = _samples (self w)
    /\ _capacity_items (self w') = _capacity_items (self w)
    /\ _oldest_item_idx (self w') = _oldest_item_idx (self w)
    /\ _num_items (self w') = _num_items (self w)
    /\ (forall d, r = Ok d -> d = _samples (self w) !! pretty idx)).
Proof.
  unfold OnDiskStorage___delitem__. wp_steps. unfold shelf_getitem.
  destruct (_samples (self w) !! pretty idx) as [x|] eqn:Hx;
    [|repeat split; done].
  wp_steps. apply wp_push_hit_count.
  pose proof (list_getitem_returns (_hit_count (self w)) idx).
  destruct (list_getitem _ _); simpl; try (repeat split; done).
  wp_steps. apply wp_store_hit_count. simpl.
  pose proof (list_setitem_returns (_hit_count (self w)) idx 0).
  destruct (list_setitem _ _ _); simpl; try (repeat split; done).
  wp_steps. simpl. repeat split; try done. now intros d [= <-].
Qed.

(** One eviction on disk: the ring moves on by one slot, the shelf stays. *)
Lemma evict_oldest_on_disk (w : World Shelf) :
  wp evict_oldest w (fun w' r =>
    r = Ok tt ->
    0 < _num_items (self w)
    /\ _num_items (self w') = _num_items (self w) - 1
    /\ _oldest_item_idx (self w')
       = (_oldest_item_idx (self w) + 1)
         mod Z.max 1 (_capacity_items (self w))
    /\ _capacity_items (self w') = _capacity_items (self w)
    /\ _samples (self w') = _samples (self w)).
Proof.
  unfold evict_oldest. wp_steps.
  destruct (Z.ltb_spec 0 (_num_items (self w))) as [Hn|]; [|done]. wp_steps.
  apply wp_push_hit_count.
  destruct (list_getitem _ _); try done. simpl.
  wp_steps. apply wp_store_hit_count. simpl.
  destruct (list_setitem _ _ _); try done.
  wp_steps. on_disk.
  eapply wp_wand; [apply OnDiskStorage___delitem___ring|].
  intros w1 r (_ & Hshelf & Hcap & Ho & Hn1 & _). simpl in *.
  destruct r as [d| |]; try done.
  wp_steps. destruct d; [|done].
  wp_steps. apply wp__get_internal_index. simpl. wp_steps. simpl.
  intros _. rewrite Hcap, Ho, Hn1. auto.
Qed.

(** The loop of [add] on disk evicts the [k] oldest items, for some [k]. *)
Lemma drop_old_items_on_disk fuel (w : World Shelf) :
  0 < _capacity_items (self w) ->
  0 <= _oldest_item_idx (self w) < _capacity_items (self w) ->
  0 <= _num_items (self w) ->
  wp (drop_old_items fuel) w (fun w' r =>
    r = Ok tt ->
    exists k : nat,
      Z.of_nat k <= _num_items (self w)
      /\ _num_items (self w') = _num_items (self w) - Z.of_nat k
      /\ _oldest_item_idx (self w')
         = (_oldest_item_idx (self w) + Z.of_nat k)
           mod _capacity_items (self w)
      /\ _capacity_items (self w') = _capacity_items (self w)
      /\ _samples (self w') = _samples (self w)
      /\ over_capacity (self w') = false).
Proof.
  revert w. induction fuel as [|fuel IH]; intros w Hcap Hold Hn; simpl;
    wp_steps; destruct (over_capacity (self w)) eqn:Hover; wp_steps;
    try done.
  1,3: intros _; exists 0%nat; rewrite Z.add_0_r, Z.mod_small by lia;
       repeat split; try done; lia.
  eapply wp_wand; [apply evict_oldest_on_disk|].
  intros w1 r Hev. destruct r as [[]|e|]; try done.
  destruct (Hev eq_refl) as (Hpos & Hn1 & Ho1 & Hcap1 & Hshelf1).
  rewrite Z.max_r in Ho1 by lia.
  eapply wp_wand.
  { apply IH; rewrite ?Hcap1, ?Ho1, ?Hn1; [done| |lia].
    apply Z.mod_pos_bound. lia. }
  intros w2 r Hrest Hr.
  destruct (Hrest Hr) as (k & Hk & Hn2 & Ho2 & Hcap2 & Hshelf2 & Hover2).
  exists (S k). rewrite Hn2, Ho2, Hcap2, Hshelf2, Hcap1, Ho1, Hn1, Hshelf1.
  split; [lia|]. split; [lia|]. split; [|done].
  rewrite Zplus_mod_idemp_l. f_equal. lia.
Qed.

(** [add] on disk, when it stores its item: the [k] oldest items leave the
    logical order, the new item joins it at the end. *)
Lemma add_on_disk_fifo avail item (w : World Shelf) :
  0 < _capacity_items (self w) ->
  0 <= _oldest_item_idx (self w) < _capacity_items (self w) ->
  0 <= _num_items (self w) ->
  count item <= _capacity_items (self w) ->
  (add avail item w).2 = Ok tt ->
  exists k : nat,
    evictions_during w (add avail item w).1 = Z.of_nat k
    /\ on_shelf (self (add avail item w).1)
       = drop k (on_shelf (self w)) ++ [Some item].
Proof.
  intros Hcap Hold Hn Hcount Hok.
  assert (Hadd : wp (add avail item) w (fun w' r =>
            r = Ok tt ->
            exists k : nat,
              Z.of_nat k <= _num_items (self w)
              /\ _num_items (self w') = _num_items (self w) - Z.of_nat k + 1
              /\ _num_items (self w) - Z.of_nat k < _capacity_items (self w)
              /\ _oldest_item_idx (self w')
                 = (_oldest_item_idx (self w) + Z.of_nat k)
                   mod _capacity_items (self w)
              /\ _capacity_items (self w') = _capacity_items (self w)
              /\ _samples (self w')
                 = <[pretty ((_oldest_item_idx (self w')
                              + (_num_items (self w) - Z.of_nat k))
                             mod _capacity_items (self w)) := item]>
                     (_samples (self w)))).
  { unfold add. wp_steps.
    assert (Hsize : (_capacity_items (self w) <? count item) = false)
      by (apply Z.ltb_ge; lia).
    rewrite Hsize. wp_steps.
    eapply wp_wand; [now apply drop_old_items_on_disk|].
    intros w1 r Hloop. simpl in Hloop.
    destruct r as [[]|e|]; [|done..].
    destruct (Hloop eq_refl) as (k & Hk & Hn1 & Ho1 & Hcap1 & Hshelf1 & Hover).
    unfold over_capacity in Hover. apply orb_false_iff in Hover as [_ Hover].
    apply Z.leb_gt in Hover.
    wp_steps. apply wp__get_internal_index.
    destruct (Z.ltb_spec (_num_items (self w1)) 0) as [|_]; [done|].
    wp_steps. on_disk. unfold OnDiskStorage__set.
    destruct (count item =? 0); wp_steps; [done|].
    eapply wp_wand; [apply wp__warn_replay_capacity|].
    intros w2 r ([e He] & _ & Hr2 & _).
    destruct Hr2 as [->|[->| ->]]; [|done..].
    wp_steps. rewrite He. simpl.
    destruct (_ <=? _); [|done]. intros _.
    exists k. rewrite Hn1, Ho1, Hcap1, Hshelf1, Z.max_r by lia.
    repeat split; try done; lia. }
  unfold wp in Hadd.
  destruct (Hadd Hok) as (k & Hk & Hn' & Hroom & Ho' & Hcap' & Hshelf').
  set (s := self w) in *. set (s' := self (add avail item w).1) in *.
  exists k. split; [unfold evictions_during; fold s s'; lia|].
  apply list_eq. intros j.
  destruct (decide (j < Z.to_nat (_num_items s'))%nat) as [Hj|Hj].
  2: { rewrite !lookup_ge_None_2; [done| |];
         rewrite ?length_app, ?length_drop, ?on_shelf_length; simpl; lia. }
  rewrite on_shelf_lookup by done. rewrite Hshelf', Hcap'.
  destruct (decide (Z.of_nat j = _num_items s - Z.of_nat k)) as [Hlast|Hne].
  - rewrite lookup_app_r by (rewrite length_drop, on_shelf_length; lia).
    rewrite length_drop, on_shelf_length.
    replace (j - (Z.to_nat (_num_items s) - k))%nat with 0%nat by lia.
    rewrite Hlast. simpl. now rewrite lookup_insert_eq.
  - rewrite lookup_app_l by (rewrite length_drop, on_shelf_length; lia).
    rewrite lookup_drop, on_shelf_lookup by lia.
    rewrite lookup_insert_ne.
    + rewrite Ho', Zplus_mod_idemp_l.
      replace (Z.of_nat (k + j)) with (Z.of_nat k + Z.of_nat j) by lia.
      now rewrite Z.add_assoc.
    + intros Heq. apply pretty_Z_inj in Heq.
      apply mod_offset_inj in Heq; lia.
Qed.
(** ** The claims about [add] *)

(** Claim C1.  For every lawful backend and every series of calls of [add],
    whatever their outcomes, the storage holds at most [capacity_items]
    items after the series (hence after every call of it), from any state
    that holds at most [capacity_items] items and so from every newly
    constructed storage; a call that stores its item leaves the storage
    within all three capacity bounds.  The items a call evicts are the
    logically oldest ones: in memory, from every well-formed state (every
    state that calls of [add] reach from a new storage is well-formed), and
    on disk, a call that stores its item and evicts [k] items turns the
    contents, read in logical order, into [drop k contents ++ [item]].  And
    one call may evict no item, one item or several items: on the sample
    storage of capacity 3 items and 4 timesteps, [add(A)] on the empty
    storage evicts nothing, [add(D)] on the storage holding A, B, C evicts
    A and leaves B, C, D, and [add(E)], an item of three timesteps, evicts A
    and B and leaves C, E. *)
Theorem add_keeps_within_capacity :
  (forall (B : Type) (HB : Backend B) (HL : BackendLaws B) (w : World B)
          (calls : list (Z * SampleBatch)),
      _num_items (self w) <= _capacity_items (self w) ->
      _num_items (self (after_adds calls w))
      <= _capacity_items (self (after_adds calls w)))
  /\ (forall capacity_items capacity_ts capacity_bytes s
             (calls : list (Z * SampleBatch)),
        InMemoryStorage___init__ capacity_items capacity_ts capacity_bytes
        = Ok s ->
        _num_items (self (after_adds calls (fresh s)))
        <= _capacity_items (self (after_adds calls (fresh s))))
  /\ (forall (B : Type) (HB : Backend B) (HL : BackendLaws B) (w : World B)
             avail item,
        count item <= _capacity_items (self w) ->
        (add avail item w).2 = Ok tt ->
        within_capacities (self (add avail item w).1))
  /\ (forall capacity_items capacity_ts capacity_bytes s
             (calls : list (Z * SampleBatch)),
        InMemoryStorage___init__ capacity_items capacity_ts capacity_bytes
        = Ok s ->
        well_formed (self (after_adds calls (fresh s))))
  /\ (forall (w : World Slots) avail item,
        well_formed (self w) ->
        count item <= _capacity_items (self w) ->
        (add avail item w).2 = Ok tt ->
        exists k : nat,
          evictions_during w (add avail item w).1 = Z.of_nat k
          /\ logical (self (add avail item w).1)
             = drop k (logical (self w)) ++ [Some item])
  /\ (forall (w : World Shelf) avail item,
        0 < _capacity_items (self w) ->
        0 <= _oldest_item_idx (self w) < _capacity_items (self w) ->
        0 <= _num_items (self w) ->
        count item <= _capacity_items (self w) ->
        (add avail item w).2 = Ok tt ->
        exists k : nat,
          evictions_during w (add avail item w).1 = Z.of_nat k
          /\ on_shelf (self (add avail item w).1)
             = drop k (on_shelf (self w)) ++ [Some item])
  /\ ((add plenty batch_A (fresh empty_storage)).2 = Ok tt
      /\ evictions_during (fresh empty_storage)
           (add plenty batch_A (fresh empty_storage)).1 = 0
      /\ logical (self (add plenty batch_A (fresh empty_storage)).1)
         = [Some batch_A])
  /\ logical (self storage_ABC) = [Some batch_A; Some batch_B; Some batch_C]
  /\ ((add plenty batch_D storage_ABC).2 = Ok tt
      /\ evictions_during storage_ABC (add plenty batch_D storage_ABC).1 = 1
      /\ logical (self (add plenty batch_D storage_ABC).1)
         = [Some batch_B; Some batch_C; Some batch_D])
  /\ ((add plenty batch_E storage_ABC).2 = Ok tt
      /\ evictions_during storage_ABC (add plenty batch_E storage_ABC).1 = 2
      /\ logical (self (add plenty batch_E storage_ABC).1)
         = [Some batch_C; Some batch_E])
  /\ on_shelf (self shelf_ABC) = [Some batch_A; Some batch_B; Some batch_C]
  /\ ((add plenty batch_E shelf_ABC).2 = Ok tt
      /\ evictions_during shelf_ABC (add plenty batch_E shelf_ABC).1 = 2
      /\ on_shelf (self (add plenty batch_E shelf_ABC).1)
         = [Some batch_C; Some batch_E]).
Proof.
  split; [|split; [|split; [|split; [|split; [|split]]]]].
  - intros B HB HL w calls Hw. now apply after_adds_within_capacity.
  - intros ci cts cb s calls Hinit.
    destruct (InMemoryStorage___init___well_formed _ _ _ _ Hinit) as [Hwf Hn].
    apply after_adds_within_capacity. simpl. rewrite Hn.
    pose proof (wf_capacity _ Hwf). lia.
  - intros B HB HL w avail item Hcount Hok.
    destruct (add_accounting avail item w) as (_ & _ & _ & Hin). auto.
  - intros ci cts cb s calls Hinit.
    apply after_adds_well_formed.
    now destruct (InMemoryStorage___init___well_formed _ _ _ _ Hinit).
  - intros w avail item Hwf Hcount Hok.
    destruct (add_stored avail item w Hwf Hcount Hok)
      as (k & _ & Hl & Hn & _).
    exists k. split; [unfold evictions_during; lia|done].
  - intros w avail item Hcap Hold Hn Hcount Hok.
    now apply add_on_disk_fifo.
  - repeat split; vm_compute; reflexivity.
Qed.

Lemma add_keeps_within_capacity_witness :
  _num_items (self storage_ABC) <= _capacity_items (self storage_ABC)
  /\ _num_items (self (after_adds [(plenty, batch_E); (scarce, batch_G)]
                         storage_ABC))
     <= _capacity_items (self (after_adds [(plenty, batch_E); (scarce, batch_G)]
                                 storage_ABC))
  /\ _num_items (self shelf_ABC) <= _capacity_items (self shelf_ABC)
  /\ _num_items (self (after_adds [(plenty, batch_D)] shelf_ABC))
     <= _capacity_items (self (after_adds [(plenty, batch_D)] shelf_ABC)).
Proof.
  split; [vm_compute; discriminate|]. split.
  - apply (proj1 add_keeps_within_capacity Slots InMemoryStorage
             InMemoryStorage_laws storage_ABC).
    vm_compute. discriminate.
  - split; [vm_compute; discriminate|].
    apply (proj1 add_keeps_within_capacity Shelf OnDiskStorage
             OnDiskStorage_laws shelf_ABC).
    vm_compute. discriminate.
Defined.




(** Claim C7.  An item of more timesteps than [capacity_items] is dropped:
    [add] returns normally, the storage object is untouched, and the one
    effect is the warning in the log.  This holds for every backend. *)
Theorem add_oversized_item_is_dropped (B : Type) (HB : Backend B) avail item
    (w : World B) :
  _capacity_items (self w) < count item ->
  (add avail item w).2 = Ok tt
  /\ self (add avail item w).1 = self w
  /\ logger (add avail item w).1
     = logger w ++ [warning_batch_not_added (count item)
                      (_capacity_items (self w))]
  /\ logged_once (add avail item w).1 = logged_once w.
Proof. intros Hsize. now rewrite add_oversized. Qed.

Lemma add_oversized_item_is_dropped_witness :
  _capacity_items (self storage_AB) < count batch_G
  /\ (add plenty batch_G storage_AB).2 = Ok tt
  /\ self (add plenty batch_G storage_AB).1 = self storage_AB.
Proof.
  assert (Hsize : _capacity_items (self storage_AB) < count batch_G)
    by reflexivity.
  split; [exact Hsize|].
  destruct (add_oversized_item_is_dropped Slots InMemoryStorage plenty batch_G
              storage_AB Hsize) as (Hok & Hself & _).
  split; [exact Hok | exact Hself].
Defined.

(** Claim C9 at a failing input.  A, the oldest item of the full sample
    storage, has been read twice; [add(D)] evicts it, and that one eviction
    puts two values into [evicted_hit_stats]: the hit count 2 (pushed by the
    loop of [add]) and then a 0 (pushed by [__delitem__] after the loop has
    reset the count).  The rest of the eviction is as claimed. *)
Theorem eviction_pushes_hit_count_twice :
  let w := (__getitem__ 0 0 (__getitem__ 0 0 storage_ABC).1).1 in
  let w' := (add plenty batch_D w).1 in
  _hit_count (self w) = [2; 0; 0]
  /\ (add plenty batch_D w).2 = Ok tt
  /\ evictions_during w w' = 1
  /\ pushes (_evicted_hit_stats (self w')) = pushes (_evicted_hit_stats (self w)) + 2
  /\ items (_evicted_hit_stats (self w')) = [0; 2]
  /\ _hit_count (self w') = [0; 0; 0]
  /\ _oldest_item_idx (self w') = 1
  /\ _num_timesteps (self w') = 3
  /\ _size_bytes (self w') = 3 * GB.
Proof. vm_compute. repeat split. Qed.

(** ** The key-wrapping loops of [__getitem__] *)

Lemma while_negative_done fuel n i : 0 <= i -> while_negative fuel n i = Ok i.
Proof.
  intros Hi. apply Z.ltb_ge in Hi. destruct fuel; simpl; now rewrite Hi.
Qed.

Lemma while_negative_cases fuel n i :
  0 < n ->
  while_negative fuel n i = OutOfFuel
  \/ while_negative fuel n i = Ok (if i <? 0 then i mod n else i).
Proof.
  intros Hn. revert i. induction fuel as [|fuel IH]; intros i; simpl.
  - destruct (i <? 0); auto.
  - destruct (i <? 0) eqn:Hi; [|auto]. apply Z.ltb_lt in Hi.
    destruct (IH (i + n)) as [->| ->]; [auto|]. right. f_equal.
    destruct (i + n <? 0) eqn:Hin.
    + rewrite <- (Z_mod_plus_full i 1 n). f_equal; lia.
    + apply Z.ltb_ge in Hin. apply (Z.mod_unique i n (-1)); lia.
Qed.

Lemma while_negative_wraps fuel n i :
  0 < n -> - i <= Z.of_nat fuel ->
  while_negative fuel n i = Ok (if i <? 0 then i mod n else i).
Proof.
  intros Hn. revert i. induction fuel as [|fuel IH]; intros i Hfuel.
  - rewrite while_negative_done by lia.
    assert (Hi : (i <? 0) = false) by (apply Z.ltb_ge; lia). now rewrite Hi.
  - destruct (while_negative_cases (S fuel) n i Hn) as [Hout|Hok]; [|done].
    simpl in Hout. destruct (i <? 0) eqn:Hi; [|done].
    apply Z.ltb_lt in Hi. rewrite IH in Hout by lia. done.
Qed.

Lemma while_not_below_cases fuel n i :
  0 < n -> 0 <= i ->
  while_not_below fuel n i = OutOfFuel
  \/ while_not_below fuel n i = Ok (i mod n).
Proof.
  intros Hn. revert i. induction fuel as [|fuel IH]; intros i Hi; simpl.
  - destruct (n <=? i) eqn:Hle; [auto|]. apply Z.leb_gt in Hle.
    right. rewrite Z.mod_small by lia. done.
  - destruct (n <=? i) eqn:Hle.
    + apply Z.leb_le in Hle. destruct (IH (i - n) ltac:(lia)) as [->| ->]; [auto|].
      right. f_equal. rewrite <- (Z_mod_plus_full i (-1) n). f_equal; lia.
    + apply Z.leb_gt in Hle. right. rewrite Z.mod_small by lia. done.
Qed.

Lemma while_not_below_wraps fuel n i :
  0 < n -> 0 <= i -> i < n \/ i <= Z.of_nat fuel ->
  while_not_below fuel n i = Ok (i mod n).
Proof.
  intros Hn. revert i. induction fuel as [|fuel IH]; intros i Hi Hfuel.
  - simpl. assert (Hle : (n <=? i) = false) by (apply Z.leb_gt; lia).
    rewrite Hle, Z.mod_small by lia. done.
  - destruct (while_not_below_cases (S fuel) n i Hn Hi) as [Hout|Hok]; [|done].
    simpl in Hout. destruct (n <=? i) eqn:Hle; [|done].
    apply Z.leb_le in Hle. rewrite IH in Hout by lia. done.
Qed.

Lemma wrap_key_cases fuel n key :
  0 < n ->
  wrap_key fuel n key = OutOfFuel \/ wrap_key fuel n key = Ok (key mod n).
Proof.
  intros Hn. unfold wrap_key.
  destruct (while_negative_cases fuel n key Hn) as [->| ->]; [auto|].
  destruct (key <? 0) eqn:Hkey.
  - pose proof (Z.mod_pos_bound key n Hn).
    destruct (while_not_below_cases fuel n (key mod n) Hn ltac:(lia))
      as [->| ->]; [auto|]. right. now rewrite Z.mod_mod by lia.
  - apply Z.ltb_ge in Hkey. now apply while_not_below_cases.
Qed.

(** With a length above zero the loops end, on [key mod n]; the number of
    turns is at most [|key|]. *)
Lemma wrap_key_wraps fuel n key :
  0 < n -> Z.abs key <= Z.of_nat fuel -> wrap_key fuel n key = Ok (key mod n).
Proof.
  intros Hn Hfuel. unfold wrap_key.
  rewrite while_negative_wraps by lia.
  destruct (key <? 0) eqn:Hkey.
  - pose proof (Z.mod_pos_bound key n Hn).
    rewrite while_not_below_wraps by lia. now rewrite Z.mod_mod by lia.
  - apply Z.ltb_ge in Hkey. apply while_not_below_wraps; lia.
Qed.

(** With a length of zero one of the loops runs for ever. *)
Lemma while_negative_stuck fuel n i :
  n <= 0 -> i < 0 -> while_negative fuel n i = OutOfFuel.
Proof.
  intros Hn. revert i. induction fuel as [|fuel IH]; intros i Hi; simpl;
    apply Z.ltb_lt in Hi as Hb; rewrite Hb; [done|]. apply IH. lia.
Qed.

Lemma while_not_below_stuck fuel n i :
  n <= 0 -> 0 <= i -> while_not_below fuel n i = OutOfFuel.
Proof.
  intros Hn. revert i. induction fuel as [|fuel IH]; intros i Hi; simpl;
    assert (Hb : (n <=? i) = true) by (apply Z.leb_le; lia); rewrite Hb;
    [done|]. apply IH. lia.
Qed.

Lemma wrap_key_stuck fuel n key : n <= 0 -> wrap_key fuel n key = OutOfFuel.
Proof.
  intros Hn. unfold wrap_key. destruct (decide (key < 0)) as [Hkey|Hkey].
  - now rewrite while_negative_stuck.
  - rewrite while_negative_done by lia. apply while_not_below_stuck; lia.
Qed.

(** ** Termination of indexed reads *)

Section Reads.
Context {B : Type} `{BackendLaws B}.

Lemma __getitem___stuck fuel key (w : World B) :
  _num_items (self w) <= 0 -> __getitem__ fuel key w = (w, OutOfFuel).
Proof.
  intros Hn. apply wp_equation. unfold __getitem__. wp_steps.
  now rewrite wrap_key_stuck.
Qed.

Lemma __getitem___returns fuel key (w : World B) :
  0 < _num_items (self w) -> Z.abs key <= Z.of_nat fuel ->
  (__getitem__ fuel key w).2 <> OutOfFuel.
Proof.
  intros Hn Hfuel.
  change (wp (__getitem__ fuel key) w (fun _ r => r <> OutOfFuel)).
  unfold __getitem__. wp_steps. rewrite wrap_key_wraps by done.
  wp_steps. apply wp__get_internal_index.
  destruct (_ <? 0); [done|]. wp_steps.
  match goal with |- context [list_getitem ?l ?i] =>
    pose proof (list_getitem_returns l i); destruct (list_getitem l i) end;
    try done.
  wp_steps. apply wp_store_hit_count.
  match goal with |- context [list_setitem ?l ?i ?x] =>
    pose proof (list_setitem_returns l i x); destruct (list_setitem l i x) end;
    try done.
  apply _get_returns.
Qed.

Lemma all_nonempty_dec (storage : Container) (w : World B) :
  all_nonempty storage w \/ ~ all_nonempty storage w.
Proof.
  induction storage as [|parent IH sl idx_map]; simpl.
  - destruct (decide (0 < _num_items (self w))); auto.
  - destruct idx_map; [right; now intros [? _]|].
    destruct IH as [IH|IH]; [left|right]; [done|now intros [_ ?]].
Qed.

Lemma len__pos {A} (l : list A) : l <> [] -> 0 < len_ l.
Proof. destruct l; [done|]. unfold len_. simpl. lia. Qed.

Lemma list_getitem_wrapped {A} (l : list A) key :
  l <> [] -> exists x, list_getitem l (key mod len_ l) = Ok x.
Proof.
  intros Hl. pose proof (Z.mod_pos_bound key (len_ l) (len__pos l Hl)) as Hi.
  destruct (lookup_in_range l (key mod len_ l) Hi) as [x Hx].
  exists x. apply list_getitem_in_range; [lia|done].
Qed.

(** A read ends once every length on the way down is above zero. *)
Lemma getitem_returns (storage : Container) (w : World B) key :
  all_nonempty storage w ->
  exists fuel0, forall fuel, (fuel0 <= fuel)%nat ->
    (getitem fuel storage key w).2 <> OutOfFuel.
Proof.
  revert key. induction storage as [|parent IH sl idx_map]; intros key Hne;
    simpl in Hne.
  - exists (Z.to_nat (Z.abs key)). intros fuel Hfuel.
    apply __getitem___returns; [done|lia].
  - destruct Hne as [Hmap Hparent].
    destruct (list_getitem_wrapped idx_map key Hmap) as [idx Hidx].
    destruct (IH idx Hparent) as [fuel1 Hfuel1].
    exists (Nat.max (Z.to_nat (Z.abs key)) fuel1). intros fuel Hfuel.
    simpl. unfold bind, lift.
    rewrite wrap_key_wraps by (auto using len__pos; lia).
    rewrite Hidx. apply Hfuel1. lia.
Qed.

(** A read never ends when a length on the way down is zero. *)
Lemma getitem_stuck (storage : Container) (w : World B) key fuel :
  ~ all_nonempty storage w -> getitem fuel storage key w = (w, OutOfFuel).
Proof.
  revert key. induction storage as [|parent IH sl idx_map]; intros key Hempty;
    simpl in Hempty.
  - apply __getitem___stuck. lia.
  - simpl. unfold bind, lift. destruct (decide (idx_map = [])) as [->|Hmap].
    + now rewrite wrap_key_stuck.
    + destruct (wrap_key_cases fuel (len_ idx_map) key (len__pos _ Hmap))
        as [->| ->]; [done|].
      destruct (list_getitem_wrapped idx_map key Hmap) as [idx ->].
      apply IH. tauto.
Qed.
End Reads.

(** Claim C10, as the code has it.  The loops that wrap the key end, on
    [key mod n], exactly when the length [n] of the storage or view is above
    zero; with a length of zero they run for ever.  An indexed read of a
    storage therefore returns or raises exactly when the storage holds an
    item, and an indexed read of a view exactly when the view and everything
    beneath it, down to the storage, is non-empty: a read that meets an
    empty storage or view on its way never returns and never raises. *)
Theorem getitem_terminates_iff_nonempty (B : Type) (HB : Backend B)
    (HL : BackendLaws B) (storage : Container) (key : Z) (w : World B) :
  ((exists fuel0, forall fuel, (fuel0 <= fuel)%nat ->
      (getitem fuel storage key w).2 <> OutOfFuel)
   <-> all_nonempty storage w)
  /\ (~ all_nonempty storage w ->
      forall fuel, getitem fuel storage key w = (w, OutOfFuel))
  /\ (forall n, 0 < n ->
        forall fuel, Z.abs key <= Z.of_nat fuel ->
          wrap_key fuel n key = Ok (key mod n))
  /\ (forall n, n <= 0 -> forall fuel, wrap_key fuel n key = OutOfFuel).
Proof.
  split; [split|split; [|split]].
  - intros [fuel0 Hfuel0]. destruct (all_nonempty_dec storage w) as [|Hempty];
      [done|].
    specialize (Hfuel0 fuel0 (Nat.le_refl _)).
    now rewrite (getitem_stuck storage w key fuel0 Hempty) in Hfuel0.
  - apply getitem_returns.
  - intros Hempty fuel. now apply getitem_stuck.
  - intros n Hn fuel Hfuel. now apply wrap_key_wraps.
  - intros n Hn fuel. now apply wrap_key_stuck.
Qed.

Lemma getitem_terminates_iff_nonempty_witness :
  (exists fuel0, forall fuel, (fuel0 <= fuel)%nat ->
     (getitem fuel (StorageView Storage (1, 0, -1) [1; 0]) (-7) storage_AB).2
     <> OutOfFuel)
  /\ forall fuel, getitem fuel Storage 0 (fresh empty_storage)
                  = (fresh empty_storage, OutOfFuel).
Proof.
  split.
  - apply (getitem_terminates_iff_nonempty Slots InMemoryStorage
             InMemoryStorage_laws (StorageView Storage (1, 0, -1) [1; 0])
             (-7) storage_AB).
    vm_compute. split; [discriminate|reflexivity].
  - apply (getitem_terminates_iff_nonempty Slots InMemoryStorage
             InMemoryStorage_laws Storage 0 (fresh empty_storage)).
    vm_compute. intros Hpos. discriminate Hpos.
Defined.

(** Counterexample to claim C10 as stated.  [storage[0:5]] on the empty
    sample storage is a view of length 5, since the bounds of a slice are
    not cut down to the length of the storage; the view is not empty, and
    yet reading its index 0 never returns: the read is handed down to the
    empty storage, whose loops run for ever. *)
Lemma nonempty_view_of_empty_storage_never_returns :
  let w := fresh empty_storage in
  let view := StorageView Storage (0, 5, 1) [0; 1; 2; 3; 4] in
  StorageView___init__ Storage (mkSlice (Some 0) (Some 5) None) w
  = (w, Ok view)
  /\ (len_of view w).2 = Ok 5
  /\ ~ (exists fuel, (getitem fuel view 0 w).2 <> OutOfFuel).
Proof.
  split; [reflexivity|]. split; [reflexivity|].
  intros [fuel Hfuel]. apply Hfuel.
  rewrite (getitem_stuck (B := Slots)); [done|].
  vm_compute. intros [_ Hpos]. discriminate Hpos.
Qed.

(** ** Indexed reads and writes of the storage in memory *)

Lemma wrap_int64_small h : 0 <= h < 2 ^ 63 - 1 -> wrap_int64 (h + 1) = h + 1.
Proof. intros Hh. unfold wrap_int64. rewrite Z.mod_small; lia. Qed.

(** [__getitem__] on a well-formed storage that holds an item: the key is
    taken modulo the number of items, the hit count of the slot goes up by
    one and the item stays where it is. *)
Lemma __getitem___in_memory fuel key (w : World Slots) :
  well_formed (self w) -> 0 < _num_items (self w) ->
  Z.abs key <= Z.of_nat fuel ->
  let p := slot_of (self w) (key mod _num_items (self w)) in
  exists h item,
    _hit_count (self w) !! p = Some h
    /\ _samples (self w) !! p = Some (Some item)
    /\ __getitem__ fuel key w
       = (mkWorld
            (set_hit_count (<[p := wrap_int64 (h + 1)]> (_hit_count (self w)))
               (self w))
            (logger w) (logged_once w), Ok (Some item)).
Proof.
  intros Hwf Hn Hfuel p.
  pose proof (Z.mod_pos_bound key _ Hn) as Hi.
  pose proof (wf_capacity _ Hwf) as Hcap.
  pose proof (slot_of_bound (self w) (key mod _num_items (self w)) Hcap) as Hb.
  destruct (slot_of_in_range (self w) (key mod _num_items (self w)) Hwf)
    as [Hph Hps].
  destruct (wf_occupied _ Hwf (key mod _num_items (self w)) Hi) as [item Hitem].
  destruct (lookup_lt_is_Some_2 _ _ Hph) as [h Hh].
  exists h, item. split; [done|]. split; [done|].
  apply wp_equation. unfold __getitem__. wp_steps.
  rewrite wrap_key_wraps by done. wp_steps.
  apply wp__get_internal_index.
  assert (Hneg : (key mod _num_items (self w) <? 0) = false)
    by (apply Z.ltb_ge; lia).
  rewrite Hneg, Z.max_r by lia. wp_steps.
  rewrite (list_getitem_in_range _ _ h) by (done || lia).
  wp_steps. apply wp_store_hit_count.
  rewrite list_setitem_in_range by (rewrite (wf_hit_count _ Hwf); lia).
  in_memory. unfold InMemoryStorage__get. wp_steps. simpl.
  now rewrite (list_getitem_in_range _ _ (Some item)) by (done || lia).
Qed.

(** [__getitem__] over any backend, on a storage that holds an item: the
    key is wrapped, the hit count of the slot goes up by one, and the slot
    is read by the [_get] of the backend. *)
Lemma __getitem___any_backend {B} `{Backend B} fuel key (w : World B) :
  0 < _capacity_items (self w) -> 0 <= _oldest_item_idx (self w) ->
  len_ (_hit_count (self w)) = _capacity_items (self w) ->
  0 < _num_items (self w) -> Z.abs key <= Z.of_nat fuel ->
  let p := slot_of (self w) (key mod _num_items (self w)) in
  exists h,
    _hit_count (self w) !! p = Some h
    /\ __getitem__ fuel key w
       = _get (Z.of_nat p)
           (mkWorld
              (set_hit_count
                 (<[p := wrap_int64 (h + 1)]> (_hit_count (self w))) (self w))
              (logger w) (logged_once w)).
Proof.
  intros Hcap Ho Hhits Hn Hfuel p.
  pose proof (Z.mod_pos_bound key _ Hn) as Hi.
  pose proof (Z.mod_pos_bound
                (_oldest_item_idx (self w) + key mod _num_items (self w))
                _ Hcap) as Hb.
  assert (Hp : Z.of_nat p
               = (_oldest_item_idx (self w) + key mod _num_items (self w))
                 mod _capacity_items (self w))
    by (unfold p, slot_of; lia).
  destruct (lookup_lt_is_Some_2 (_hit_count (self w)) p) as [h Hh];
    [unfold len_ in Hhits; lia|].
  exists h. split; [done|].
  enough (Hwp : wp (__getitem__ fuel key) w (fun w' r =>
            (w', r)
            = _get (Z.of_nat p)
                (mkWorld
                   (set_hit_count
                      (<[p := wrap_int64 (h + 1)]> (_hit_count (self w)))
                      (self w))
                   (logger w) (logged_once w)))).
  { unfold wp in Hwp. rewrite <- Hwp. now destruct (__getitem__ fuel key w). }
  unfold __getitem__. wp_steps.
  rewrite wrap_key_wraps by done. wp_steps.
  apply wp__get_internal_index.
  assert (Hneg : (key mod _num_items (self w) <? 0) = false)
    by (apply Z.ltb_ge; lia).
  rewrite Hneg, Z.max_r, <- Hp by lia. wp_steps.
  rewrite (list_getitem_in_range _ _ h) by (lia || now rewrite Nat2Z.id).
  wp_steps. apply wp_store_hit_count.
  rewrite list_setitem_in_range by lia. rewrite Nat2Z.id.
  unfold wp. now destruct (_get _ _).
Qed.

(** Claim C3, as the code has it.  On a storage that holds at least one
    item, over any backend, [get(key)] never fails as out of range: the key
    is wrapped to [key mod num_items] (which is [key] itself when
    [0 <= key < num_items]), translated to the physical slot
    [(oldest + index) mod capacity_items], the hit count of that slot is
    raised by one (in 64-bit arithmetic), and the slot is read with the
    [_get] of the backend.  That read returns what the slot holds and
    changes nothing, in memory and on disk, so the item stays in the
    storage; on a well-formed storage in memory the slot holds an item and
    the read returns it. *)
Theorem getitem_wraps_and_counts (B : Type) (HB : Backend B) fuel key
    (w : World B) :
  0 < _capacity_items (self w) -> 0 <= _oldest_item_idx (self w) ->
  len_ (_hit_count (self w)) = _capacity_items (self w) ->
  0 < _num_items (self w) -> Z.abs key <= Z.of_nat fuel ->
  let p := slot_of (self w) (key mod _num_items (self w)) in
  (exists h,
     _hit_count (self w) !! p = Some h
     /\ __getitem__ fuel key w
        = _get (Z.of_nat p)
            (mkWorld
               (set_hit_count
                  (<[p := wrap_int64 (h + 1)]> (_hit_count (self w)))
                  (self w))
               (logger w) (logged_once w))
     /\ (0 <= h < 2 ^ 63 - 1 -> wrap_int64 (h + 1) = h + 1))
  /\ (0 <= key < _num_items (self w) -> key mod _num_items (self w) = key)
  /\ (forall idx (w0 : World Slots),
        _get idx w0 = (w0, list_getitem (_samples (self w0)) idx))
  /\ (forall idx (w0 : World Shelf),
        _get idx w0
        = (w0, match shelf_getitem (_samples (self w0)) idx with
               | Ok item => Ok (Some item)
               | Raise e => Raise e
               | OutOfFuel => OutOfFuel
               end))
  /\ (forall fuel0 key0 (w0 : World Slots),
        well_formed (self w0) -> 0 < _num_items (self w0) ->
        Z.abs key0 <= Z.of_nat fuel0 ->
        exists item,
          _samples (self w0)
            !! slot_of (self w0) (key0 mod _num_items (self w0))
          = Some (Some item)
          /\ (__getitem__ fuel0 key0 w0).2 = Ok (Some item)
          /\ _samples (self (__getitem__ fuel0 key0 w0).1)
             = _samples (self w0)).
Proof.
  intros Hcap Ho Hhits Hn Hfuel p.
  split; [|split; [|split; [|split]]].
  - destruct (__getitem___any_backend fuel key w Hcap Ho Hhits Hn Hfuel)
      as (h & Hh & Hget).
    exists h. auto using wrap_int64_small.
  - intros Hkey. now apply Z.mod_small.
  - reflexivity.
  - intros idx w0. cbn. unfold OnDiskStorage__get, bind, attr, lift, ret.
    now destruct (shelf_getitem _ _).
  - intros fuel0 key0 w0 Hwf0 Hn0 Hfuel0.
    destruct (__getitem___in_memory fuel0 key0 w0 Hwf0 Hn0 Hfuel0)
      as (h & item & _ & Hitem & Hget).
    exists item. rewrite Hget. auto.
Qed.

Lemma getitem_wraps_and_counts_witness :
  (__getitem__ 1 (-1) storage_AB).2 = Ok (Some batch_B)
  /\ exists h,
       _hit_count (self storage_AB) !! slot_of (self storage_AB) (1 mod 2)
       = Some h
       /\ (0 <= h < 2 ^ 63 - 1 -> wrap_int64 (h + 1) = h + 1).
Proof.
  split; [vm_compute; reflexivity|].
  destruct (getitem_wraps_and_counts Slots InMemoryStorage 1 1 storage_AB)
    as [(h & Hh & _ & Hwrap) _].
  - reflexivity.
  - vm_compute. discriminate.
  - reflexivity.
  - reflexivity.
  - vm_compute. discriminate.
  - exists h. split; [exact Hh | exact Hwrap].
Defined.

(** Counterexample to claim C3 as stated.  The sample storage holds A and
    B.  Reading index -1 (below zero) returns B and reading index 2 (the
    number of items) returns A; neither fails as out of range. *)
Lemma getitem_out_of_range_wraps :
  _num_items (self storage_AB) = 2
  /\ (__getitem__ 1 (-1) storage_AB).2 = Ok (Some batch_B)
  /\ (__getitem__ 1 2 storage_AB).2 = Ok (Some batch_A)
  /\ (__getitem__ 1 (-1) storage_AB).2 <> Raise IndexError
  /\ (__getitem__ 1 2 storage_AB).2 <> Raise IndexError.
Proof. vm_compute. repeat split; discriminate. Qed.

(** [__setitem__] on a well-formed storage that has begun evicting. *)
Lemma __setitem___in_memory avail i item (w : World Slots) :
  well_formed (self w) -> _eviction_started (self w) = true ->
  0 <= i < _num_items (self w) ->
  let p := slot_of (self w) i in
  exists h old,
    _hit_count (self w) !! p = Some h
    /\ _samples (self w) !! p = Some (Some old)
    /\ wp (__setitem__ avail i item) w (fun w' r =>
         exists e records,
           Forall estimated_usage records
           /\ logger w'
              = logger w
                ++ (if count old <? count item
                    then [warning_new_item_more_timesteps] else [])
                ++ records
           /\ (r = Ok tt
               /\ self w' = replaced h old item e p (Some item) (self w)
               \/ (r = Raise ValueError \/ r = Raise ZeroDivisionError)
                  /\ self w' = replaced h old item e p None (self w)
                  /\ records = [])).
Proof.
  intros Hwf Hstarted Hi p.
  pose proof (wf_capacity _ Hwf) as Hcap.
  pose proof (wf_num_items _ Hwf) as Hni.
  pose proof (slot_of_bound (self w) i Hcap) as Hb.
  destruct (slot_of_in_range (self w) i Hwf) as [Hph Hps].
  destruct (wf_occupied _ Hwf i Hi) as [old Hold].
  destruct (lookup_lt_is_Some_2 _ _ Hph) as [h Hh].
  exists h, old. split; [done|]. split; [done|].
  unfold __setitem__. wp_steps.
  assert (Hrange : (_num_items (self w) <=? i) || (i <? 0) = false).
  { apply orb_false_iff. split; [apply Z.leb_gt|apply Z.ltb_ge]; lia. }
  rewrite Hrange. wp_steps. rewrite Hstarted. simpl. wp_steps.
  apply wp__get_internal_index.
  assert (Hneg : (i <? 0) = false) by (apply Z.ltb_ge; lia).
  rewrite Hneg, Z.max_r by lia. wp_steps. in_memory.
  eapply (wp_InMemoryStorage___delitem__ _ _ (Some old) h); [lia|done|done|].
  fold (slot_of (self w) i). fold p. wp_steps.
  destruct (count old <? count item); wp_steps;
    (apply wp_push_hit_count; simpl;
     rewrite (list_getitem_in_range _ _ 0)
       by (lia || now apply list_lookup_insert_eq);
     wp_steps; simpl; apply wp_store_hit_count; simpl;
     rewrite list_setitem_in_range
       by (unfold len_; rewrite length_insert;
           fold (len_ (_hit_count (self w)));
           rewrite (wf_hit_count _ Hwf); lia);
     wp_steps; simpl;
     eapply wp_wand;
     [ apply InMemoryStorage__set_spec; simpl; unfold len_;
       rewrite length_insert; fold (len_ (_samples (self w)));
       rewrite (wf_samples _ Hwf); lia
     | ];
     intros w1 r (e & records & Hlog1 & Hrec & Hr); simpl in Hlog1, Hr;
     exists e, records; (split; [done|]);
     (split; [rewrite Hlog1, <- ?app_assoc; done|]);
     fold (slot_of (self w) i) in Hr; fold p in Hr;
     rewrite !list_insert_insert_eq in Hr;
     destruct Hr as [[-> ->]|(Hr & -> & -> & _)]; [left|right];
     (split; [done|]); [|split; [|done]];
     unfold replaced; simpl; f_equal; lia).
Qed.

(** [__setitem__] over any backend, once [__delitem__] has returned the
    item of the slot: the warning is logged when that item has fewer
    timesteps than the new one, the counters are brought up to date, and the
    slot is written by the [_set] of the backend. *)
Lemma __setitem___any_backend {B} `{Backend B} avail i item
    (w w1 : World B) old h :
  _eviction_started (self w) = true ->
  0 <= i < _num_items (self w) ->
  let idx := (_oldest_item_idx (self w) + i)
             mod Z.max 1 (_capacity_items (self w)) in
  __delitem__ idx w = (w1, Ok (Some old)) ->
  _hit_count (self w1) !! Z.to_nat idx = Some h ->
  __setitem__ avail i item w
  = _set avail idx item
      (mkWorld (replacement_counted h old item idx (self w1))
         (logger w1 ++ (if count old <? count item
                        then [warning_new_item_more_timesteps] else []))
         (logged_once w1)).
Proof.
  intros Hstarted Hi idx Hdel Hh.
  assert (Hidx : 0 <= idx) by (apply Z.mod_pos_bound; lia).
  apply lookup_lt_Some in Hh as Hlen.
  match goal with |- _ = ?x =>
    enough (Hwp : wp (__setitem__ avail i item) w
                    (fun w' r => (w', r) = x)) end.
  { unfold wp in Hwp. rewrite <- Hwp.
    now destruct (__setitem__ avail i item w). }
  unfold __setitem__. wp_steps.
  assert (Hrange : (_num_items (self w) <=? i) || (i <? 0) = false).
  { apply orb_false_iff. split; [apply Z.leb_gt|apply Z.ltb_ge]; lia. }
  rewrite Hrange. wp_steps. rewrite Hstarted. simpl. wp_steps.
  apply wp__get_internal_index.
  assert (Hneg : (i <? 0) = false) by (apply Z.ltb_ge; lia).
  rewrite Hneg. fold idx. wp_steps.
  unfold wp at 1. rewrite Hdel. simpl. wp_steps.
  destruct (count old <? count item); wp_steps;
    (apply wp_push_hit_count; simpl;
     rewrite (list_getitem_in_range _ _ h) by done;
     wp_steps; simpl; apply wp_store_hit_count; simpl;
     rewrite list_setitem_in_range by (unfold len_; lia);
     wp_steps; simpl; unfold wp, replacement_counted;
     rewrite ?app_nil_r;
     now destruct (_set _ _ _ _)).
Qed.

(** [__setitem__] on a well-formed storage in memory that has begun
    evicting, in full. *)
Lemma __setitem___in_memory_outcome avail i item (w : World Slots) :
  well_formed (self w) -> _eviction_started (self w) = true ->
  0 <= i < _num_items (self w) ->
  let p := slot_of (self w) i in
  let w' := (__setitem__ avail i item w).1 in
  let r := (__setitem__ avail i item w).2 in
  exists old records,
    _samples (self w) !! p = Some (Some old)
    /\ Forall estimated_usage records
    /\ logger w'
       = logger w
         ++ (if count old <? count item
             then [warning_new_item_more_timesteps] else [])
         ++ records
    /\ (warning_new_item_more_timesteps
          ∈ drop (length (logger w)) (logger w')
        <-> count old < count item)
    /\ _num_timesteps (self w')
       = _num_timesteps (self w) - count old + count item
    /\ _size_bytes (self w')
       = _size_bytes (self w) - size_bytes old + size_bytes item
    /\ _num_timesteps_added (self w')
       = _num_timesteps_added (self w) + count item
    /\ _num_items (self w') = _num_items (self w)
    /\ (r = Ok tt
        /\ _samples (self w') = <[p := Some item]> (_samples (self w))
        \/ (r = Raise ValueError \/ r = Raise ZeroDivisionError)
           /\ _samples (self w') = <[p := None]> (_samples (self w))).
Proof.
  intros Hwf Hstarted Hi p w' r.
  destruct (__setitem___in_memory avail i item w Hwf Hstarted Hi)
    as (h & old & _ & Hold & Hset).
  destruct Hset as (e & records & Hrec & Hlog & Hcases).
  fold w' in Hlog, Hcases. fold r in Hcases. fold p in Hold, Hcases.
  exists old, records. split; [done|]. split; [done|]. split; [done|].
  split.
  { rewrite Hlog, drop_app_length, elem_of_app.
    assert (Hquiet : ~ warning_new_item_more_timesteps ∈ records).
    { intros Hin. rewrite Forall_forall in Hrec. exact (Hrec _ Hin). }
    destruct (count old <? count item) eqn:Hcount.
    - apply Z.ltb_lt in Hcount. split; [done|]. intros _. left. constructor.
    - apply Z.ltb_ge in Hcount. split; [|lia].
      intros [Hin|Hin]; [inversion Hin|done]. }
  destruct Hcases as [[Hr ->]|(Hr & -> & _)]; simpl;
    (do 4 (split; [done|])); [left|right]; done.
Qed.

(** Claim C8, as the code has it.  [set(i, item)] with [0 <= i < num_items]
    on a storage that has begun evicting, over any backend: once
    [__delitem__] has returned the evicted item, the warning is logged
    exactly when the evicted item has fewer timesteps than the replacement
    ([evicted.count < replacement.count], the replacement is the larger
    one); with or without the warning the replacement goes on: the evicted
    item's timesteps and bytes are subtracted, the new item's are added, and
    the slot is written by [_set].  On a well-formed storage in memory the
    log grows by that warning and the records of the capacity forecast
    only, and the new item ends up in the slot unless the forecast raises;
    then the counters stay updated and the slot stays empty. *)
Theorem setitem_warns_on_larger_replacement (B : Type) (HB : Backend B)
    avail i item (w w1 : World B) old h :
  _eviction_started (self w) = true ->
  0 <= i < _num_items (self w) ->
  let idx := (_oldest_item_idx (self w) + i)
             mod Z.max 1 (_capacity_items (self w)) in
  __delitem__ idx w = (w1, Ok (Some old)) ->
  _hit_count (self w1) !! Z.to_nat idx = Some h ->
  __setitem__ avail i item w
  = _set avail idx item
      (mkWorld (replacement_counted h old item idx (self w1))
         (logger w1 ++ (if count old <? count item
                        then [warning_new_item_more_timesteps] else []))
         (logged_once w1))
  /\ (forall avail0 i0 item0 (w0 : World Slots),
        well_formed (self w0) -> _eviction_started (self w0) = true ->
        0 <= i0 < _num_items (self w0) ->
        let p := slot_of (self w0) i0 in
        let w' := (__setitem__ avail0 i0 item0 w0).1 in
        let r := (__setitem__ avail0 i0 item0 w0).2 in
        exists old0 records,
          _samples (self w0) !! p = Some (Some old0)
          /\ Forall estimated_usage records
          /\ logger w'
             = logger w0
               ++ (if count old0 <? count item0
                   then [warning_new_item_more_timesteps] else [])
               ++ records
          /\ (warning_new_item_more_timesteps
                ∈ drop (length (logger w0)) (logger w')
              <-> count old0 < count item0)
          /\ _num_timesteps (self w')
             = _num_timesteps (self w0) - count old0 + count item0
          /\ _size_bytes (self w')
             = _size_bytes (self w0) - size_bytes old0 + size_bytes item0
          /\ _num_timesteps_added (self w')
             = _num_timesteps_added (self w0) + count item0
          /\ _num_items (self w') = _num_items (self w0)
          /\ (r = Ok tt
              /\ _samples (self w') = <[p := Some item0]> (_samples (self w0))
              \/ (r = Raise ValueError \/ r = Raise ZeroDivisionError)
                 /\ _samples (self w')
                    = <[p := None]> (_samples (self w0)))).
Proof.
  intros Hstarted Hi idx Hdel Hh. split.
  - now apply __setitem___any_backend.
  - intros avail0 i0 item0 w0. apply __setitem___in_memory_outcome.
Qed.

Lemma setitem_warns_on_larger_replacement_witness :
  _eviction_started (self storage_BFC) = true
  /\ 0 <= 0 < _num_items (self storage_BFC)
  /\ (__delitem__ 1 storage_BFC).2 = Ok (Some batch_B)
  /\ logger (__setitem__ plenty 0 batch_F storage_BFC).1
     = logger storage_BFC ++ [warning_new_item_more_timesteps].
Proof.
  assert (Hrange : 0 <= 0 < _num_items (self storage_BFC))
    by (vm_compute; split; [discriminate|reflexivity]).
  split; [reflexivity|]. split; [exact Hrange|].
  split; [vm_compute; reflexivity|].
  destruct (setitem_warns_on_larger_replacement Slots InMemoryStorage
              plenty 0 batch_F storage_BFC (__delitem__ 1 storage_BFC).1
              batch_B 0 eq_refl Hrange) as [Hset _].
  - vm_compute. reflexivity.
  - vm_compute. reflexivity.
  - rewrite Hset. vm_compute. reflexivity.
Defined.

(** Counterexample to claim C8 as stated.  The sample storage holds B, F
    and C and has begun evicting; F has two timesteps, the others one.
    Replacing F by D, a replacement of fewer timesteps, logs nothing;
    replacing B by F, a replacement of more timesteps, logs the warning. *)
Lemma setitem_warning_direction :
  _samples (self storage_BFC) !! slot_of (self storage_BFC) 1
  = Some (Some batch_F)
  /\ count batch_D < count batch_F
  /\ (__setitem__ plenty 1 batch_D storage_BFC).2 = Ok tt
  /\ logger (__setitem__ plenty 1 batch_D storage_BFC).1 = logger storage_BFC
  /\ _samples (self storage_BFC) !! slot_of (self storage_BFC) 0
     = Some (Some batch_B)
  /\ count batch_B < count batch_F
  /\ (__setitem__ plenty 0 batch_F storage_BFC).2 = Ok tt
  /\ logger (__setitem__ plenty 0 batch_F storage_BFC).1
     = logger storage_BFC ++ [warning_new_item_more_timesteps].
Proof. vm_compute. repeat split. Qed.

(** ** Views *)

Lemma len_of_returns {B} `{Backend B} (storage : Container) (w : World B) :
  exists n, len_of storage w = (w, Ok n).
Proof. destruct storage; simpl; eauto. Qed.

Lemma py_range_returns start_ stop_ step_ :
  step_ <> 0 ->
  py_range start_ stop_ step_
  = Ok ((fun k => start_ + Z.of_nat k * step_)
          <$> seq 0 (Z.to_nat (range_len start_ stop_ step_))).
Proof.
  intros Hstep. unfold py_range.
  now destruct (Z.eqb_spec step_ 0).
Qed.

(** What [StorageView.__init__] hands to [range]: each bound goes through
    [x or default], and the length of the parent is added to the stop only
    when the stop was left out and the step is negative. *)
Lemma StorageView___init___resolved {B} `{Backend B} (storage : Container)
    (s : slice) (w : World B) n :
  len_of storage w = (w, Ok n) -> step s <> Some 0 ->
  let step_ := default 1 (step s) in
  let start_ :=
    if step_ <? 0 then or_ (start s) (n - 1) else or_ (start s) 0 in
  let stop_ :=
    if step_ <? 0 then or_ (stop s) (- (n + 1)) else or_ (stop s) n in
  let last :=
    if (step_ <? 0) && bool_decide (stop s = None) then stop_ + n
    else stop_ in
  step_ <> 0
  /\ exists idx_map,
       StorageView___init__ storage s w
       = (w, Ok (StorageView storage (start_, stop_, step_) idx_map))
       /\ py_range start_ last step_ = Ok idx_map.
Proof.
  intros Hlen Hstep step_ start_ stop_ last.
  assert (Hor : or_ (step s) 1 = step_).
  { unfold step_, or_. destruct (step s) as [c|]; [|done].
    destruct (Z.eqb_spec c 0); [congruence|done]. }
  assert (Hnz : step_ <> 0).
  { unfold step_. destruct (step s) as [c|]; simpl; [congruence|done]. }
  split; [done|].
  unfold StorageView___init__, bind. rewrite Hlen. cbv beta iota zeta.
  rewrite Hor. fold step_.
  assert (Hflip : (0 <? step_) = negb (step_ <? 0)).
  { destruct (Z.ltb_spec 0 step_), (Z.ltb_spec step_ 0); simpl; lia. }
  rewrite Hflip.
  assert (Hstart : (if negb (step_ <? 0) then or_ (start s) 0
                    else or_ (start s) (n - 1)) = start_)
    by (unfold start_; now destruct (step_ <? 0)).
  assert (Hstop : (if negb (step_ <? 0) then or_ (stop s) n
                   else or_ (stop s) (- (n + 1))) = stop_)
    by (unfold stop_; now destruct (step_ <? 0)).
  rewrite Hstart, Hstop. fold last.
  unfold lift. rewrite py_range_returns by done.
  eexists. split; reflexivity.
Qed.

(** Claim C5, as the code has it.  A bound that is left out is resolved as
    Python does: going forwards the start is 0 and the stop is the length
    of the parent, going backwards the start is the length minus one and
    the list runs down to index 0.  A bound that is given and is not 0 is
    handed to [range] as it is, whatever the length of the parent; a given
    0 is read as left out, except that a stop of 0 going backwards becomes
    [-(len + 1)].  So whenever the step is not zero, a given start is a
    position within the parent ([0 .. len] going forwards, [1 .. len - 1]
    going backwards) and a given stop is a position above zero within it
    ([1 .. len] going forwards, [1 .. len - 1] going backwards), the index
    list of the view is what Python's slicing of [range(len(parent))]
    yields, and creating the view leaves the parent as it was.  For a
    parent of two items or more these are exactly the bounds that the view
    resolves to the numbers Python resolves them to.  On a storage of
    length 10, [slice(2, 8, 2)] yields [[2; 4; 6]] and
    [slice(None, None, -1)] yields [[9; 8; ...; 0]]. *)
Theorem view_of_plain_slice_follows_python (B : Type) (HB : Backend B)
    (storage : Container) (s : slice) (w : World B) (n : Z) :
  len_of storage w = (w, Ok n) -> 0 <= n ->
  step s <> Some 0 ->
  let step_ := default 1 (step s) in
  (exists start_ stop_ last idx_map,
     StorageView___init__ storage s w
     = (w, Ok (StorageView storage (start_, stop_, step_) idx_map))
     /\ py_range start_ last step_ = Ok idx_map
     /\ (forall a, start s = Some a -> a <> 0 -> start_ = a)
     /\ (forall b, stop s = Some b -> b <> 0 -> last = b /\ stop_ = b)
     /\ (start s = None \/ start s = Some 0 ->
         start_ = if step_ <? 0 then n - 1 else 0)
     /\ (stop s = None -> last = if step_ <? 0 then -1 else n)
     /\ (stop s = Some 0 -> last = if step_ <? 0 then - (n + 1) else n)
     /\ (plain_start n s -> plain_stop n s ->
         sequence_slice n s = Ok idx_map)
     /\ (2 <= n ->
         (start_ = python_start n s <-> plain_start n s)
         /\ (last = python_stop n s <-> plain_stop n s)))
  /\ (len_of Storage storage_of_ten).2 = Ok 10
  /\ (StorageView___init__ Storage (mkSlice (Some 2) (Some 8) (Some 2))
        storage_of_ten).2
     = Ok (StorageView Storage (2, 8, 2) [2; 4; 6])
  /\ (StorageView___init__ Storage (mkSlice None None (Some (-1)))
        storage_of_ten).2
     = Ok (StorageView Storage (9, -11, -1) [9; 8; 7; 6; 5; 4; 3; 2; 1; 0]).
Proof.
  intros Hlen Hn Hstep step_.
  split; [|repeat split; reflexivity].
  destruct (StorageView___init___resolved storage s w n Hlen Hstep)
    as (Hnz & idx_map & Hinit & Hrange).
  fold step_ in Hnz, Hinit, Hrange.
  set (start_ := if step_ <? 0 then or_ (start s) (n - 1)
                 else or_ (start s) 0) in *.
  set (stop_ := if step_ <? 0 then or_ (stop s) (- (n + 1))
                else or_ (stop s) n) in *.
  set (last := if (step_ <? 0) && bool_decide (stop s = None)
               then stop_ + n else stop_) in *.
  exists start_, stop_, last, idx_map.
  split; [done|]. split; [done|].
  assert (Hstart_given : forall a, start s = Some a -> a <> 0 -> start_ = a).
  { intros a Ha Ha0. unfold start_, or_. rewrite Ha.
    destruct (Z.eqb_spec a 0); [done|]. now destruct (step_ <? 0). }
  assert (Hstop_given : forall b, stop s = Some b -> b <> 0 ->
            last = b /\ stop_ = b).
  { intros b Hb Hb0.
    assert (Hs : stop_ = b).
    { unfold stop_, or_. rewrite Hb.
      destruct (Z.eqb_spec b 0); [done|]. now destruct (step_ <? 0). }
    split; [|done]. unfold last. rewrite Hb.
    rewrite bool_decide_eq_false_2 by done. now rewrite andb_false_r. }
  assert (Hstart_default : start s = None \/ start s = Some 0 ->
            start_ = if step_ <? 0 then n - 1 else 0).
  { intros [Ha|Ha]; unfold start_, or_; rewrite Ha; simpl; done. }
  assert (Hstop_none : stop s = None ->
            last = if step_ <? 0 then -1 else n).
  { intros Hb. unfold last, stop_, or_. rewrite Hb.
    rewrite bool_decide_eq_true_2 by done.
    destruct (step_ <? 0); simpl; lia. }
  assert (Hstop_zero : stop s = Some 0 ->
            last = if step_ <? 0 then - (n + 1) else n).
  { intros Hb. unfold last, stop_, or_. rewrite Hb.
    rewrite bool_decide_eq_false_2 by done. rewrite andb_false_r.
    simpl. done. }
  assert (Hstart_plain : plain_start n s -> start_ = python_start n s).
  { unfold plain_start, python_start. fold step_.
    destruct (start s) as [a|] eqn:Ha.
    - intros Hplain. destruct (decide (a = 0)) as [->|Ha0].
      + rewrite Hstart_default by auto.
        destruct (step_ <? 0); [lia|]. unfold clamp_bound.
        destruct (Z.ltb_spec 0 0); [lia|].
        destruct (Z.leb_spec n 0); lia.
      + rewrite (Hstart_given a eq_refl Ha0). unfold clamp_bound.
        destruct (step_ <? 0);
          destruct (Z.ltb_spec a 0); try lia;
          destruct (Z.leb_spec n a); lia.
    - intros _. now apply Hstart_default; left. }
  assert (Hstop_plain : plain_stop n s -> last = python_stop n s).
  { unfold plain_stop, python_stop. fold step_.
    destruct (stop s) as [b|] eqn:Hb.
    - intros Hplain.
      destruct (Hstop_given b eq_refl ltac:(lia)) as [-> _].
      unfold clamp_bound.
      destruct (step_ <? 0);
        destruct (Z.ltb_spec b 0); try lia;
        destruct (Z.leb_spec n b); lia.
    - intros _. now apply Hstop_none. }
  do 5 (split; [done|]). split.
  - intros Hps Hpt. unfold sequence_slice. fold step_.
    destruct (Z.eqb_spec step_ 0); [done|].
    now rewrite <- Hstart_plain, <- Hstop_plain.
  - intros Hn2. split; (split; [|done]).
    + unfold plain_start, python_start. fold step_.
      destruct (start s) as [a|] eqn:Ha; [|done].
      destruct (decide (a = 0)) as [->|Ha0].
      * rewrite Hstart_default by auto. unfold clamp_bound.
        destruct (step_ <? 0); [|lia].
        destruct (Z.ltb_spec 0 0); [lia|].
        destruct (Z.leb_spec n 0); lia.
      * rewrite (Hstart_given a eq_refl Ha0). unfold clamp_bound.
        destruct (step_ <? 0);
          destruct (Z.ltb_spec a 0);
          try destruct (Z.ltb_spec (a + n) 0);
          try destruct (Z.leb_spec n a); lia.
    + unfold plain_stop, python_stop. fold step_.
      destruct (stop s) as [b|] eqn:Hb; [|done].
      destruct (decide (b = 0)) as [->|Hb0].
      * rewrite Hstop_zero by done. unfold clamp_bound.
        destruct (step_ <? 0);
          destruct (Z.ltb_spec 0 0); try lia;
          destruct (Z.leb_spec n 0); lia.
      * destruct (Hstop_given b eq_refl Hb0) as [-> _]. unfold clamp_bound.
        destruct (step_ <? 0);
          destruct (Z.ltb_spec b 0);
          try destruct (Z.ltb_spec (b + n) 0);
          try destruct (Z.leb_spec n b); lia.
Qed.

Lemma view_of_plain_slice_follows_python_witness :
  len_of Storage storage_of_ten = (storage_of_ten, Ok 10)
  /\ plain_start 10 (mkSlice (Some 0) (Some 8) (Some 2))
  /\ plain_stop 10 (mkSlice (Some 0) (Some 8) (Some 2))
  /\ sequence_slice 10 (mkSlice (Some 0) (Some 8) (Some 2)) = Ok [0; 2; 4; 6]
  /\ exists slice_ idx_map,
       StorageView___init__ Storage (mkSlice (Some 0) (Some 8) (Some 2))
         storage_of_ten
       = (storage_of_ten, Ok (StorageView Storage slice_ idx_map))
       /\ sequence_slice 10 (mkSlice (Some 0) (Some 8) (Some 2)) = Ok idx_map.
Proof.
  assert (Hstart : plain_start 10 (mkSlice (Some 0) (Some 8) (Some 2)))
    by (vm_compute; split; discriminate).
  assert (Hstop : plain_stop 10 (mkSlice (Some 0) (Some 8) (Some 2)))
    by (vm_compute; split; [reflexivity|discriminate]).
  split; [reflexivity|]. split; [exact Hstart|]. split; [exact Hstop|].
  split; [reflexivity|].
  destruct (view_of_plain_slice_follows_python Slots InMemoryStorage Storage
              (mkSlice (Some 0) (Some 8) (Some 2)) storage_of_ten 10)
    as [(start_ & stop_ & last & idx_map & Hinit & _ & _ & _ & _ & _ & _
         & Hplain & _) _].
  - reflexivity.
  - discriminate.
  - discriminate.
  - exists (start_, stop_, 2), idx_map. split; [exact Hinit|].
    exact (Hplain Hstart Hstop).
Defined.

(** Counterexample to claim C5 as stated.  On the storage of length 10,
    [slice(-3, None)] yields the thirteen indices from -3 to 9 where Python
    yields [[7; 8; 9]], and [slice(8, 12)] yields [[8; 9; 10; 11]] where
    Python yields [[8; 9]]: a given bound is neither counted from the end
    nor cut down to the length of the parent.  A given bound of 0 is read
    as left out: [slice(None, 0)] yields all ten indices where Python
    yields none, [slice(0, None, -1)] yields [[9; ...; 0]] where Python
    yields [[0]], and [slice(5, 0, -1)] runs from 5 down to -10 where
    Python yields [[5; 4; 3; 2; 1]]. *)
Lemma view_takes_given_bounds_as_they_are :
  (len_of Storage storage_of_ten).2 = Ok 10
  /\ (StorageView___init__ Storage (mkSlice (Some (-3)) None None)
        storage_of_ten).2
     = Ok (StorageView Storage (-3, 10, 1)
             [-3; -2; -1; 0; 1; 2; 3; 4; 5; 6; 7; 8; 9])
  /\ sequence_slice 10 (mkSlice (Some (-3)) None None) = Ok [7; 8; 9]
  /\ (StorageView___init__ Storage (mkSlice (Some 8) (Some 12) None)
        storage_of_ten).2
     = Ok (StorageView Storage (8, 12, 1) [8; 9; 10; 11])
  /\ sequence_slice 10 (mkSlice (Some 8) (Some 12) None) = Ok [8; 9]
  /\ (StorageView___init__ Storage (mkSlice None (Some 0) None)
        storage_of_ten).2
     = Ok (StorageView Storage (0, 10, 1) [0; 1; 2; 3; 4; 5; 6; 7; 8; 9])
  /\ sequence_slice 10 (mkSlice None (Some 0) None) = Ok []
  /\ (StorageView___init__ Storage (mkSlice (Some 0) None (Some (-1)))
        storage_of_ten).2
     = Ok (StorageView Storage (9, -11, -1) [9; 8; 7; 6; 5; 4; 3; 2; 1; 0])
  /\ sequence_slice 10 (mkSlice (Some 0) None (Some (-1))) = Ok [0]
  /\ (StorageView___init__ Storage (mkSlice (Some 5) (Some 0) (Some (-1)))
        storage_of_ten).2
     = Ok (StorageView Storage (5, -11, -1)
             [5; 4; 3; 2; 1; 0; -1; -2; -3; -4; -5; -6; -7; -8; -9; -10])
  /\ sequence_slice 10 (mkSlice (Some 5) (Some 0) (Some (-1)))
     = Ok [5; 4; 3; 2; 1].
Proof. repeat split; reflexivity. Qed.

(** ** Snapshots *)

(** Claim C6.  Restoring an in-memory storage [T] from the snapshot of an
    in-memory storage [S] (whose [capacity_items] is not negative, as for
    every constructed storage) succeeds and makes every capacity, every
    counter, [oldest_slot], [eviction_started] and the slots of [T] those of
    [S]; the hit counts of [T] are [capacity_items] zeros, whatever the hit
    counts of [S] and of [T] were. *)
Theorem set_state_of_get_state (S T : LocalStorage Slots) :
  0 <= _capacity_items S ->
  let restored := InMemoryStorage_set_state (InMemoryStorage_get_state S) T in
  restored.2 = Ok tt
  /\ _capacity_ts restored.1 = _capacity_ts S
  /\ _capacity_items restored.1 = _capacity_items S
  /\ _capacity_bytes restored.1 = _capacity_bytes S
  /\ _num_items restored.1 = _num_items S
  /\ _oldest_item_idx restored.1 = _oldest_item_idx S
  /\ _eviction_started restored.1 = _eviction_started S
  /\ _num_timesteps_added restored.1 = _num_timesteps_added S
  /\ _num_timesteps restored.1 = _num_timesteps S
  /\ _size_bytes restored.1 = _size_bytes S
  /\ _samples restored.1 = _samples S
  /\ _hit_count restored.1 = replicate (Z.to_nat (_capacity_items S)) 0
  /\ len_ (_hit_count restored.1) = _capacity_items S.
Proof.
  intros Hcap restored.
  assert (Hrestored : restored
    = ({| _capacity_ts := _capacity_ts S;
          _capacity_items := _capacity_items S;
          _capacity_bytes := _capacity_bytes S;
          _eviction_started := _eviction_started S;
          _num_items := _num_items S;
          _oldest_item_idx := _oldest_item_idx S;
          _num_timesteps_added := _num_timesteps_added S;
          _num_timesteps := _num_timesteps S;
          _hit_count := replicate (Z.to_nat (_capacity_items S)) 0;
          _evicted_hit_stats := _evicted_hit_stats T;
          _size_bytes := _size_bytes S;
          est_final_size := est_final_size T;
          _samples := _samples S |}, Ok tt)).
  { subst restored. set (state := InMemoryStorage_get_state S).
    assert (Hsamples : state !! "_samples" = Some (PySamples (_samples S)))
      by reflexivity.
    assert (Hcts : state !! "_capacity_ts"
                   = Some (of_capacity (_capacity_ts S))) by reflexivity.
    assert (Hci : state !! "_capacity_items"
                  = Some (PyInt (_capacity_items S))) by reflexivity.
    assert (Hcb : state !! "_capacity_bytes"
                  = Some (of_capacity (_capacity_bytes S))) by reflexivity.
    assert (Hn : state !! "_num_items" = Some (PyInt (_num_items S)))
      by reflexivity.
    assert (Ho : state !! "_oldest_item_idx"
                 = Some (PyInt (_oldest_item_idx S))) by reflexivity.
    assert (He : state !! "_eviction_started"
                 = Some (PyBool (_eviction_started S))) by reflexivity.
    assert (Ha : state !! "_num_timesteps_added"
                 = Some (PyInt (_num_timesteps_added S))) by reflexivity.
    assert (Ht : state !! "_num_timesteps"
                 = Some (PyInt (_num_timesteps S))) by reflexivity.
    assert (Hs : state !! "_size_bytes" = Some (PyInt (_size_bytes S)))
      by reflexivity.
    clearbody state.
    assert (Hneg : (_capacity_items S <? 0) = false)
      by (apply Z.ltb_ge; lia).
    unfold InMemoryStorage_set_state, LocalStorage_set_state, bind, lift,
      modify, get, item_samples, item_int, item_bool, item_capacity, np_zeros.
    rewrite Hsamples, Hcts, Hci, Hcb, Hn, Ho, He, Ha, Ht, Hs.
    destruct (_capacity_ts S), (_capacity_bytes S);
      cbn [of_capacity _capacity_items set_capacity_ts set_capacity_items
           set_capacity_bytes set_num_items set_oldest_item_idx
           set_eviction_started set_num_timesteps_added set_num_timesteps
           set_size_bytes set_samples];
      rewrite Hneg; reflexivity. }
  rewrite Hrestored. simpl. repeat split.
  unfold len_. rewrite length_replicate. lia.
Qed.

Lemma set_state_of_get_state_witness :
  0 <= _capacity_items (self storage_BFC)
  /\ _hit_count (self (__getitem__ 0 0 storage_BFC).1) = [0; 1; 0]
  /\ _hit_count
       (InMemoryStorage_set_state
          (InMemoryStorage_get_state (self (__getitem__ 0 0 storage_BFC).1))
          (self (__getitem__ 0 0 storage_BFC).1)).1
     = [0; 0; 0].
Proof.
  assert (Hcap : 0 <= _capacity_items (self (__getitem__ 0 0 storage_BFC).1))
    by (vm_compute; discriminate).
  split; [vm_compute; discriminate|]. split; [vm_compute; reflexivity|].
  destruct (set_state_of_get_state (self (__getitem__ 0 0 storage_BFC).1)
              (self (__getitem__ 0 0 storage_BFC).1) Hcap)
    as (_ & _ & _ & _ & _ & _ & _ & _ & _ & _ & _ & Hhits & _).
  rewrite Hhits. vm_compute. reflexivity.
Defined.

(** ** The reservoir policy *)

Section Reservoir.
Context {B : Type} `{Backend B}.

(** Before the storage has begun evicting, the item goes to
    [ReplayBuffer._add_single_batch], which is called through the class with
    the item alone: the item is bound to [self], nothing is bound to [item],
    and the call raises [TypeError].  The add is counted, the storage is not
    touched. *)
Lemma _add_single_batch_before_eviction entropy avail item
    (b : ReservoirBuffer B) :
  _eviction_started (self (_storage b)) = false ->
  _add_single_batch entropy avail item b
  = (mkReservoirBuffer (_storage b) (_num_add_calls b + 1) (_num_evicted b),
     Raise TypeError).
Proof.
  intros Hstarted.
  unfold _add_single_batch, bind, modify, on_storage, zoom, attr. simpl.
  now rewrite Hstarted.
Qed.

(** Once the storage has begun evicting, the add is counted, an index [j]
    is drawn from [0 .. n - 1] for the new count [n], and the item replaces
    logical slot [j] through [__setitem__], counted as an eviction, when
    [j] is below the number of stored items; otherwise it is dropped. *)
Lemma _add_single_batch_after_eviction entropy avail item
    (b : ReservoirBuffer B) :
  _eviction_started (self (_storage b)) = true ->
  0 <= _num_add_calls b ->
  let n := _num_add_calls b + 1 in
  let j := entropy mod n in
  0 <= j <= n - 1
  /\ _add_single_batch entropy avail item b
     = if j <? _num_items (self (_storage b)) then
         (mkReservoirBuffer (__setitem__ avail j item (_storage b)).1 n
            (_num_evicted b + 1),
          (__setitem__ avail j item (_storage b)).2)
       else (mkReservoirBuffer (_storage b) n (_num_evicted b), Ok tt).
Proof.
  intros Hstarted Hcalls n j.
  assert (Hj : 0 <= j < n) by (apply Z.mod_pos_bound; lia).
  split; [lia|].
  unfold _add_single_batch, bind, modify, on_storage, zoom, attr, get, lift,
    random_randint, len. simpl.
  rewrite Hstarted. cbn [_num_add_calls _storage _num_evicted].
  assert (Hrange : (_num_add_calls b + 1 - 1 <? 0) = false)
    by (apply Z.ltb_ge; lia).
  rewrite Hrange.
  replace (_num_add_calls b + 1 - 1 - 0 + 1) with n by (unfold n; lia).
  rewrite Z.add_0_l. fold j. fold n.
  destruct (j <? _num_items (self (_storage b))); [|done].
  cbn [_num_add_calls _storage _num_evicted].
  now destruct (__setitem__ avail j item (_storage b)).
Qed.
End Reservoir.

(** Claim C4 at a failing input.  On a new reservoir buffer over the empty
    sample storage, which has not begun evicting, the add of A is counted
    and then fails with [TypeError] instead of going to the FIFO [add] of
    the storage, which stays empty. *)
Theorem reservoir_add_before_eviction_raises :
  _eviction_started (self (_storage new_buffer)) = false
  /\ _add_single_batch 0 plenty batch_A new_buffer
     = (mkReservoirBuffer (fresh empty_storage) 1 0, Raise TypeError)
  /\ (on_storage (add plenty batch_A) new_buffer).2 = Ok tt
  /\ _num_items (self (_storage (on_storage (add plenty batch_A)
                                   new_buffer).1)) = 1.
Proof. repeat split; reflexivity. Qed.

(** Two adds on the buffer over the sample storage that holds B, F, C and
    has begun evicting: with the draw 0 the item replaces logical slot 0,
    with the draw 4 it is dropped. *)
Example reservoir_add_replaces_drawn_slot :
  let b := (_add_single_batch 5 plenty batch_D buffer_BFC).1 in
  (_add_single_batch 5 plenty batch_D buffer_BFC).2 = Ok tt
  /\ (_num_add_calls b, _num_evicted b) = (5, 1)
  /\ _samples (self (_storage b)) !! slot_of (self (_storage b)) 0
     = Some (Some batch_D).
Proof. vm_compute. repeat split. Qed.

Example reservoir_add_drops_item :
  _add_single_batch 4 plenty batch_D buffer_BFC
  = (mkReservoirBuffer storage_BFC 5 0, Ok tt).
Proof. vm_compute. reflexivity. Qed.

(* ================================================================= *)
(** * Part III: further properties of the code *)
(* ================================================================= *)

(** ** Index translation *)

(** [_get_internal_index] and [_get_external_index] are inverse to each
    other on [0 .. capacity_items - 1], whatever the oldest slot is, they
    stay within that range, they leave the storage alone, and both refuse a
    negative index with [IndexError]. *)
Theorem index_translation_round_trip (B : Type) (w : World B) :
  0 < _capacity_items (self w) ->
  0 <= _oldest_item_idx (self w) < _capacity_items (self w) ->
  (forall i, 0 <= i < _capacity_items (self w) ->
     exists p, _get_internal_index i w = (w, Ok p)
               /\ 0 <= p < _capacity_items (self w)
               /\ _get_external_index p w = (w, Ok i))
  /\ (forall p, 0 <= p < _capacity_items (self w) ->
        exists i, _get_external_index p w = (w, Ok i)
                  /\ 0 <= i < _capacity_items (self w)
                  /\ _get_internal_index i w = (w, Ok p))
  /\ (forall i, i < 0 ->
        _get_internal_index i w = (w, Raise IndexError)
        /\ _get_external_index i w = (w, Raise IndexError)).
Proof.
  intros Hcap Ho.
  set (o := _oldest_item_idx (self w)) in *.
  set (c := _capacity_items (self w)) in *.
  assert (Hint : forall i, 0 <= i ->
            _get_internal_index i w = (w, Ok ((o + i) mod c))).
  { intros i Hi. unfold _get_internal_index, bind, attr, ret.
    assert (Hneg : (i <? 0) = false) by (apply Z.ltb_ge; lia).
    rewrite Hneg. simpl. fold o c. now rewrite Z.max_r by lia. }
  assert (Hext : forall p, 0 <= p ->
            _get_external_index p w
            = (w, Ok (if o <=? p then p - o else p + c - o))).
  { intros p Hp. unfold _get_external_index, bind, attr, ret.
    assert (Hneg : (p <? 0) = false) by (apply Z.ltb_ge; lia).
    rewrite Hneg. simpl. fold o c. now destruct (o <=? p). }
  split; [|split].
  - intros i Hi. exists ((o + i) mod c).
    pose proof (Z.mod_pos_bound (o + i) c Hcap) as Hb.
    split; [apply Hint; lia|]. split; [done|].
    rewrite Hext by lia. do 2 f_equal.
    destruct (decide (o + i < c)) as [Hlt|Hge].
    + rewrite Z.mod_small by lia.
      destruct (Z.leb_spec o (o + i)); lia.
    + replace ((o + i) mod c) with (o + i - c)
        by (apply (Z.mod_unique (o + i) c 1); lia).
      destruct (Z.leb_spec o (o + i - c)); lia.
  - intros p Hp. exists (if o <=? p then p - o else p + c - o).
    split; [apply Hext; lia|].
    destruct (Z.leb_spec o p) as [Hle|Hgt].
    + split; [lia|]. rewrite Hint by lia. do 2 f_equal.
      replace (o + (p - o)) with p by lia. now apply Z.mod_small.
    + split; [lia|]. rewrite Hint by lia. do 2 f_equal.
      symmetry. apply (Z.mod_unique (o + (p + c - o)) c 1); lia.
  - intros i Hi. apply Z.ltb_lt in Hi.
    unfold _get_internal_index, _get_external_index. now rewrite Hi.
Qed.

Lemma index_translation_round_trip_witness :
  0 < _capacity_items (self storage_BFC)
  /\ 0 <= _oldest_item_idx (self storage_BFC)
       < _capacity_items (self storage_BFC)
  /\ exists p, _get_internal_index 2 storage_BFC = (storage_BFC, Ok p)
               /\ 0 <= p < _capacity_items (self storage_BFC)
               /\ _get_external_index p storage_BFC = (storage_BFC, Ok 2).
Proof.
  assert (Hcap : 0 < _capacity_items (self storage_BFC)) by reflexivity.
  assert (Ho : 0 <= _oldest_item_idx (self storage_BFC)
               < _capacity_items (self storage_BFC))
    by (vm_compute; split; [discriminate|reflexivity]).
  split; [exact Hcap|]. split; [exact Ho|].
  apply (index_translation_round_trip Slots storage_BFC Hcap Ho).
  vm_compute. split; [discriminate|reflexivity].
Defined.

(** A key within [0 .. n - 1] passes the loops untouched, with any fuel. *)
Lemma wrap_key_in_range fuel n key :
  0 <= key < n -> wrap_key fuel n key = Ok key.
Proof.
  intros Hkey. unfold wrap_key. rewrite while_negative_done by lia.
  assert (Hlt : (n <=? key) = false) by (apply Z.leb_gt; lia).
  destruct fuel; simpl; now rewrite Hlt.
Qed.

Lemma wp_equation_result {St A} (m : M St A) s r :
  wp m s (fun _ r1 => r1 = r) -> (m s).2 = r.
Proof. now unfold wp. Qed.
(** FIFO order.  A call of [add] that stores its item on a well-formed
    storage in memory evicts the [k] oldest items, for some [k], and appends
    the new item to the logical order: the contents become
    [drop k contents ++ [item]].  The number of items, the live counters and
    the eviction flag change accordingly, and the storage stays
    well-formed. *)
Theorem add_is_fifo avail item (w : World Slots) :
  well_formed (self w) -> count item <= _capacity_items (self w) ->
  (add avail item w).2 = Ok tt ->
  let s := self w in
  let s' := self (add avail item w).1 in
  exists k : nat,
    (k <= length (logical s))%nat
    /\ logical s' = drop k (logical s) ++ [Some item]
    /\ evictions_during w (add avail item w).1 = Z.of_nat k
    /\ _num_timesteps s'
       = _num_timesteps s - timesteps_of (take k (logical s)) + count item
    /\ _size_bytes s'
       = _size_bytes s - bytes_of (take k (logical s)) + size_bytes item
    /\ _eviction_started s' = _eviction_started s || bool_decide (0 < k)%nat
    /\ well_formed s'.
Proof.
  intros Hwf Hcount Hok s s'.
  destruct (add_stored avail item w Hwf Hcount Hok)
    as (k & Hk & Hl & Hn & Hrest).
  exists k. split; [done|]. split; [done|]. split; [|exact Hrest].
  unfold evictions_during. lia.
Qed.

Lemma add_is_fifo_witness :
  well_formed (self storage_ABC)
  /\ count batch_E <= _capacity_items (self storage_ABC)
  /\ logical (self storage_ABC) = [Some batch_A; Some batch_B; Some batch_C]
  /\ logical (self (add plenty batch_E storage_ABC).1)
     = [Some batch_C; Some batch_E]
  /\ exists k : nat,
       logical (self (add plenty batch_E storage_ABC).1)
       = drop k (logical (self storage_ABC)) ++ [Some batch_E].
Proof.
  assert (Hcount : count batch_E <= _capacity_items (self storage_ABC))
    by (vm_compute; discriminate).
  split; [apply storage_ABC_well_formed|]. split; [exact Hcount|].
  split; [vm_compute; reflexivity|]. split; [vm_compute; reflexivity|].
  destruct (add_is_fifo plenty batch_E storage_ABC storage_ABC_well_formed
              Hcount) as (k & _ & Hl & _).
  - vm_compute. reflexivity.
  - exists k. exact Hl.
Defined.

(** The live counters stay the sums over the stored items.  If
    [num_timesteps] and [size_bytes] are the timesteps and bytes of the
    items of a well-formed storage in memory, they still are after a call
    of [add] that returns; a newly constructed storage starts that way. *)
Theorem add_keeps_accounted avail item (w : World Slots) :
  well_formed (self w) -> accounted (self w) ->
  (add avail item w).2 = Ok tt ->
  accounted (self (add avail item w).1)
  /\ (forall capacity_items capacity_ts capacity_bytes s,
        InMemoryStorage___init__ capacity_items capacity_ts capacity_bytes
        = Ok s -> accounted s).
Proof.
  intros Hwf [Hts Hsz] Hok. split.
  - destruct (decide (count item <= _capacity_items (self w))) as [Hc|Hc].
    2: { rewrite add_oversized by lia. done. }
    destruct (add_stored avail item w Hwf Hc Hok)
      as (k & _ & Hl & _ & Hts' & Hsz' & _).
    split.
    + rewrite Hts', Hl, timesteps_of_app, Hts. simpl.
      rewrite (timesteps_of_take_drop k (logical (self w))) at 1. lia.
    + rewrite Hsz', Hl, bytes_of_app, Hsz. simpl.
      rewrite (bytes_of_take_drop k (logical (self w))) at 1. lia.
  - intros ci cts cb s Hinit.
    destruct (InMemoryStorage___init___well_formed _ _ _ _ Hinit) as [_ Hn].
    unfold InMemoryStorage___init__, LocalStorage___init__ in Hinit.
    destruct (negb _); [done|]. destruct (np_zeros ci); try done.
    injection Hinit as <-. unfold accounted, logical. now simpl.
Qed.

Lemma add_keeps_accounted_witness :
  well_formed (self storage_ABC) /\ accounted (self storage_ABC)
  /\ accounted (self (add plenty batch_E storage_ABC).1).
Proof.
  assert (Hacc : accounted (self storage_ABC)) by (split; reflexivity).
  split; [apply storage_ABC_well_formed|]. split; [exact Hacc|].
  apply (add_keeps_accounted plenty batch_E storage_ABC
           storage_ABC_well_formed Hacc).
  vm_compute. reflexivity.
Defined.

(** ** Reading the logical order *)

Lemma held_logical s i item :
  0 <= i < _num_items s ->
  _samples s !! slot_of s i = Some (Some item) ->
  logical s !! Z.to_nat i = Some (Some item).
Proof.
  intros Hi Hitem. rewrite logical_lookup by lia.
  unfold held. now rewrite Z2Nat.id, Hitem by lia.
Qed.

Lemma logical_held s i item :
  well_formed s -> 0 <= i < _num_items s ->
  logical s !! Z.to_nat i = Some (Some item) ->
  _samples s !! slot_of s i = Some (Some item).
Proof.
  intros Hwf Hi Hl. destruct (wf_occupied _ Hwf i Hi) as [x Hx].
  rewrite (held_logical s i x Hi Hx) in Hl. now injection Hl as ->.
Qed.

Lemma well_formed_set_hit_count hits (s : LocalStorage Slots) :
  well_formed s -> length hits = length (_hit_count s) ->
  well_formed (set_hit_count hits s).
Proof.
  intros [] Hlen. split; try done.
  simpl. unfold len_ in *. now rewrite Hlen.
Qed.

(** [__getitem__] reads the logical order: position [key mod num_items]. *)
Lemma __getitem___reads_logical fuel key (w : World Slots) :
  well_formed (self w) -> 0 < _num_items (self w) ->
  Z.abs key <= Z.of_nat fuel ->
  exists item,
    logical (self w) !! Z.to_nat (key mod _num_items (self w))
    = Some (Some item)
    /\ (__getitem__ fuel key w).2 = Ok (Some item)
    /\ well_formed (self (__getitem__ fuel key w).1)
    /\ logical (self (__getitem__ fuel key w).1) = logical (self w).
Proof.
  intros Hwf Hn Hfuel.
  destruct (__getitem___in_memory fuel key w Hwf Hn Hfuel)
    as (h & item & _ & Hitem & Hget).
  pose proof (Z.mod_pos_bound key _ Hn) as Hi.
  exists item. rewrite Hget. simpl.
  split; [now apply held_logical|]. split; [done|]. split.
  - apply well_formed_set_hit_count; [done|]. now rewrite length_insert.
  - now apply logical_same_ring.
Qed.

(** A key within [0 .. num_items - 1] needs no wrapping: the read counts
    one hit on the slot of the key and returns what the slot holds, whatever
    the fuel. *)
Lemma __getitem___in_range_full fuel key (w : World Slots) :
  0 < _capacity_items (self w) -> 0 <= _oldest_item_idx (self w) ->
  len_ (_hit_count (self w)) = _capacity_items (self w) ->
  len_ (_samples (self w)) = _capacity_items (self w) ->
  0 <= key < _num_items (self w) ->
  __getitem__ fuel key w
  = (mkWorld
       (set_hit_count (bump (self w) (_hit_count (self w)) key) (self w))
       (logger w) (logged_once w),
     Ok (held (self w) key)).
Proof.
  intros Hcap Hold Hhits Hsamples Hkey.
  pose proof (slot_of_bound (self w) key Hcap) as Hb.
  assert (Hph : (slot_of (self w) key < length (_hit_count (self w)))%nat)
    by (unfold slot_of, len_ in *; lia).
  assert (Hps : (slot_of (self w) key < length (_samples (self w)))%nat)
    by (unfold slot_of, len_ in *; lia).
  destruct (lookup_lt_is_Some_2 _ _ Hph) as [h Hh].
  destruct (lookup_lt_is_Some_2 _ _ Hps) as [x Hx].
  apply wp_equation. unfold __getitem__. wp_steps.
  rewrite wrap_key_in_range by done. wp_steps.
  apply wp__get_internal_index.
  assert (Hneg : (key <? 0) = false) by (apply Z.ltb_ge; lia).
  rewrite Hneg, Z.max_r by lia. wp_steps.
  rewrite (list_getitem_in_range _ _ h) by (done || lia).
  wp_steps. apply wp_store_hit_count.
  rewrite list_setitem_in_range by lia.
  in_memory. unfold InMemoryStorage__get. wp_steps. simpl.
  rewrite (list_getitem_in_range _ _ x) by (done || lia).
  unfold held, bump. fold (slot_of (self w) key). now rewrite Hx, Hh.
Qed.

Lemma __getitem___in_range fuel key (w : World Slots) :
  0 < _capacity_items (self w) -> 0 <= _oldest_item_idx (self w) ->
  len_ (_hit_count (self w)) = _capacity_items (self w) ->
  len_ (_samples (self w)) = _capacity_items (self w) ->
  0 <= key < _num_items (self w) ->
  (__getitem__ fuel key w).2 = Ok (held (self w) key).
Proof. intros. now rewrite __getitem___in_range_full. Qed.

(** Insert and look up.  After a call of [add] that stored its item on a
    well-formed storage in memory, the item is the newest: index [-1] and
    index [num_items - 1] both read it.  Every older item that is still
    held has moved down by the number of evictions: index [i] now reads
    what index [i + k] read before. *)
Theorem add_then_get avail item (w : World Slots) :
  well_formed (self w) -> count item <= _capacity_items (self w) ->
  (add avail item w).2 = Ok tt ->
  let w' := (add avail item w).1 in
  let k := evictions_during w w' in
  (forall fuel, (1 <= fuel)%nat ->
     (__getitem__ fuel (-1) w').2 = Ok (Some item))
  /\ (forall fuel, (__getitem__ fuel (_num_items (self w') - 1) w').2
                   = Ok (Some item))
  /\ (forall fuel i old,
        0 <= i < _num_items (self w') - 1 ->
        logical (self w) !! Z.to_nat (i + k) = Some (Some old) ->
        (__getitem__ fuel i w').2 = Ok (Some old)).
Proof.
  intros Hwf Hcount Hok w' k.
  destruct (add_stored avail item w Hwf Hcount Hok)
    as (k0 & Hk0 & Hl & Hn & _ & _ & _ & Hwf').
  fold w' in Hl, Hn, Hwf'.
  assert (Hk : k = Z.of_nat k0) by (unfold k, evictions_during; lia).
  assert (Hn' : _num_items (self w') = Z.of_nat (length (logical (self w))) - k + 1).
  { rewrite logical_length. pose proof (wf_num_items _ Hwf). lia. }
  assert (Hpos : 0 < _num_items (self w')) by lia.
  assert (Hlast : logical (self w') !! Z.to_nat (_num_items (self w') - 1)
                  = Some (Some item)).
  { rewrite Hl, lookup_app_r by (rewrite length_drop; lia).
    rewrite length_drop.
    replace (Z.to_nat (_num_items (self w') - 1)
             - (length (logical (self w)) - k0))%nat with 0%nat by lia.
    done. }
  assert (Hread : forall fuel key x,
            0 <= key < _num_items (self w') ->
            logical (self w') !! Z.to_nat key = Some (Some x) ->
            (__getitem__ fuel key w').2 = Ok (Some x)).
  { intros fuel key x Hkey Hx.
    rewrite __getitem___in_range; try apply Hwf'; try done.
    rewrite logical_lookup, Z2Nat.id in Hx by lia. now injection Hx as ->. }
  split; [|split].
  - intros fuel Hfuel.
    destruct (__getitem___reads_logical fuel (-1) w' Hwf' Hpos)
      as (x & Hx & Hget & _); [lia|].
    replace (-1 mod _num_items (self w'))
      with (_num_items (self w') - 1) in Hx
      by (apply (Z.mod_unique (-1) _ (-1)); lia).
    rewrite Hlast in Hx. now injection Hx as <-.
  - intros fuel. apply Hread; [lia|done].
  - intros fuel i old Hi Hold. apply Hread; [lia|].
    rewrite Hl, lookup_app_l by (rewrite length_drop; lia).
    rewrite lookup_drop. rewrite <- Hold. f_equal. lia.
Qed.

Lemma add_then_get_witness :
  well_formed (self storage_ABC)
  /\ count batch_E <= _capacity_items (self storage_ABC)
  /\ (add plenty batch_E storage_ABC).2 = Ok tt
  /\ evictions_during storage_ABC (add plenty batch_E storage_ABC).1 = 2
  /\ (__getitem__ 1 (-1) (add plenty batch_E storage_ABC).1).2
     = Ok (Some batch_E)
  /\ (__getitem__ 0 0 (add plenty batch_E storage_ABC).1).2
     = Ok (Some batch_C).
Proof.
  assert (Hcount : count batch_E <= _capacity_items (self storage_ABC))
    by (vm_compute; discriminate).
  assert (Hok : (add plenty batch_E storage_ABC).2 = Ok tt)
    by (vm_compute; reflexivity).
  assert (Hk : evictions_during storage_ABC (add plenty batch_E storage_ABC).1
               = 2) by (vm_compute; reflexivity).
  split; [apply storage_ABC_well_formed|]. split; [exact Hcount|].
  split; [exact Hok|]. split; [exact Hk|].
  destruct (add_then_get plenty batch_E storage_ABC storage_ABC_well_formed
              Hcount Hok) as (Hnewest & _ & Holder).
  split; [apply Hnewest; lia|].
  apply Holder; [vm_compute; split; [discriminate|reflexivity]|].
  rewrite Hk. vm_compute. reflexivity.
Defined.

(** ** An item that no eviction can make room for *)

Lemma nonnegative_drop k l : nonnegative l -> nonnegative (drop k l).
Proof. apply Forall_drop. Qed.

Lemma nonnegative_sums l :
  nonnegative l -> 0 <= timesteps_of l /\ 0 <= bytes_of l.
Proof.
  induction 1 as [|x l [Hc Hb] _ [IHc IHb]]; simpl; [done|]. lia.
Qed.

(** An item with more timesteps than [capacity_ts], or more bytes than
    [capacity_bytes], but of a size that passes the check against
    [capacity_items]: [add] counts it, evicts every stored item and then
    fails its assertion.  The call raises [AssertionError] on a storage that
    is left empty, with the item counted in [num_timesteps], [size_bytes]
    and [num_timesteps_added] though it was not stored. *)
Theorem add_beyond_capacity_empties_storage avail item (w : World Slots) :
  well_formed (self w) -> accounted (self w) ->
  nonnegative (logical (self w)) ->
  count item <= _capacity_items (self w) ->
  exceeds (count item) (_capacity_ts (self w))
  || exceeds (size_bytes item) (_capacity_bytes (self w)) = true ->
  let s := self w in
  let s' := self (add avail item w).1 in
  (add avail item w).2 = Raise AssertionError
  /\ _num_items s' = 0
  /\ logical s' = []
  /\ _num_timesteps s' = count item
  /\ _size_bytes s' = size_bytes item
  /\ _num_timesteps_added s' = _num_timesteps_added s + count item
  /\ _eviction_started s' = _eviction_started s || (0 <? _num_items s)
  /\ logger (add avail item w).1 = logger w.
Proof.
  intros Hwf [Hts Hsz] Hnn Hcount Hbig s s'.
  pose proof (add_outcome avail item w Hwf Hcount) as Hadd.
  unfold wp in Hadd. destruct Hadd as (k & s1 & Hk & Hwf1 & Hr).
  destruct Hk as (Hkn & Hcts & Hci & Hcb & Hadded & Hest & Hn1 & Hl & Hnts
                  & Hnsz & Hst).
  rewrite logical_counted in *. simpl in *. fold s in Hkn, Hn1, Hl, Hnts, Hnsz, Hst.
  destruct (nonnegative_sums _ (nonnegative_drop k _ Hnn)) as [Hdc Hdb].
  fold s in Hdc, Hdb, Hts, Hsz.
  rewrite (timesteps_of_take_drop k (logical s)) in Hts.
  rewrite (bytes_of_take_drop k (logical s)) in Hsz.
  assert (Hover : over_capacity s1 = true).
  { unfold over_capacity. rewrite Hcts, Hcb.
    apply orb_true_iff in Hbig as [Hbig|Hbig].
    - destruct (_capacity_ts (self w)) as [c|]; [|done]. simpl in *.
      apply Z.ltb_lt in Hbig.
      assert (Hlt : (c <? _num_timesteps s1) = true) by (apply Z.ltb_lt; lia).
      now rewrite Hlt.
    - destruct (_capacity_bytes (self w)) as [c|]; [|done]. simpl in *.
      apply Z.ltb_lt in Hbig.
      assert (Hlt : (c <? _size_bytes s1) = true) by (apply Z.ltb_lt; lia).
      rewrite Hlt. now rewrite orb_true_r. }
  destruct Hr as [(_ & Hno & _)|[(_ & Hno & _)|(Hr & Hzero & _ & Hs' & Hlog)]];
    [congruence|congruence|].
  pose proof (wf_num_items _ Hwf) as Hni. fold s in Hni.
  assert (Hall : k = Z.to_nat (_num_items s)) by lia.
  assert (Hlen := logical_length s).
  rewrite drop_ge in Hl, Hdc, Hdb, Hts, Hsz by lia. simpl in *.
  unfold s'. rewrite Hs', Hlog.
  split; [done|]. split; [done|]. split; [done|]. split; [lia|].
  split; [lia|]. split; [done|]. split.
  - rewrite Hst. f_equal. subst k.
    destruct (Z.ltb_spec 0 (_num_items s)).
    + apply bool_decide_eq_true. lia.
    + apply bool_decide_eq_false. lia.
  - reflexivity.
Qed.

Lemma small_storage_AB_well_formed : well_formed (self small_storage_AB).
Proof.
  apply after_adds_well_formed.
  now destruct (InMemoryStorage___init___well_formed 3 (Finite 2) math_inf
                  small_storage eq_refl).
Qed.

Lemma add_beyond_capacity_empties_storage_witness :
  logical (self small_storage_AB) = [Some batch_A; Some batch_B]
  /\ _capacity_ts (self small_storage_AB) = Finite 2
  /\ count batch_E = 3
  /\ (add plenty batch_E small_storage_AB).2 = Raise AssertionError
  /\ logical (self (add plenty batch_E small_storage_AB).1) = []
  /\ _num_timesteps (self (add plenty batch_E small_storage_AB).1) = 3.
Proof.
  split; [vm_compute; reflexivity|]. split; [vm_compute; reflexivity|].
  split; [reflexivity|].
  destruct (add_beyond_capacity_empties_storage plenty batch_E
              small_storage_AB small_storage_AB_well_formed)
    as (Hr & _ & Hl & Hts & _).
  - split; vm_compute; reflexivity.
  - vm_compute. repeat constructor; discriminate.
  - vm_compute. discriminate.
  - vm_compute. reflexivity.
  - split; [exact Hr|]. split; [exact Hl|]. exact Hts.
Defined.

(** ** Replacing an item *)

Lemma timesteps_of_insert l (i : nat) x y :
  l !! i = Some x ->
  timesteps_of (<[i := y]> l)
  = timesteps_of l - from_option count 0 x + from_option count 0 y.
Proof.
  revert i. induction l as [|z l IH]; intros [|i] Hx; simpl in *; try done.
  - injection Hx as ->. lia.
  - rewrite (IH i Hx). lia.
Qed.

Lemma bytes_of_insert l (i : nat) x y :
  l !! i = Some x ->
  bytes_of (<[i := y]> l)
  = bytes_of l - from_option size_bytes 0 x + from_option size_bytes 0 y.
Proof.
  revert i. induction l as [|z l IH]; intros [|i] Hx; simpl in *; try done.
  - injection Hx as ->. lia.
  - rewrite (IH i Hx). lia.
Qed.

(** [__setitem__] rewrites one position of the logical order. *)
Lemma logical_replaced h old item e slot s i :
  well_formed s -> 0 <= i < _num_items s ->
  logical (replaced h old item e (slot_of s i) slot s)
  = <[Z.to_nat i := slot]> (logical s).
Proof.
  intros Hwf Hi.
  pose proof (wf_capacity _ Hwf) as Hcap.
  pose proof (wf_num_items _ Hwf) as Hni.
  apply logical_ext.
  - rewrite length_insert, logical_length. reflexivity.
  - intros k Hk. simpl in Hk. unfold held, slot_of at 1. simpl.
    fold (slot_of s (Z.of_nat k)).
    destruct (decide (Z.of_nat k = i)) as [Heq|Hne].
    + subst i. rewrite Nat2Z.id.
      rewrite list_lookup_insert_eq by (rewrite logical_length; lia).
      rewrite list_lookup_insert_eq; [done|].
      apply (slot_of_in_range s (Z.of_nat k) Hwf).
    + rewrite list_lookup_insert_ne by lia.
      rewrite logical_lookup by lia. f_equal. unfold held.
      rewrite list_lookup_insert_ne; [done|].
      intros Heq. apply slot_of_inj in Heq; lia.
Qed.

(** What [__setitem__] leaves behind, whether the write went through or
    the forecast stopped it. *)
Lemma __setitem___logical avail i item (w : World Slots) :
  well_formed (self w) -> _eviction_started (self w) = true ->
  0 <= i < _num_items (self w) ->
  let s := self w in
  let s' := self (__setitem__ avail i item w).1 in
  let r := (__setitem__ avail i item w).2 in
  exists old slot,
    logical s !! Z.to_nat i = Some (Some old)
    /\ logical s' = <[Z.to_nat i := slot]> (logical s)
    /\ (r = Ok tt /\ slot = Some item
        \/ (r = Raise ValueError \/ r = Raise ZeroDivisionError)
           /\ slot = None)
    /\ _capacity_items s' = _capacity_items s
    /\ _oldest_item_idx s' = _oldest_item_idx s
    /\ _num_items s' = _num_items s
    /\ _eviction_started s' = true
    /\ len_ (_hit_count s') = _capacity_items s
    /\ len_ (_samples s') = _capacity_items s
    /\ _num_timesteps s' = _num_timesteps s - count old + count item
    /\ _size_bytes s' = _size_bytes s - size_bytes old + size_bytes item
    /\ _num_timesteps_added s' = _num_timesteps_added s + count item.
Proof.
  intros Hwf Hstarted Hi s s' r.
  destruct (__setitem___in_memory avail i item w Hwf Hstarted Hi)
    as (h & old & Hh & Hold & Hset).
  unfold wp in Hset. destruct Hset as (e & records & _ & _ & Hr).
  fold s' r in Hr.
  assert (Hshape : forall slot,
            s' = replaced h old item e (slot_of s i) slot s ->
            logical s' = <[Z.to_nat i := slot]> (logical s)
            /\ _capacity_items s' = _capacity_items s
            /\ _oldest_item_idx s' = _oldest_item_idx s
            /\ _num_items s' = _num_items s
            /\ _eviction_started s' = true
            /\ len_ (_hit_count s') = _capacity_items s
            /\ len_ (_samples s') = _capacity_items s
            /\ _num_timesteps s' = _num_timesteps s - count old + count item
            /\ _size_bytes s' = _size_bytes s - size_bytes old + size_bytes item
            /\ _num_timesteps_added s' = _num_timesteps_added s + count item).
  { intros slot ->. split; [now apply logical_replaced|]. simpl.
    unfold len_. rewrite !length_insert.
    pose proof (wf_hit_count _ Hwf). pose proof (wf_samples _ Hwf).
    unfold len_ in *. auto 10. }
  exists old. destruct Hr as [[Hr Hs']|(Hr & Hs' & _)].
  - exists (Some item). destruct (Hshape _ Hs') as (Hl & Hrest).
    split; [now apply held_logical|]. split; [done|]. split; [auto|done].
  - exists None. destruct (Hshape _ Hs') as (Hl & Hrest).
    split; [now apply held_logical|]. split; [done|]. split; [auto|done].
Qed.

(** Replace and look up.  A call of [__setitem__] that returns, on a
    well-formed storage in memory that has begun evicting, rewrites position
    [i] of the logical order and nothing else of it: the storage stays
    well-formed, holds as many items as before, its counters stay the sums
    over the stored items if they were, and a read of index [i] returns the
    new item. *)
Theorem setitem_replaces_in_place avail i item (w : World Slots) :
  well_formed (self w) -> _eviction_started (self w) = true ->
  0 <= i < _num_items (self w) ->
  (__setitem__ avail i item w).2 = Ok tt ->
  let s := self w in
  let w' := (__setitem__ avail i item w).1 in
  logical (self w') = <[Z.to_nat i := Some item]> (logical s)
  /\ well_formed (self w')
  /\ _num_items (self w') = _num_items s
  /\ (accounted s -> accounted (self w'))
  /\ forall fuel, (__getitem__ fuel i w').2 = Ok (Some item).
Proof.
  intros Hwf Hstarted Hi Hok s w'.
  destruct (__setitem___logical avail i item w Hwf Hstarted Hi)
    as (old & slot & Hold & Hl & Hr & Hc & Ho & Hn & _ & Hh & Hs & Hts & Hsz
        & _).
  fold s w' in Hold, Hl, Hr, Hc, Ho, Hn, Hh, Hs, Hts, Hsz.
  rewrite Hok in Hr.
  destruct Hr as [[_ ->]|[[?|?] _]]; try discriminate.
  pose proof (wf_capacity _ Hwf) as Hcap. pose proof (wf_oldest _ Hwf) as Hoi.
  pose proof (wf_num_items _ Hwf) as Hni. fold s in Hcap, Hoi, Hni, Hi.
  assert (Hheld : forall j, 0 <= j < _num_items (self w') ->
            exists x, held (self w') j = Some x).
  { intros j Hj. rewrite Hn in Hj.
    assert (Hlk : logical (self w') !! Z.to_nat j
                  = Some (held (self w') (Z.of_nat (Z.to_nat j))))
      by (apply logical_lookup; lia).
    rewrite Z2Nat.id in Hlk by lia. rewrite Hl in Hlk.
    destruct (decide (j = i)) as [->|Hne].
    - rewrite list_lookup_insert_eq in Hlk by (rewrite logical_length; lia).
      exists item. now injection Hlk as <-.
    - rewrite list_lookup_insert_ne in Hlk by lia.
      rewrite logical_lookup, Z2Nat.id in Hlk by lia.
      injection Hlk as <-. now apply held_occupied. }
  split; [done|]. split; [|split; [done|split]].
  - split; rewrite ?Hc, ?Ho; try done; [now rewrite Hn|].
    intros j Hj. destruct (Hheld j Hj) as [x Hx]. exists x.
    unfold held in Hx.
    destruct (_samples (self w') !! slot_of (self w') j) as [y|]; [|done].
    simpl in Hx. now subst y.
  - intros [Hats Hasz]. fold s in Hats, Hasz. split.
    + rewrite Hts, Hl, (timesteps_of_insert _ _ (Some old)) by done.
      simpl. lia.
    + rewrite Hsz, Hl, (bytes_of_insert _ _ (Some old)) by done.
      simpl. lia.
  - intros fuel. rewrite __getitem___in_range; rewrite ?Hc, ?Ho, ?Hn; try done;
      try lia.
    destruct (Hheld i ltac:(lia)) as [x Hx].
    assert (Hlk : logical (self w') !! Z.to_nat i = Some (held (self w') i)).
    { rewrite logical_lookup, Z2Nat.id by lia. done. }
    rewrite Hl, list_lookup_insert_eq in Hlk by (rewrite logical_length; lia).
    now injection Hlk as <-.
Qed.

Lemma setitem_replaces_in_place_witness :
  logical (self storage_BFC) = [Some batch_B; Some batch_F; Some batch_C]
  /\ logical (self (__setitem__ plenty 1 batch_A storage_BFC).1)
     = [Some batch_B; Some batch_A; Some batch_C]
  /\ (__getitem__ 0 1 (__setitem__ plenty 1 batch_A storage_BFC).1).2
     = Ok (Some batch_A).
Proof.
  assert (Hl : logical (self storage_BFC)
               = [Some batch_B; Some batch_F; Some batch_C])
    by (vm_compute; reflexivity).
  split; [exact Hl|].
  destruct (setitem_replaces_in_place plenty 1 batch_A storage_BFC
              storage_BFC_well_formed) as (Hl' & _ & _ & _ & Hget).
  - vm_compute. reflexivity.
  - vm_compute. split; [discriminate|reflexivity].
  - vm_compute. reflexivity.
  - split; [|apply Hget]. rewrite Hl', Hl. reflexivity.
Defined.

(** A replacement that the forecast stops loses the old item.  When
    [__setitem__] raises on a well-formed storage in memory that has begun
    evicting, the old item is already deleted and the counters already count
    the new one: position [i] of the logical order is left empty, a read of
    index [i] returns [None], and [num_items] still counts the position. *)
Theorem setitem_rejected_leaves_hole avail i item (w : World Slots) :
  well_formed (self w) -> _eviction_started (self w) = true ->
  0 <= i < _num_items (self w) ->
  (__setitem__ avail i item w).2 <> Ok tt ->
  let s := self w in
  let w' := (__setitem__ avail i item w).1 in
  ((__setitem__ avail i item w).2 = Raise ValueError
   \/ (__setitem__ avail i item w).2 = Raise ZeroDivisionError)
  /\ logical (self w') = <[Z.to_nat i := None]> (logical s)
  /\ _num_items (self w') = _num_items s
  /\ (exists old,
        logical s !! Z.to_nat i = Some (Some old)
        /\ _num_timesteps (self w')
           = _num_timesteps s - count old + count item
        /\ _num_timesteps_added (self w')
           = _num_timesteps_added s + count item)
  /\ (forall fuel, (__getitem__ fuel i w').2 = Ok None)
  /\ ~ well_formed (self w').
Proof.
  intros Hwf Hstarted Hi Hfail s w'.
  destruct (__setitem___logical avail i item w Hwf Hstarted Hi)
    as (old & slot & Hold & Hl & Hr & Hc & Ho & Hn & _ & Hh & Hs & Hts & Hsz
        & Hadded).
  fold s w' in Hold, Hl, Hr, Hc, Ho, Hn, Hh, Hs, Hts, Hsz, Hadded.
  destruct Hr as [[Hr _]|[Hr ->]]; [done|].
  pose proof (wf_capacity _ Hwf) as Hcap. pose proof (wf_oldest _ Hwf) as Hoi.
  pose proof (wf_num_items _ Hwf) as Hni. fold s in Hcap, Hoi, Hni, Hi.
  assert (Hlk : logical (self w') !! Z.to_nat i = Some (held (self w') i)).
  { rewrite logical_lookup, Z2Nat.id by lia. done. }
  rewrite Hl, list_lookup_insert_eq in Hlk by (rewrite logical_length; lia).
  injection Hlk as Hheld.
  split; [done|]. split; [done|]. split; [done|]. split; [eauto|]. split.
  - intros fuel. rewrite __getitem___in_range; rewrite ?Hc, ?Ho, ?Hn; try done;
      try lia.
    now rewrite <- Hheld.
  - intros Hwf'. destruct (held_occupied _ i Hwf') as [x Hx]; [lia|].
    congruence.
Qed.

Lemma setitem_rejected_leaves_hole_witness :
  logical (self storage_BFC) = [Some batch_B; Some batch_F; Some batch_C]
  /\ (__setitem__ scarce 1 batch_A storage_BFC).2 = Raise ValueError
  /\ logical (self (__setitem__ scarce 1 batch_A storage_BFC).1)
     = [Some batch_B; None; Some batch_C]
  /\ (__getitem__ 0 1 (__setitem__ scarce 1 batch_A storage_BFC).1).2
     = Ok None.
Proof.
  assert (Hl : logical (self storage_BFC)
               = [Some batch_B; Some batch_F; Some batch_C])
    by (vm_compute; reflexivity).
  split; [exact Hl|]. split; [vm_compute; reflexivity|].
  destruct (setitem_rejected_leaves_hole scarce 1 batch_A storage_BFC
              storage_BFC_well_formed) as (_ & Hl' & _ & _ & Hget & _).
  - vm_compute. reflexivity.
  - vm_compute. split; [discriminate|reflexivity].
  - vm_compute. discriminate.
  - split; [|apply Hget]. rewrite Hl', Hl. reflexivity.
Defined.

(** ** Reading through views, and iteration *)

Lemma well_formed_bump (s : LocalStorage Slots) hits i :
  well_formed s -> length hits = length (_hit_count s) ->
  well_formed (set_hit_count (bump s hits i) s).
Proof.
  intros Hwf Hlen. apply well_formed_set_hit_count; [done|].
  unfold bump. now rewrite length_insert.
Qed.

Lemma length_of_nonneg storage n : 0 <= n -> 0 <= length_of storage n.
Proof. destruct storage; simpl; unfold len_; lia. Qed.

Lemma len_of_length_of {B} `{Backend B} storage (w : World B) :
  len_of storage w = (w, Ok (length_of storage (_num_items (self w)))).
Proof. now destruct storage. Qed.

(** A position of a storage or view whose index lists are in bounds stands
    for a logical index of the storage. *)
Lemma resolve_in_bounds storage n i :
  in_bounds storage n -> 0 <= i < length_of storage n ->
  0 <= resolve storage i < n.
Proof.
  revert i. induction storage as [|parent IH sl idx_map]; intros i Hb Hi;
    simpl in *; [done|].
  destruct Hb as [Hparent Hmap].
  destruct (lookup_in_range idx_map i Hi) as [idx Hidx].
  rewrite Hidx. simpl. apply IH; [done|].
  now apply (Forall_lookup_1 _ _ _ _ Hmap Hidx).
Qed.

(** A read at a position within a storage or view whose index lists are in
    bounds is one read of the storage, at the logical index the position
    stands for; no key is wrapped on the way, so any fuel will do. *)
Lemma getitem_in_bounds fuel storage i (w : World Slots) :
  well_formed (self w) -> in_bounds storage (_num_items (self w)) ->
  0 <= i < length_of storage (_num_items (self w)) ->
  getitem fuel storage i w
  = (mkWorld
       (set_hit_count
          (bump (self w) (_hit_count (self w)) (resolve storage i)) (self w))
       (logger w) (logged_once w),
     Ok (held (self w) (resolve storage i))).
Proof.
  intros Hwf. revert i.
  induction storage as [|parent IH sl idx_map]; intros i Hb Hi; simpl in *.
  - apply __getitem___in_range_full; try apply Hwf. done.
  - destruct Hb as [Hparent Hmap].
    destruct (lookup_in_range idx_map i Hi) as [idx Hidx].
    unfold bind, lift. rewrite wrap_key_in_range by done.
    rewrite (list_getitem_in_range _ _ idx) by (done || lia).
    rewrite Hidx. simpl. apply IH; [done|].
    now apply (Forall_lookup_1 _ _ _ _ Hmap Hidx).
Qed.

Lemma set_hit_count_same {B} (w : World B) :
  mkWorld (set_hit_count (_hit_count (self w)) (self w)) (logger w)
    (logged_once w) = w.
Proof. destruct w as [[] ? ?]. reflexivity. Qed.

Lemma length_bumped s hits reads :
  length (foldl (bump s) hits reads) = length hits.
Proof.
  revert hits. induction reads as [|i reads IH]; intros hits; simpl; [done|].
  rewrite IH. unfold bump. now rewrite length_insert.
Qed.

(** The loop of [__iter__] from position [i] on. *)
Lemma yield_from_in_bounds fuel storage (todo : nat) i (w : World Slots) :
  well_formed (self w) -> in_bounds storage (_num_items (self w)) ->
  0 <= i -> i + Z.of_nat todo <= length_of storage (_num_items (self w)) ->
  let reads := resolve storage <$> seqZ i (Z.of_nat todo) in
  yield_from fuel storage i todo w
  = (mkWorld
       (set_hit_count (foldl (bump (self w)) (_hit_count (self w)) reads)
          (self w))
       (logger w) (logged_once w),
     Ok (held (self w) <$> reads)).
Proof.
  revert i w. induction todo as [|todo IH]; intros i w Hwf Hb Hi Hend reads.
  - simpl. unfold ret. now rewrite set_hit_count_same.
  - unfold reads. rewrite seqZ_cons by lia.
    replace (Z.pred (Z.of_nat (S todo))) with (Z.of_nat todo) by lia.
    replace (Z.succ i) with (i + 1) by lia.
    simpl. unfold bind at 1.
    rewrite getitem_in_bounds by (done || lia). cbv beta iota.
    set (w1 := mkWorld
                 (set_hit_count
                    (bump (self w) (_hit_count (self w)) (resolve storage i))
                    (self w)) (logger w) (logged_once w)).
    assert (Hwf1 : well_formed (self w1)) by (now apply well_formed_bump).
    unfold bind at 1.
    rewrite (IH (i + 1) w1 Hwf1); [reflexivity|done|lia|simpl; lia].
Qed.

Lemma bumped_elsewhere s hits reads (p : nat) :
  (forall i, i ∈ reads -> slot_of s i <> p) ->
  foldl (bump s) hits reads !! p = hits !! p.
Proof.
  revert hits. induction reads as [|r reads IH]; intros hits Hp; simpl;
    [done|].
  rewrite IH by (intros i Hi; apply Hp; now right).
  unfold bump. apply list_lookup_insert_ne, Hp. now left.
Qed.

Lemma bumped_once s hits reads j h :
  NoDup (slot_of s <$> reads) -> j ∈ reads ->
  hits !! slot_of s j = Some h ->
  foldl (bump s) hits reads !! slot_of s j = Some (wrap_int64 (h + 1)).
Proof.
  revert hits. induction reads as [|r reads IH]; intros hits Hnodup Hj Hh;
    [by apply elem_of_nil in Hj|].
  rewrite fmap_cons in Hnodup. apply NoDup_cons in Hnodup as [Hr Hnodup].
  simpl. destruct (decide (slot_of s j = slot_of s r)) as [Heq|Hne].
  - rewrite bumped_elsewhere.
    + unfold bump. rewrite <- Heq, Hh. simpl.
      apply list_lookup_insert_eq. now apply lookup_lt_Some in Hh.
    + intros i Hi Hslot. apply Hr. rewrite <- Heq, <- Hslot.
      now apply list_elem_of_fmap_2.
  - apply elem_of_cons in Hj as [->|Hj]; [done|].
    apply IH; [done|done|].
    unfold bump. now rewrite list_lookup_insert_ne by done.
Qed.

Lemma logical_seqZ s :
  held s <$> seqZ 0 (_num_items s) = logical s.
Proof.
  unfold logical, seqZ. rewrite <- list_fmap_compose.
  apply list_fmap_ext. intros k x _. simpl. f_equal. lia.
Qed.

Lemma resolve_storage_seqZ n : resolve Storage <$> seqZ 0 n = seqZ 0 n.
Proof. apply list_fmap_id. Qed.

(** [__iter__] over a storage or view whose index lists are in bounds. *)
Lemma __iter___in_bounds fuel storage (w : World Slots) :
  well_formed (self w) -> in_bounds storage (_num_items (self w)) ->
  let s := self w in
  let reads :=
    resolve storage <$> seqZ 0 (length_of storage (_num_items s)) in
  __iter__ fuel storage w
  = (mkWorld (set_hit_count (bumped s reads) s) (logger w) (logged_once w),
     Ok (held s <$> reads)).
Proof.
  intros Hwf Hb s reads. unfold reads.
  pose proof (wf_num_items _ Hwf) as Hni. fold s in Hni.
  unfold __iter__, bind. rewrite len_of_length_of. fold s.
  pose proof (length_of_nonneg storage _ (proj1 Hni)) as Hlen.
  rewrite yield_from_in_bounds by (done || (fold s; lia)).
  fold s. now rewrite Z2Nat.id by done.
Qed.

(** Iteration.  Run to its end, the iterator of a well-formed storage in
    memory, or of a view whose index lists are in bounds, yields what is
    held at the positions it stands for, in order, whatever the fuel: no
    key is wrapped, so the loop ends, at once on an empty storage.  The
    iterator of the storage itself yields its contents from the oldest item
    to the newest and raises the hit count of each of them by one; the hit
    counts of the free slots, the contents and their order stay as they
    were. *)
Theorem iter_yields_contents_in_order fuel storage (w : World Slots) :
  well_formed (self w) -> in_bounds storage (_num_items (self w)) ->
  let s := self w in
  let reads :=
    resolve storage <$> seqZ 0 (length_of storage (_num_items s)) in
  __iter__ fuel storage w
  = (mkWorld (set_hit_count (bumped s reads) s) (logger w) (logged_once w),
     Ok (held s <$> reads))
  /\ (__iter__ fuel Storage w).2 = Ok (logical s)
  /\ logical (self (__iter__ fuel storage w).1) = logical s
  /\ well_formed (self (__iter__ fuel storage w).1)
  /\ (forall i h, 0 <= i < _num_items s ->
        _hit_count s !! slot_of s i = Some h ->
        _hit_count (self (__iter__ fuel Storage w).1) !! slot_of s i
        = Some (wrap_int64 (h + 1)))
  /\ (forall p, (forall i, 0 <= i < _num_items s -> slot_of s i <> p) ->
        _hit_count (self (__iter__ fuel Storage w).1) !! p
        = _hit_count s !! p).
Proof.
  intros Hwf Hb s reads.
  pose proof (wf_num_items _ Hwf) as Hni. fold s in Hni.
  pose proof (wf_capacity _ Hwf) as Hcap. fold s in Hcap.
  pose proof (fun storage0 => __iter___in_bounds fuel storage0 w Hwf) as Hiter.
  simpl in Hiter. fold s in Hiter.
  assert (Hstorage := Hiter Storage I). simpl in Hstorage.
  rewrite resolve_storage_seqZ in Hstorage.
  split; [now apply Hiter|]. rewrite (Hiter storage Hb), Hstorage. simpl.
  split; [now rewrite logical_seqZ|]. split; [now apply logical_same_ring|].
  split.
  { apply well_formed_set_hit_count; [done|]. apply length_bumped. }
  split.
  - intros i h Hi Hh. apply bumped_once; [|now apply elem_of_seqZ; lia|done].
    apply NoDup_fmap_2_strong; [|apply NoDup_seqZ].
    intros x y Hx Hy Heq. apply elem_of_seqZ in Hx, Hy.
    apply (slot_of_inj s) in Heq; lia.
  - intros p Hp. apply bumped_elsewhere. intros i Hi.
    apply elem_of_seqZ in Hi. apply Hp. lia.
Qed.

Lemma iter_yields_contents_in_order_witness :
  well_formed (self storage_BFC)
  /\ (__iter__ 0 Storage storage_BFC).2
     = Ok [Some batch_B; Some batch_F; Some batch_C]
  /\ (__iter__ 0 (StorageView Storage (2, 0, -2) [2; 0]) storage_BFC).2
     = Ok [Some batch_C; Some batch_B].
Proof.
  split; [apply storage_BFC_well_formed|].
  destruct (iter_yields_contents_in_order 0 Storage storage_BFC
              storage_BFC_well_formed I) as (_ & Hstorage & _).
  destruct (iter_yields_contents_in_order 0
              (StorageView Storage (2, 0, -2) [2; 0]) storage_BFC
              storage_BFC_well_formed) as (Hview & _).
  - vm_compute. split; [exact I|]. repeat constructor; discriminate.
  - split; [rewrite Hstorage|rewrite Hview]; vm_compute; reflexivity.
Defined.

(** ** Views *)

Lemma or__nonzero x d : d <> 0 -> or_ x d <> 0.
Proof.
  intros Hd. unfold or_. destruct x as [v|]; [|done].
  now destruct (Z.eqb_spec v 0).
Qed.

(** Creating a view never fails and never touches the storage, whatever
    the slice: a step of zero, for which Python's own sequences raise
    [ValueError], is falsy and therefore read as a step of one, so the
    view of [slice(a, b, 0)] is the view of [slice(a, b, None)]. *)
Theorem view_creation_never_fails (B : Type) (HB : Backend B)
    (storage : Container) (s : slice) (w : World B) :
  (exists start_ stop_ step_ idx_map,
     StorageView___init__ storage s w
     = (w, Ok (StorageView storage (start_, stop_, step_) idx_map))
     /\ step_ <> 0
     /\ len_of (StorageView storage (start_, stop_, step_) idx_map) w
        = (w, Ok (len_ idx_map)))
  /\ StorageView___init__ storage (mkSlice (start s) (stop s) (Some 0)) w
     = StorageView___init__ storage (mkSlice (start s) (stop s) None) w.
Proof.
  split; [|reflexivity].
  unfold StorageView___init__, bind. rewrite len_of_length_of.
  cbv beta iota zeta.
  assert (Hstep : or_ (step s) 1 <> 0) by now apply or__nonzero.
  unfold lift. rewrite py_range_returns by done. unfold ret.
  eexists _, _, _, _. split; [reflexivity|]. split; [done|reflexivity].
Qed.

Lemma resolve_view_seqZ sl idx_map :
  resolve (StorageView Storage sl idx_map) <$> seqZ 0 (len_ idx_map)
  = idx_map.
Proof.
  apply list_eq. intros k. rewrite list_lookup_fmap.
  destruct (decide (k < length idx_map)%nat) as [Hk|Hk].
  - rewrite lookup_seqZ_lt by (unfold len_; lia). simpl.
    replace (Z.to_nat (0 + Z.of_nat k)) with k by lia.
    destruct (lookup_lt_is_Some_2 idx_map k Hk) as [x Hx].
    now rewrite Hx.
  - rewrite lookup_seqZ_ge by (unfold len_; lia).
    now rewrite lookup_ge_None_2 by lia.
Qed.

Lemma range_forwards n :
  0 <= n ->
  (fun k => 0 + Z.of_nat k * 1) <$> seq 0 (Z.to_nat (range_len 0 n 1))
  = seqZ 0 n.
Proof.
  intros Hn. unfold range_len. simpl.
  destruct (Z.ltb_spec 0 n).
  - rewrite Z.div_1_r. replace (n - 0 - 1 + 1) with n by lia.
    unfold seqZ. apply list_fmap_ext. intros k x _. lia.
  - replace n with 0 by lia. reflexivity.
Qed.

Lemma range_backwards n :
  0 <= n ->
  (fun k => n - 1 + Z.of_nat k * -1)
    <$> seq 0 (Z.to_nat (range_len (n - 1) (- (n + 1) + n) (-1)))
  = reverse (seqZ 0 n).
Proof.
  intros Hn. unfold range_len. simpl.
  destruct (Z.ltb_spec (- (n + 1) + n) (n - 1)).
  - change (- -1) with 1. rewrite Z.div_1_r.
    replace (n - 1 - (- (n + 1) + n) - 1 + 1) with n by lia.
    apply list_eq. intros k. rewrite list_lookup_fmap.
    destruct (decide (k < Z.to_nat n)%nat) as [Hk|Hk].
    + rewrite lookup_seq_lt by done. simpl.
      rewrite reverse_lookup by (rewrite length_seqZ; lia).
      rewrite length_seqZ, lookup_seqZ_lt by lia. f_equal. lia.
    + rewrite lookup_seq_ge by lia. simpl.
      now rewrite lookup_ge_None_2 by (rewrite length_reverse, length_seqZ; lia).
  - replace n with 0 by lia. reflexivity.
Qed.

(** The full views.  On a well-formed storage in memory of [n] items,
    [storage[:]] lists the indices [0 .. n - 1] and [storage[::-1]] lists
    them backwards; iterating the first yields the contents of the storage
    from the oldest item to the newest, iterating the second yields them
    from the newest to the oldest. *)
Theorem full_views_list_every_item fuel (w : World Slots) :
  well_formed (self w) ->
  let s := self w in
  let n := _num_items s in
  let forwards := StorageView Storage (0, n, 1) (seqZ 0 n) in
  let backwards :=
    StorageView Storage (n - 1, - (n + 1), -1) (reverse (seqZ 0 n)) in
  StorageView___init__ Storage (mkSlice None None None) w
  = (w, Ok forwards)
  /\ StorageView___init__ Storage (mkSlice None None (Some (-1))) w
     = (w, Ok backwards)
  /\ (__iter__ fuel forwards w).2 = Ok (logical s)
  /\ (__iter__ fuel backwards w).2 = Ok (reverse (logical s)).
Proof.
  intros Hwf s n forwards backwards.
  pose proof (wf_num_items _ Hwf) as [Hn _]. fold s n in Hn.
  assert (Hbounds : Forall (fun idx => 0 <= idx < n) (seqZ 0 n)).
  { apply Forall_forall. intros i Hi. apply elem_of_seqZ in Hi. lia. }
  split; [|split; [|split]].
  - unfold StorageView___init__, bind, lift, ret. simpl. fold s n.
    now rewrite range_forwards.
  - unfold StorageView___init__, bind, lift, ret. simpl. fold s n.
    now rewrite range_backwards.
  - rewrite __iter___in_bounds by (simpl; done).
    unfold forwards. cbn [snd length_of]. fold s n.
    now rewrite resolve_view_seqZ, logical_seqZ.
  - assert (Hb : in_bounds backwards (_num_items (self w))).
    { split; [exact I|]. apply Forall_reverse. exact Hbounds. }
    rewrite __iter___in_bounds by done.
    unfold backwards. cbn [snd length_of]. fold s n.
    rewrite resolve_view_seqZ, fmap_reverse. do 2 f_equal. apply logical_seqZ.
Qed.

Lemma full_views_list_every_item_witness :
  (__iter__ 0 (StorageView Storage (0, 3, 1) [0; 1; 2]) storage_BFC).2
  = Ok [Some batch_B; Some batch_F; Some batch_C]
  /\ (__iter__ 0 (StorageView Storage (2, -4, -1) [2; 1; 0]) storage_BFC).2
     = Ok [Some batch_C; Some batch_F; Some batch_B].
Proof.
  destruct (full_views_list_every_item 0 storage_BFC storage_BFC_well_formed)
    as (_ & _ & Hforwards & Hbackwards).
  split.
  - etransitivity; [exact Hforwards|]. vm_compute. reflexivity.
  - etransitivity; [exact Hbackwards|]. vm_compute. reflexivity.
Defined.

(** ** Snapshots and what they restore *)

(** [set_state] from the snapshot of [S], on any storage [T]. *)
Lemma InMemoryStorage_set_state_get_state (S T : LocalStorage Slots) :
  0 <= _capacity_items S ->
  InMemoryStorage_set_state (InMemoryStorage_get_state S) T
  = ({| _capacity_ts := _capacity_ts S;
        _capacity_items := _capacity_items S;
        _capacity_bytes := _capacity_bytes S;
        _eviction_started := _eviction_started S;
        _num_items := _num_items S;
        _oldest_item_idx := _oldest_item_idx S;
        _num_timesteps_added := _num_timesteps_added S;
        _num_timesteps := _num_timesteps S;
        _hit_count := replicate (Z.to_nat (_capacity_items S)) 0;
        _evicted_hit_stats := _evicted_hit_stats T;
        _size_bytes := _size_bytes S;
        est_final_size := est_final_size T;
        _samples := _samples S |}, Ok tt).
Proof.
  intros Hcap. set (state := InMemoryStorage_get_state S).
  assert (Hsamples : state !! "_samples" = Some (PySamples (_samples S)))
    by reflexivity.
  assert (Hcts : state !! "_capacity_ts"
                 = Some (of_capacity (_capacity_ts S))) by reflexivity.
  assert (Hci : state !! "_capacity_items"
                = Some (PyInt (_capacity_items S))) by reflexivity.
  assert (Hcb : state !! "_capacity_bytes"
                = Some (of_capacity (_capacity_bytes S))) by reflexivity.
  assert (Hn : state !! "_num_items" = Some (PyInt (_num_items S)))
    by reflexivity.
  assert (Ho : state !! "_oldest_item_idx"
               = Some (PyInt (_oldest_item_idx S))) by reflexivity.
  assert (He : state !! "_eviction_started"
               = Some (PyBool (_eviction_started S))) by reflexivity.
  assert (Ha : state !! "_num_timesteps_added"
               = Some (PyInt (_num_timesteps_added S))) by reflexivity.
  assert (Ht : state !! "_num_timesteps"
               = Some (PyInt (_num_timesteps S))) by reflexivity.
  assert (Hs : state !! "_size_bytes" = Some (PyInt (_size_bytes S)))
    by reflexivity.
  clearbody state.
  assert (Hneg : (_capacity_items S <? 0) = false) by (apply Z.ltb_ge; lia).
  unfold InMemoryStorage_set_state, LocalStorage_set_state, bind, lift,
    modify, get, item_samples, item_int, item_bool, item_capacity, np_zeros.
  rewrite Hsamples, Hcts, Hci, Hcb, Hn, Ho, He, Ha, Ht, Hs.
  destruct (_capacity_ts S), (_capacity_bytes S);
    cbn [of_capacity _capacity_items set_capacity_ts set_capacity_items
         set_capacity_bytes set_num_items set_oldest_item_idx
         set_eviction_started set_num_timesteps_added set_num_timesteps
         set_size_bytes set_samples];
    rewrite Hneg; reflexivity.
Qed.

(** Save and restore.  The storage restored from the snapshot of a
    well-formed storage in memory [S] is well-formed and holds the items of
    [S] in the order of [S]; its live counters are the sums over its items
    if those of [S] were; its own snapshot is the snapshot it was restored
    from; and every read of it returns what the same read of [S] returns. *)
Theorem restored_storage_holds_the_same_items (S T : LocalStorage Slots) :
  well_formed S ->
  let restored :=
    (InMemoryStorage_set_state (InMemoryStorage_get_state S) T).1 in
  well_formed restored
  /\ logical restored = logical S
  /\ (accounted S -> accounted restored)
  /\ InMemoryStorage_get_state restored = InMemoryStorage_get_state S
  /\ (forall fuel key log once,
        0 < _num_items S -> Z.abs key <= Z.of_nat fuel ->
        (__getitem__ fuel key (mkWorld restored log once)).2
        = (__getitem__ fuel key (mkWorld S log once)).2).
Proof.
  intros Hwf restored.
  pose proof (wf_capacity _ Hwf) as Hcap.
  assert (Hrestored := InMemoryStorage_set_state_get_state S T ltac:(lia)).
  subst restored. rewrite Hrestored. simpl.
  set (R := {| _capacity_ts := _capacity_ts S |}).
  assert (Hl : logical R = logical S) by now apply logical_same_ring.
  assert (HwfR : well_formed R).
  { destruct Hwf. split; try done.
    simpl. unfold len_. rewrite length_replicate. lia. }
  split; [done|]. split; [done|]. split; [|split].
  - intros [Hts Hsz]. split; simpl; now rewrite Hl.
  - reflexivity.
  - intros fuel key log once Hn Hfuel.
    destruct (__getitem___reads_logical fuel key (mkWorld R log once) HwfR)
      as (x & Hx & -> & _); [done..|].
    destruct (__getitem___reads_logical fuel key (mkWorld S log once) Hwf)
      as (y & Hy & -> & _); [done..|].
    simpl in Hx, Hy. rewrite Hl in Hx. congruence.
Qed.

Lemma restored_storage_holds_the_same_items_witness :
  logical (self storage_BFC) = [Some batch_B; Some batch_F; Some batch_C]
  /\ logical
       (InMemoryStorage_set_state
          (InMemoryStorage_get_state (self storage_BFC)) empty_storage).1
     = [Some batch_B; Some batch_F; Some batch_C].
Proof.
  assert (Hl : logical (self storage_BFC)
               = [Some batch_B; Some batch_F; Some batch_C])
    by (vm_compute; reflexivity).
  split; [exact Hl|].
  destruct (restored_storage_holds_the_same_items (self storage_BFC)
              empty_storage storage_BFC_well_formed) as (_ & Hsame & _).
  now rewrite Hsame.
Defined.

(** [set_state] assigns attribute by attribute and stops at the first key
    the dictionary lacks.  Without ["_samples"], the first key read,
    nothing is assigned; without ["_num_items"], the slots and the three
    capacities are already those of the snapshot when [KeyError] is raised,
    while the counters, the eviction flag and the hit counts are still the
    old ones. *)
Theorem set_state_stops_at_missing_key (S T : LocalStorage Slots) :
  InMemoryStorage_set_state (LocalStorage_get_state S) T
  = (T, Raise KeyError)
  /\ InMemoryStorage_set_state
       (delete "_num_items" (InMemoryStorage_get_state S)) T
     = (set_capacity_bytes (_capacity_bytes S)
          (set_capacity_items (_capacity_items S)
             (set_capacity_ts (_capacity_ts S)
                (set_samples (_samples S) T))),
        Raise KeyError).
Proof.
  split.
  - set (state := LocalStorage_get_state S).
    assert (Hsamples : state !! "_samples" = None) by reflexivity.
    clearbody state.
    unfold InMemoryStorage_set_state, bind, lift, item_samples.
    now rewrite Hsamples.
  - set (state := delete "_num_items" (InMemoryStorage_get_state S)).
    assert (Hsamples : state !! "_samples" = Some (PySamples (_samples S)))
      by reflexivity.
    assert (Hcts : state !! "_capacity_ts"
                   = Some (of_capacity (_capacity_ts S))) by reflexivity.
    assert (Hci : state !! "_capacity_items"
                  = Some (PyInt (_capacity_items S))) by reflexivity.
    assert (Hcb : state !! "_capacity_bytes"
                  = Some (of_capacity (_capacity_bytes S))) by reflexivity.
    assert (Hn : state !! "_num_items" = None) by reflexivity.
    clearbody state.
    unfold InMemoryStorage_set_state, LocalStorage_set_state, bind, lift,
      modify, item_samples, item_int, item_capacity.
    rewrite Hsamples, Hcts, Hci, Hcb, Hn.
    now destruct (_capacity_ts S), (_capacity_bytes S).
Qed.

(** ** The shelf of the storage on disk *)

(** [__delitem__] on disk reads the item and leaves it on the shelf. *)
Lemma OnDiskStorage___delitem___shelf idx (w : World Shelf) :
  wp (OnDiskStorage___delitem__ idx) w (fun w' r =>
    _samples (self w') = _samples (self w)
    /\ (forall item, r = Ok item -> 
          exists x, item = Some x /\ _samples (self w) !! pretty idx = Some x)).
Proof.
  unfold OnDiskStorage___delitem__. wp_steps. unfold shelf_getitem.
  destruct (_samples (self w) !! pretty idx) as [x|] eqn:Hx; [|done].
  wp_steps. apply wp_push_hit_count.
  destruct (list_getitem _ _); try done. simpl.
  wp_steps. apply wp_store_hit_count. simpl.
  destruct (list_setitem _ _ _); try done.
  wp_steps. simpl. split; [done|]. intros item [= <-]. eauto.
Qed.

Lemma evict_oldest_shelf (w : World Shelf) :
  wp evict_oldest w (fun w' r => _samples (self w') = _samples (self w)).
Proof.
  unfold evict_oldest. wp_steps.
  destruct (0 <? _num_items (self w)); [|done]. wp_steps.
  apply wp_push_hit_count.
  destruct (list_getitem _ _); try done. simpl.
  wp_steps. apply wp_store_hit_count. simpl.
  destruct (list_setitem _ _ _); try done.
  wp_steps. on_disk.
  eapply wp_wand; [apply OnDiskStorage___delitem___shelf|].
  intros w1 r [Hshelf _]. simpl in Hshelf.
  destruct r as [d| |]; try done.
  wp_steps. destruct d; [|done].
  wp_steps. apply wp__get_internal_index. simpl. now wp_steps.
Qed.

Lemma drop_old_items_shelf fuel (w : World Shelf) :
  wp (drop_old_items fuel) w (fun w' r =>
    _samples (self w') = _samples (self w)).
Proof.
  revert w. induction fuel as [|fuel IH]; intros w; simpl; wp_steps;
    destruct (over_capacity (self w)); wp_steps; try done.
  eapply wp_wand; [apply evict_oldest_shelf|].
  intros w1 r Hshelf. destruct r as [[]|e|]; try done.
  eapply wp_wand; [apply IH|]. intros w2 r Hshelf2. congruence.
Qed.

(** The shelf under [add].  A call of [add] on a storage on disk writes at
    most one key of the shelf, [str(p)] for a slot [p] of
    [0 .. capacity_items - 1], and it writes it only when it returns; no key
    is ever removed, so an evicted item stays on the shelf until its slot is
    written again.  A call that raises leaves the shelf as it was, and so
    does every call with an item of no timesteps. *)
Theorem on_disk_add_writes_one_key avail item (w : World Shelf) :
  let shelf := _samples (self w) in
  let shelf' := _samples (self (add avail item w).1) in
  (exists p, 0 <= p < Z.max 1 (_capacity_items (self w))
             /\ (shelf' = shelf \/ shelf' = <[pretty p := item]> shelf))
  /\ ((add avail item w).2 <> Ok tt -> shelf' = shelf)
  /\ (count item = 0 -> shelf' = shelf)
  /\ (forall key, is_Some (shelf !! key) -> is_Some (shelf' !! key)).
Proof.
  intros shelf shelf'.
  assert (Hadd : wp (add avail item) w (fun w' r =>
            exists p, 0 <= p < Z.max 1 (_capacity_items (self w))
              /\ (_samples (self w') = shelf
                  \/ r = Ok tt /\ count item <> 0
                     /\ _samples (self w') = <[pretty p := item]> shelf))).
  { assert (Hp0 : 0 <= 0 < Z.max 1 (_capacity_items (self w))) by lia.
    unfold add. wp_steps.
    destruct (_capacity_items (self w) <? count item).
    { wp_steps. simpl. exists 0. auto. }
    wp_steps.
    eapply wp_wand.
    { apply wp_conj; [apply drop_old_items_shelf|].
      apply drop_old_items_accounting. simpl. lia. }
    intros w1 r (Hshelf & Hcap & _ & Hr). simpl in Hshelf, Hcap.
    destruct r as [[]|e|]; [|exists 0; auto|done].
    wp_steps. apply wp__get_internal_index.
    destruct (_num_items (self w1) <? 0); [exists 0; auto|].
    set (p := (_oldest_item_idx (self w1) + _num_items (self w1))
              mod Z.max 1 (_capacity_items (self w1))).
    assert (Hp : 0 <= p < Z.max 1 (_capacity_items (self w)))
      by (rewrite <- Hcap; apply Z.mod_pos_bound; lia).
    wp_steps. on_disk. unfold OnDiskStorage__set.
    destruct (Z.eqb_spec (count item) 0); wp_steps; [exists 0; auto|].
    eapply wp_wand; [apply wp__warn_replay_capacity|].
    intros w2 r ([e He] & _ & Hr2 & _).
    assert (Hshelf2 : _samples (self w2) = shelf) by now rewrite He.
    assert (Hcap2 : _capacity_items (self w2) = _capacity_items (self w1))
      by now rewrite He.
    assert (Hn2 : _num_items (self w2) = _num_items (self w1))
      by now rewrite He.
    destruct Hr2 as [->|[->| ->]]; [|exists 0; auto..].
    wp_steps. simpl. rewrite Hshelf2.
    unfold over_capacity in Hr. apply orb_false_iff in Hr as [_ Hr].
    apply Z.leb_gt in Hr.
    assert (Hle : (_num_items (self w2) + 1 <=? _capacity_items (self w2))
                  = true) by (apply Z.leb_le; lia).
    rewrite Hle. exists p. auto. }
  unfold wp in Hadd. fold shelf' in Hadd.
  destruct Hadd as (p & Hp & Hshelf).
  split; [|split; [|split]].
  - exists p. split; [done|]. tauto.
  - intros Hr. destruct Hshelf as [|[? _]]; done.
  - intros Hzero. destruct Hshelf as [|(_ & ? & _)]; done.
  - intros key Hkey. destruct Hshelf as [->|(_ & _ & ->)]; [done|].
    destruct (decide (pretty p = key)) as [<-|Hne].
    + rewrite lookup_insert_eq. eauto.
    + now rewrite lookup_insert_ne.
Qed.

(** ** The reservoir buffer once the storage evicts *)

(** Once the storage has begun evicting, [_add_single_batch] on a buffer
    over a well-formed storage in memory never changes the number of stored
    items.  The call is counted; an index [j] is drawn from
    [0 .. num_add_calls]; when [j] is not below the number of items the new
    item is dropped and nothing else changes; otherwise the replacement is
    counted in [num_evicted] before it is made, and position [j] of the
    logical order holds the new item when the call returns, or nothing when
    the forecast of the write raises. *)
Theorem reservoir_add_after_eviction entropy avail item
    (b : ReservoirBuffer Slots) :
  well_formed (self (_storage b)) ->
  _eviction_started (self (_storage b)) = true ->
  0 <= _num_add_calls b ->
  let s := self (_storage b) in
  let b' := (_add_single_batch entropy avail item b).1 in
  let r := (_add_single_batch entropy avail item b).2 in
  let s' := self (_storage b') in
  let j := entropy mod (_num_add_calls b + 1) in
  _num_add_calls b' = _num_add_calls b + 1
  /\ _num_items s' = _num_items s
  /\ _eviction_started s' = true
  /\ (_num_items s <= j ->
      r = Ok tt /\ _storage b' = _storage b
      /\ _num_evicted b' = _num_evicted b)
  /\ (j < _num_items s ->
      _num_evicted b' = _num_evicted b + 1
      /\ (r = Ok tt /\ logical s' = <[Z.to_nat j := Some item]> (logical s)
          \/ (r = Raise ValueError \/ r = Raise ZeroDivisionError)
             /\ logical s' = <[Z.to_nat j := None]> (logical s))).
Proof.
  intros Hwf Hstarted Hcalls s b' r s' j.
  destruct (_add_single_batch_after_eviction entropy avail item b Hstarted
              Hcalls) as [Hj Hadd].
  fold j in Hj, Hadd. fold s in Hadd.
  destruct (Z.ltb_spec j (_num_items s)) as [Hlt|Hge].
  - destruct (__setitem___logical avail j item (_storage b) Hwf Hstarted)
      as (old & slot & _ & Hl & Hr & _ & _ & Hn & Hst & _); [fold s; lia|].
    assert (Hb' : b' = mkReservoirBuffer
                         (__setitem__ avail j item (_storage b)).1
                         (_num_add_calls b + 1) (_num_evicted b + 1))
      by (unfold b'; now rewrite Hadd).
    assert (Hres : r = (__setitem__ avail j item (_storage b)).2)
      by (unfold r; now rewrite Hadd).
    unfold s'. rewrite Hb', Hres. simpl.
    split; [done|]. split; [done|]. split; [done|]. split; [lia|].
    intros _. split; [done|].
    destruct Hr as [[-> ->]|[Hr ->]]; [left|right]; done.
  - assert (Hb' : b' = mkReservoirBuffer (_storage b) (_num_add_calls b + 1)
                         (_num_evicted b))
      by (unfold b'; now rewrite Hadd).
    assert (Hres : r = Ok tt) by (unfold r; now rewrite Hadd).
    unfold s'. rewrite Hb', Hres. simpl.
    split; [done|]. split; [done|]. split; [done|]. split; [done|]. lia.
Qed.

Lemma reservoir_add_after_eviction_witness :
  logical (self storage_BFC) = [Some batch_B; Some batch_F; Some batch_C]
  /\ _num_add_calls buffer_BFC = 4
  /\ 6 mod (4 + 1) = 1
  /\ logical (self (_storage (_add_single_batch 6 plenty batch_D
                                buffer_BFC).1))
     = [Some batch_B; Some batch_D; Some batch_C]
  /\ _num_evicted (_add_single_batch 6 plenty batch_D buffer_BFC).1
     = _num_evicted buffer_BFC + 1.
Proof.
  assert (Hl : logical (self storage_BFC)
               = [Some batch_B; Some batch_F; Some batch_C])
    by (vm_compute; reflexivity).
  split; [exact Hl|]. split; [reflexivity|]. split; [reflexivity|].
  destruct (reservoir_add_after_eviction 6 plenty batch_D buffer_BFC)
    as (_ & _ & _ & _ & Hdrawn).
  - apply storage_BFC_well_formed.
  - vm_compute. reflexivity.
  - vm_compute. discriminate.
  - destruct Hdrawn as [Hev [[_ Hset]|[[Hr|Hr] _]]].
    + vm_compute. reflexivity.
    + split; [|exact Hev]. etransitivity; [exact Hset|].
      change (self (_storage buffer_BFC)) with (self storage_BFC).
      rewrite Hl. reflexivity.
    + vm_compute in Hr. discriminate.
    + vm_compute in Hr. discriminate.
Defined.

(** ** Construction *)

(** [InMemoryStorage(capacity_items, capacity_ts, capacity_bytes)] fails its
    assertion exactly when one of the capacities is not above zero, and
    fails in no other way.  Otherwise the new storage is well-formed and
    empty, with [capacity_items] free slots and as many hit counts of zero,
    and has not begun evicting; the first item it stores is its only item,
    stored without an eviction. *)
Theorem new_storage_is_empty capacity_items capacity_ts capacity_bytes :
  let positive :=
    (0 <? capacity_items) && capacity_positive capacity_ts
    && capacity_positive capacity_bytes in
  (positive = false ->
   InMemoryStorage___init__ capacity_items capacity_ts capacity_bytes
   = Raise AssertionError)
  /\ (positive = true ->
      exists s,
        InMemoryStorage___init__ capacity_items capacity_ts capacity_bytes
        = Ok s
        /\ well_formed s /\ logical s = [] /\ accounted s
        /\ _eviction_started s = false
        /\ _hit_count s = replicate (Z.to_nat capacity_items) 0
        /\ _samples s = replicate (Z.to_nat capacity_items) None
        /\ forall avail item log once,
             count item <= capacity_items ->
             (add avail item (mkWorld s log once)).2 = Ok tt ->
             logical (self (add avail item (mkWorld s log once)).1)
             = [Some item]
             /\ _eviction_started
                  (self (add avail item (mkWorld s log once)).1) = false).
Proof.
  intros positive. unfold InMemoryStorage___init__, LocalStorage___init__.
  fold positive. split; intros Hpos; rewrite Hpos; simpl; [done|].
  assert (Hcap : 0 < capacity_items).
  { unfold positive in Hpos. apply andb_true_iff in Hpos as [Hpos _].
    apply andb_true_iff in Hpos as [Hpos _]. now apply Z.ltb_lt. }
  unfold np_zeros.
  assert (Hneg : (capacity_items <? 0) = false) by (apply Z.ltb_ge; lia).
  rewrite Hneg. eexists. split; [reflexivity|].
  set (s := {| _capacity_ts := capacity_ts |}).
  assert (Hinit : InMemoryStorage___init__ capacity_items capacity_ts
                    capacity_bytes = Ok s).
  { unfold InMemoryStorage___init__, LocalStorage___init__, np_zeros.
    fold positive. now rewrite Hpos, Hneg. }
  destruct (InMemoryStorage___init___well_formed _ _ _ _ Hinit) as [Hwf Hn].
  assert (Hl : logical s = []) by reflexivity.
  split; [done|]. split; [done|]. split; [now split|].
  split; [done|]. split; [done|]. split; [done|].
  intros avail item log once Hcount Hok.
  destruct (add_stored avail item (mkWorld s log once) Hwf Hcount Hok)
    as (k & Hk & Hl' & _ & _ & _ & Hst & _).
  cbn [self] in Hk, Hl', Hst. rewrite Hl in Hk, Hl'. simpl in Hk.
  assert (k = 0%nat) as -> by lia.
  split; [exact Hl'|]. rewrite Hst. reflexivity.
Qed.

Lemma new_storage_is_empty_witness :
  InMemoryStorage___init__ 0 (Finite 4) math_inf = Raise AssertionError
  /\ InMemoryStorage___init__ 3 (Finite 4) math_inf = Ok empty_storage
  /\ logical (self (add plenty batch_A (fresh empty_storage)).1)
     = [Some batch_A].
Proof.
  split; [|split].
  - apply (new_storage_is_empty 0 (Finite 4) math_inf). reflexivity.
  - reflexivity.
  - destruct (new_storage_is_empty 3 (Finite 4) math_inf) as [_ Hnew].
    destruct (Hnew eq_refl) as (s & Hs & _ & _ & _ & _ & _ & _ & Hadd).
    injection Hs as <-.
    apply (Hadd plenty batch_A [] ∅); vm_compute; [discriminate|reflexivity].
Defined.

(** ** Items of no timesteps *)

Lemma InMemoryStorage__set_zero avail idx item (w : World Slots) :
  count item = 0 ->
  InMemoryStorage__set avail idx item w = (w, Raise ZeroDivisionError).
Proof.
  intros Hzero. unfold InMemoryStorage__set, _warn_replay_capacity, bind.
  now rewrite Hzero.
Qed.

(** An item of no timesteps is never stored in memory: the forecast of the
    write divides by its count.  On a well-formed storage the call raises
    [ZeroDivisionError], after the evictions that make room for the item:
    the contents are left as [drop k contents], and a storage that was full
    has lost its oldest item to a call that stored nothing. *)
Theorem add_without_timesteps_stores_nothing avail item (w : World Slots) :
  well_formed (self w) -> count item = 0 ->
  let s := self w in
  let s' := self (add avail item w).1 in
  let r := (add avail item w).2 in
  (r = Raise ZeroDivisionError \/ r = Raise AssertionError)
  /\ exists k : nat,
       logical s' = drop k (logical s)
       /\ _num_items s' = _num_items s - Z.of_nat k
       /\ (_num_items s = _capacity_items s -> (1 <= k)%nat)
       /\ (r = Raise ZeroDivisionError -> over_capacity s' = false).
Proof.
  intros Hwf Hzero s s' r.
  pose proof (wf_capacity _ Hwf) as Hcap. fold s in Hcap.
  assert (Hresult : r = Raise ZeroDivisionError \/ r = Raise AssertionError).
  { change (wp (add avail item) w
              (fun _ r0 => r0 = Raise ZeroDivisionError
                           \/ r0 = Raise AssertionError)).
    unfold add. wp_steps.
    assert (Hsize : (_capacity_items (self w) <? count item) = false)
      by (apply Z.ltb_ge; fold s; lia).
    rewrite Hsize. wp_steps.
    eapply wp_wand.
    { apply drop_old_items_in_memory; simpl; [|lia].
      now apply (well_formed_same_ring (self w)). }
    intros w1 r1 (Hwf1 & _ & _ & _ & Hr1).
    destruct Hr1 as [[-> _]|[-> _]]; [|now right].
    wp_steps. apply wp__get_internal_index.
    pose proof (wf_num_items _ Hwf1) as Hn1.
    assert (Hnn : (_num_items (self w1) <? 0) = false)
      by (apply Z.ltb_ge; lia).
    rewrite Hnn. wp_steps. in_memory. unfold wp at 1.
    rewrite InMemoryStorage__set_zero by done. now left. }
  split; [done|].
  pose proof (add_outcome avail item w Hwf ltac:(fold s; lia)) as Hadd.
  unfold wp in Hadd. fold s' r in Hadd.
  destruct Hadd as (k & s1 & Hk & Hwf1 & Hr).
  destruct Hk as (_ & _ & Hci & _ & _ & _ & Hn1 & Hl & _).
  rewrite logical_counted in Hl. simpl in Hci, Hn1. fold s in Hci, Hn1, Hl.
  assert (Hsame : forall e, logical (set_est_final_size e s1) = logical s1)
    by (intros e; now apply logical_same_ring).
  exists k.
  destruct Hr as [(Hr & _)|[(_ & Hover & e & Hs')|(Hr & Hzero1 & _ & Hs' & _)]].
  - destruct Hresult; congruence.
  - rewrite Hs', Hsame. simpl. split; [done|]. split; [done|]. split.
    + intros Hfull. unfold over_capacity in Hover.
      apply orb_false_iff in Hover as [_ Hover]. apply Z.leb_gt in Hover. lia.
    + intros _. exact Hover.
  - rewrite Hs'. split; [done|]. split; [done|]. split; [lia|].
    rewrite Hr. discriminate.
Qed.

Lemma add_without_timesteps_stores_nothing_witness :
  logical (self storage_ABC) = [Some batch_A; Some batch_B; Some batch_C]
  /\ (add plenty (mkBatch 0 GB 9) storage_ABC).2 = Raise ZeroDivisionError
  /\ logical (self (add plenty (mkBatch 0 GB 9) storage_ABC).1)
     = [Some batch_B; Some batch_C].
Proof.
  split; [vm_compute; reflexivity|].
  destruct (add_without_timesteps_stores_nothing plenty (mkBatch 0 GB 9)
              storage_ABC storage_ABC_well_formed eq_refl)
    as ([Hr|Hr] & _).
  - split; [exact Hr|]. vm_compute. reflexivity.
  - vm_compute in Hr. discriminate.
Defined.

(** ** What [__setitem__] refuses, and the eviction flag *)

(** [__setitem__] checks the index first and the eviction flag second, and
    touches nothing before both checks have passed: over any backend, an
    index outside [0 .. num_items - 1] raises [IndexError] and an index
    within it raises [RuntimeError] as long as the storage has not begun
    evicting, and in both cases the storage and the log are left as they
    were.  So no item can be replaced in a storage that has never been
    full. *)
Theorem setitem_refused (B : Type) (HB : Backend B) avail i item
    (w : World B) :
  _num_items (self w) <= i \/ i < 0 \/ _eviction_started (self w) = false ->
  __setitem__ avail i item w
  = (w, Raise (if (_num_items (self w) <=? i) || (i <? 0)
               then IndexError else RuntimeError)).
Proof.
  intros Hrefused. unfold __setitem__, bind, len, attr, raise. simpl.
  destruct ((_num_items (self w) <=? i) || (i <? 0)) eqn:Hrange; [done|].
  apply orb_false_iff in Hrange as [Hle Hlt].
  apply Z.leb_gt in Hle. apply Z.ltb_ge in Hlt.
  destruct Hrefused as [?|[?|Hstarted]]; [lia..|].
  now rewrite Hstarted.
Qed.

Lemma setitem_refused_witness :
  _eviction_started (self storage_ABC) = false
  /\ __setitem__ plenty 0 batch_D storage_ABC
     = (storage_ABC, Raise RuntimeError)
  /\ __setitem__ plenty 3 batch_D storage_BFC
     = (storage_BFC, Raise IndexError).
Proof.
  assert (Hfalse : _eviction_started (self storage_ABC) = false)
    by (vm_compute; reflexivity).
  split; [exact Hfalse|]. split.
  - etransitivity;
      [apply (setitem_refused Slots InMemoryStorage plenty 0 batch_D
                storage_ABC); auto|].
    vm_compute. reflexivity.
  - etransitivity;
      [apply (setitem_refused Slots InMemoryStorage plenty 3 batch_D
                storage_BFC); left; vm_compute; discriminate|].
    vm_compute. reflexivity.
Defined.

Section FlagKept.
Context {B : Type} `{Backend B}.
Hypothesis _get_flag : forall idx (w : World B),
  _eviction_started (self (_get idx w).1) = _eviction_started (self w).
Hypothesis _set_flag : forall avail idx item (w : World B),
  _eviction_started (self (_set avail idx item w).1)
  = _eviction_started (self w).
Hypothesis __delitem___flag : forall idx (w : World B),
  _eviction_started (self (__delitem__ idx w).1)
  = _eviction_started (self w).

Lemma wp__get_flag idx (w : World B) :
  wp (_get idx) w (fun w' _ =>
    _eviction_started (self w') = _eviction_started (self w)).
Proof. apply _get_flag. Qed.

Lemma wp__set_flag avail idx item (w : World B) :
  wp (_set avail idx item) w (fun w' _ =>
    _eviction_started (self w') = _eviction_started (self w)).
Proof. apply _set_flag. Qed.

Lemma wp___delitem___flag idx (w : World B) :
  wp (__delitem__ idx) w (fun w' _ =>
    _eviction_started (self w') = _eviction_started (self w)).
Proof. apply __delitem___flag. Qed.

Lemma evict_oldest_flag (w : World B) :
  wp evict_oldest w (fun w' _ =>
    _eviction_started (self w) = true -> _eviction_started (self w') = true).
Proof.
  unfold evict_oldest. wp_steps.
  destruct (0 <? _num_items (self w)); [|done]. wp_steps.
  apply wp_push_hit_count.
  destruct (list_getitem _ _); try done. simpl.
  wp_steps. apply wp_store_hit_count. simpl.
  destruct (list_setitem _ _ _); try done.
  wp_steps. eapply wp_wand; [apply wp___delitem___flag|].
  intros w1 r Hflag. simpl in Hflag.
  destruct r as [d| |]; try done.
  wp_steps. destruct d; [|done].
  wp_steps. apply wp__get_internal_index. simpl. now wp_steps.
Qed.

Lemma drop_old_items_flag fuel (w : World B) :
  wp (drop_old_items fuel) w (fun w' _ =>
    _eviction_started (self w) = true -> _eviction_started (self w') = true).
Proof.
  revert w. induction fuel as [|fuel IH]; intros w; simpl; wp_steps;
    destruct (over_capacity (self w)); wp_steps; try done.
  eapply wp_wand; [apply evict_oldest_flag|].
  intros w1 r Hflag. destruct r as [[]|e|]; try done.
  eapply wp_wand; [apply IH|]. intros w2 r Hflag2. auto.
Qed.

Lemma add_flag avail item (w : World B) :
  wp (add avail item) w (fun w' _ =>
    _eviction_started (self w) = true -> _eviction_started (self w') = true).
Proof.
  unfold add. wp_steps.
  destruct (_capacity_items (self w) <? count item); wp_steps; [done|].
  eapply wp_wand; [apply drop_old_items_flag|].
  intros w1 r Hflag. simpl in Hflag.
  destruct r as [[]|e|]; try done.
  wp_steps. apply wp__get_internal_index.
  destruct (_num_items (self w1) <? 0); [done|].
  wp_steps. eapply wp_wand; [apply wp__set_flag|].
  intros w2 r Hflag2. destruct r as [[]|e|]; try (intros; rewrite Hflag2; auto).
  wp_steps. simpl. destruct (_ <=? _); simpl; intros; rewrite Hflag2; auto.
Qed.

Lemma __getitem___flag fuel key (w : World B) :
  wp (__getitem__ fuel key) w (fun w' _ =>
    _eviction_started (self w') = _eviction_started (self w)).
Proof.
  unfold __getitem__. wp_steps.
  destruct (wrap_key _ _ _); try done.
  wp_steps. apply wp__get_internal_index.
  destruct (_ <? 0); [done|].
  wp_steps. destruct (list_getitem _ _); try done.
  wp_steps. apply wp_store_hit_count.
  destruct (list_setitem _ _ _); try done.
  eapply wp_wand; [apply wp__get_flag|]. now intros w1 r ->.
Qed.

Lemma __setitem___flag avail i item (w : World B) :
  wp (__setitem__ avail i item) w (fun w' _ =>
    _eviction_started (self w') = _eviction_started (self w)).
Proof.
  unfold __setitem__. wp_steps.
  destruct (_ || _); [done|]. wp_steps.
  destruct (negb _); [done|]. wp_steps.
  apply wp__get_internal_index.
  destruct (_ <? 0); [done|].
  wp_steps. eapply wp_wand; [apply wp___delitem___flag|].
  intros w1 r Hflag. destruct r as [d| |]; try done.
  wp_steps. destruct d as [old|]; [|done]. wp_steps.
  destruct (count old <? count item); wp_steps;
    (apply wp_push_hit_count;
     destruct (list_getitem _ _); try done; simpl;
     wp_steps; apply wp_store_hit_count; simpl;
     destruct (list_setitem _ _ _); try done;
     wp_steps; eapply wp_wand; [apply wp__set_flag|];
     intros w3 r ->; done).
Qed.
End FlagKept.

Ltac flag_kept :=
  unfold push_hit_count, store_hit_count;
  repeat (wp_steps; try case_match); simpl; try done.

(** The eviction flag is never reset.  Once [eviction_started] is true it
    stays true through every call of [add], of [__getitem__] and of
    [__setitem__], in memory and on disk, whatever the call returns or
    raises; reads and replacements never set it either. *)
Theorem eviction_flag_is_never_reset avail fuel key item :
  (forall w : World Slots,
     (_eviction_started (self w) = true ->
      _eviction_started (self (add avail item w).1) = true)
     /\ _eviction_started (self (__getitem__ fuel key w).1)
        = _eviction_started (self w)
     /\ _eviction_started (self (__setitem__ avail key item w).1)
        = _eviction_started (self w))
  /\ (forall w : World Shelf,
        (_eviction_started (self w) = true ->
         _eviction_started (self (add avail item w).1) = true)
        /\ _eviction_started (self (__getitem__ fuel key w).1)
           = _eviction_started (self w)
        /\ _eviction_started (self (__setitem__ avail key item w).1)
           = _eviction_started (self w)).
Proof.
  assert (Hforecast : forall {St} (w : World St) av it,
            _eviction_started (self (_warn_replay_capacity av it w).1)
            = _eviction_started (self w)).
  { intros St w av it.
    pose proof (wp__warn_replay_capacity av it w) as Hw. unfold wp in Hw.
    destruct Hw as ([e ->] & _). reflexivity. }
  split; intros w.
  - assert (Hget : forall idx (w0 : World Slots),
              _eviction_started (self (_get idx w0).1)
              = _eviction_started (self w0)).
    { intros idx w0. in_memory.
      change (wp (InMemoryStorage__get idx) w0 (fun w' _ =>
                _eviction_started (self w') = _eviction_started (self w0))).
      unfold InMemoryStorage__get. flag_kept. }
    assert (Hset : forall av idx it (w0 : World Slots),
              _eviction_started (self (_set av idx it w0).1)
              = _eviction_started (self w0)).
    { intros av idx it w0. in_memory.
      change (wp (InMemoryStorage__set av idx it) w0 (fun w' _ =>
                _eviction_started (self w') = _eviction_started (self w0))).
      unfold InMemoryStorage__set. wp_steps.
      apply (wp_wand _ _ (fun w' _ => _eviction_started (self w')
                                      = _eviction_started (self w0)));
        [apply Hforecast|].
      intros w1 r Hflag. flag_kept. }
    assert (Hdel : forall idx (w0 : World Slots),
              _eviction_started (self (__delitem__ idx w0).1)
              = _eviction_started (self w0)).
    { intros idx w0. in_memory.
      change (wp (InMemoryStorage___delitem__ idx) w0 (fun w' _ =>
                _eviction_started (self w') = _eviction_started (self w0))).
      unfold InMemoryStorage___delitem__. flag_kept. }
    split; [apply (add_flag Hset Hdel)|].
    split; [apply (__getitem___flag Hget)|apply (__setitem___flag Hset Hdel)].
  - assert (Hget : forall idx (w0 : World Shelf),
              _eviction_started (self (_get idx w0).1)
              = _eviction_started (self w0)).
    { intros idx w0. on_disk.
      change (wp (OnDiskStorage__get idx) w0 (fun w' _ =>
                _eviction_started (self w') = _eviction_started (self w0))).
      unfold OnDiskStorage__get. flag_kept. }
    assert (Hset : forall av idx it (w0 : World Shelf),
              _eviction_started (self (_set av idx it w0).1)
              = _eviction_started (self w0)).
    { intros av idx it w0. on_disk.
      change (wp (OnDiskStorage__set av idx it) w0 (fun w' _ =>
                _eviction_started (self w') = _eviction_started (self w0))).
      unfold OnDiskStorage__set. wp_steps.
      destruct (count it =? 0); wp_steps; [done|].
      apply (wp_wand _ _ (fun w' _ => _eviction_started (self w')
                                      = _eviction_started (self w0)));
        [apply Hforecast|].
      intros w1 r Hflag. flag_kept. }
    assert (Hdel : forall idx (w0 : World Shelf),
              _eviction_started (self (__delitem__ idx w0).1)
              = _eviction_started (self w0)).
    { intros idx w0. on_disk.
      change (wp (OnDiskStorage___delitem__ idx) w0 (fun w' _ =>
                _eviction_started (self w') = _eviction_started (self w0))).
      unfold OnDiskStorage___delitem__. flag_kept. }
    split; [apply (add_flag Hset Hdel)|].
    split; [apply (__getitem___flag Hget)|apply (__setitem___flag Hset Hdel)].
Qed.

(** ** The order of the contents over many calls *)

(** Whatever a call of [add] returns or raises on a well-formed storage in
    memory, it drops some of the oldest items and appends the new item or
    nothing. *)
Lemma add_any_outcome avail item (w : World Slots) :
  well_formed (self w) ->
  exists (k : nat) new,
    logical (self (add avail item w).1) = drop k (logical (self w)) ++ new
    /\ (new = [] \/ new = [Some item]).
Proof.
  intros Hwf.
  destruct (decide (count item <= _capacity_items (self w))) as [Hc|Hc].
  2: { rewrite add_oversized by lia. exists 0%nat, []. simpl.
       rewrite app_nil_r. auto. }
  pose proof (add_outcome avail item w Hwf Hc) as Hadd. unfold wp in Hadd.
  destruct Hadd as (k & s1 & Hk & Hwf1 & Hr).
  destruct Hk as (_ & _ & _ & _ & _ & _ & _ & Hl & _).
  rewrite logical_counted in Hl.
  destruct Hr as [(_ & Hover & e & ->)|[(_ & _ & e & ->)|(_ & _ & _ & -> & _)]].
  - exists k, [Some item]. split; [|auto].
    rewrite logical_inserted, Hl; [done..|].
    unfold over_capacity in Hover. apply orb_false_iff in Hover as [_ Hover].
    now apply Z.leb_gt in Hover.
  - exists k, []. rewrite app_nil_r. split; [|auto].
    rewrite <- Hl. now apply logical_same_ring.
  - exists k, []. rewrite app_nil_r. auto.
Qed.

(** First in, first out, over any series of calls.  After any calls of
    [add] on a well-formed storage in memory, whatever each of them
    returned or raised, the contents are the tail end of the old contents
    followed by some of the new items, in the order in which they were
    added: no item is ever moved, duplicated or stored behind a newer
    one. *)
Theorem contents_are_the_latest_items calls (w : World Slots) :
  well_formed (self w) ->
  exists stored,
    stored `sublist_of` calls.*2
    /\ logical (self (after_adds calls w))
       `suffix_of` logical (self w) ++ (Some <$> stored).
Proof.
  revert w. induction calls as [|[avail item] calls IH]; intros w Hwf.
  - exists []. split; [done|]. simpl. now rewrite app_nil_r.
  - simpl.
    destruct (add_any_outcome avail item w Hwf) as (k & new & Hl & Hnew).
    destruct (IH (add avail item w).1) as (stored & Hsub & Hsuffix);
      [now apply add_well_formed|].
    rewrite Hl in Hsuffix.
    assert (Hdrop : forall rest,
              drop k (logical (self w)) ++ rest
              `suffix_of` logical (self w) ++ rest).
    { intros rest. exists (take k (logical (self w))).
      now rewrite app_assoc, take_drop. }
    destruct Hnew as [-> | ->].
    + exists stored. split; [now apply sublist_cons|].
      rewrite app_nil_r in Hsuffix.
      etransitivity; [exact Hsuffix|apply Hdrop].
    + exists (item :: stored). split; [now apply sublist_skip|].
      rewrite <- app_assoc in Hsuffix.
      etransitivity; [exact Hsuffix|apply Hdrop].
Qed.

Lemma contents_are_the_latest_items_witness :
  well_formed (self (fresh empty_storage))
  /\ logical (self storage_BFC) = [Some batch_B; Some batch_F; Some batch_C]
  /\ exists stored,
       stored `sublist_of` [batch_A; batch_B; batch_F; batch_C]
       /\ logical (self storage_BFC)
          `suffix_of` logical (self (fresh empty_storage))
                      ++ (Some <$> stored).
Proof.
  split; [apply empty_storage_well_formed|].
  split; [vm_compute; reflexivity|].
  apply (contents_are_the_latest_items
           [(plenty, batch_A); (plenty, batch_B); (plenty, batch_F);
            (plenty, batch_C)] (fresh empty_storage)).
  apply empty_storage_well_formed.
Defined.

(** Reading through views.  A read at a position of a view whose index
    lists are in bounds, however many views lie between it and the
    well-formed storage in memory beneath, is exactly one read of the
    storage, at the logical index the position stands for: it returns the
    item held there and counts one hit on its slot, and it needs no fuel
    since no key is wrapped. *)
Theorem view_read_is_one_read_of_the_storage fuel storage i
    (w : World Slots) :
  well_formed (self w) -> in_bounds storage (_num_items (self w)) ->
  0 <= i < length_of storage (_num_items (self w)) ->
  let s := self w in
  let j := resolve storage i in
  0 <= j < _num_items s
  /\ getitem fuel storage i w = __getitem__ fuel j w
  /\ exists item h,
       logical s !! Z.to_nat j = Some (Some item)
       /\ _hit_count s !! slot_of s j = Some h
       /\ getitem fuel storage i w
          = (mkWorld
               (set_hit_count
                  (<[slot_of s j := wrap_int64 (h + 1)]> (_hit_count s)) s)
               (logger w) (logged_once w),
             Ok (Some item)).
Proof.
  intros Hwf Hb Hi s j.
  pose proof (resolve_in_bounds storage _ i Hb Hi) as Hj. fold s j in Hj.
  split; [done|].
  rewrite getitem_in_bounds by done. fold s j.
  split.
  - rewrite __getitem___in_range_full; try apply Hwf; done.
  - destruct (held_occupied s j Hwf Hj) as [item Hitem].
    destruct (slot_of_in_range s j Hwf) as [Hph _].
    destruct (lookup_lt_is_Some_2 _ _ Hph) as [h Hh].
    exists item, h. split.
    + rewrite logical_lookup, Z2Nat.id by lia. now rewrite Hitem.
    + split; [done|]. unfold bump. now rewrite Hh, Hitem.
Qed.

Lemma view_read_is_one_read_of_the_storage_witness :
  resolve (StorageView (StorageView Storage (2, -4, -1) [2; 1; 0])
             (0, 2, 1) [0; 1]) 1 = 1
  /\ (getitem 0 (StorageView (StorageView Storage (2, -4, -1) [2; 1; 0])
                   (0, 2, 1) [0; 1]) 1 storage_BFC).2
     = Ok (Some batch_F)
  /\ getitem 0 (StorageView (StorageView Storage (2, -4, -1) [2; 1; 0])
                  (0, 2, 1) [0; 1]) 1 storage_BFC
     = __getitem__ 0 1 storage_BFC.
Proof.
  split; [reflexivity|].
  destruct (view_read_is_one_read_of_the_storage 0
              (StorageView (StorageView Storage (2, -4, -1) [2; 1; 0])
                 (0, 2, 1) [0; 1]) 1 storage_BFC storage_BFC_well_formed)
    as (_ & Hsame & _).
  - vm_compute. repeat split; repeat constructor; discriminate.
  - vm_compute. split; [discriminate|reflexivity].
  - split; [|exact Hsame]. rewrite Hsame. vm_compute. reflexivity.
Defined.

(** ** Hit counts *)

Lemma hits_of_length s : length (hits_of s) = Z.to_nat (_num_items s).
Proof. unfold hits_of. now rewrite length_fmap, length_seq. Qed.

Lemma hits_of_lookup s (k : nat) :
  (k < Z.to_nat (_num_items s))%nat ->
  hits_of s !! k
  = Some (default 0 (_hit_count s !! slot_of s (Z.of_nat k))).
Proof.
  intros Hk. unfold hits_of. rewrite list_lookup_fmap.
  now rewrite lookup_seq_lt.
Qed.

Lemma hits_of_ext s (l : list Z) :
  length l = Z.to_nat (_num_items s) ->
  (forall k : nat, (k < Z.to_nat (_num_items s))%nat ->
     l !! k = Some (default 0 (_hit_count s !! slot_of s (Z.of_nat k)))) ->
  hits_of s = l.
Proof.
  intros Hlen Hl. apply list_eq. intros k.
  destruct (decide (k < Z.to_nat (_num_items s))%nat) as [Hk|Hk].
  - now rewrite hits_of_lookup, Hl.
  - rewrite !lookup_ge_None_2; [done| |]; rewrite ?hits_of_length; lia.
Qed.

Lemma hits_of_same_ring (s s' : LocalStorage Slots) :
  _capacity_items s' = _capacity_items s ->
  _oldest_item_idx s' = _oldest_item_idx s ->
  _num_items s' = _num_items s ->
  _hit_count s' = _hit_count s ->
  hits_of s' = hits_of s.
Proof.
  intros Hc Ho Hn Hh. unfold hits_of, slot_of. now rewrite Hc, Ho, Hn, Hh.
Qed.

Lemma free_slots_unread_same_ring (s s' : LocalStorage Slots) :
  _capacity_items s' = _capacity_items s ->
  _oldest_item_idx s' = _oldest_item_idx s ->
  _num_items s' = _num_items s ->
  _hit_count s' = _hit_count s ->
  free_slots_unread s -> free_slots_unread s'.
Proof.
  intros Hc Ho Hn Hh Hfree p Hp Hlen. rewrite Hh in *. apply Hfree; [|done].
  intros i Hi. rewrite Hn in Hp. specialize (Hp i Hi).
  unfold slot_of in *. now rewrite Hc, Ho in Hp.
Qed.

Lemma slot_of_evicted h item s i :
  slot_of (evicted h item s) i = slot_of s (i + 1).
Proof.
  unfold slot_of. simpl. rewrite Zplus_mod_idemp_l. do 2 f_equal. lia.
Qed.

Lemma hits_of_evicted h item s :
  well_formed s -> 0 < _num_items s ->
  hits_of (evicted h item s) = drop 1 (hits_of s).
Proof.
  intros Hwf Hn.
  pose proof (wf_capacity _ Hwf) as Hcap.
  pose proof (wf_num_items _ Hwf) as Hni.
  apply hits_of_ext.
  - rewrite length_drop, hits_of_length. simpl. lia.
  - intros k Hk. simpl in Hk.
    rewrite lookup_drop, hits_of_lookup by lia. f_equal.
    rewrite slot_of_evicted.
    replace (Z.of_nat (1 + k)) with (Z.of_nat k + 1) by lia.
    unfold evicted. cbn [_hit_count].
    rewrite list_lookup_insert_ne; [done|].
    rewrite <- (slot_of_zero s Hwf). intros Heq.
    apply slot_of_inj in Heq; lia.
Qed.

Lemma free_slots_unread_evicted h item s :
  well_formed s -> 0 < _num_items s ->
  free_slots_unread s -> free_slots_unread (evicted h item s).
Proof.
  intros Hwf Hn Hfree p Hp Hlen. simpl in *.
  rewrite length_insert in Hlen.
  destruct (decide (Z.to_nat (_oldest_item_idx s) = p)) as [<-|Hne].
  - now apply list_lookup_insert_eq.
  - rewrite list_lookup_insert_ne by done. apply Hfree; [|done].
    intros i Hi. destruct (decide (i = 0)) as [->|Hi0].
    + now rewrite slot_of_zero.
    + specialize (Hp (i - 1) ltac:(lia)). rewrite slot_of_evicted in Hp.
      now replace (i - 1 + 1) with i in Hp by lia.
Qed.

Lemma free_slot_after_the_last s :
  well_formed s -> _num_items s < _capacity_items s ->
  free_slots_unread s ->
  _hit_count s !! slot_of s (_num_items s) = Some 0.
Proof.
  intros Hwf Hroom Hfree.
  pose proof (wf_capacity _ Hwf) as Hcap.
  pose proof (wf_num_items _ Hwf) as Hni.
  apply Hfree; [|apply (slot_of_in_range s _ Hwf)].
  intros i Hi Heq. apply slot_of_inj in Heq; lia.
Qed.

Lemma hits_of_inserted item e s :
  well_formed s -> _num_items s < _capacity_items s ->
  free_slots_unread s ->
  hits_of
    (set_num_items (_num_items s + 1)
       (set_samples (<[slot_of s (_num_items s) := Some item]> (_samples s))
          (set_est_final_size e s)))
  = hits_of s ++ [0].
Proof.
  intros Hwf Hroom Hfree.
  pose proof (wf_num_items _ Hwf) as Hni.
  apply hits_of_ext.
  - rewrite length_app, hits_of_length. simpl. lia.
  - intros k Hk. simpl in Hk. unfold slot_of at 1. simpl.
    fold (slot_of s (Z.of_nat k)).
    destruct (decide (Z.of_nat k = _num_items s)) as [Heq|Hne].
    + rewrite lookup_app_r by (rewrite hits_of_length; lia).
      rewrite hits_of_length.
      replace (k - Z.to_nat (_num_items s))%nat with 0%nat by lia.
      now rewrite Heq, free_slot_after_the_last.
    + rewrite lookup_app_l by (rewrite hits_of_length; lia).
      now rewrite hits_of_lookup by lia.
Qed.

Lemma free_slots_unread_inserted item e s :
  well_formed s -> _num_items s < _capacity_items s ->
  free_slots_unread s ->
  free_slots_unread
    (set_num_items (_num_items s + 1)
       (set_samples (<[slot_of s (_num_items s) := Some item]> (_samples s))
          (set_est_final_size e s))).
Proof.
  intros Hwf Hroom Hfree p Hp Hlen. simpl in *.
  pose proof (wf_num_items _ Hwf) as Hni.
  apply Hfree; [|done]. intros i Hi. apply (Hp i). lia.
Qed.

(** New items start unread.  As long as the hit count of every free slot is
    zero, which holds for a new storage and which [add] maintains, a call of
    [add] that stores its item on a well-formed storage in memory leaves
    the hit counts of the items that stay as they were and gives the new
    item a hit count of zero: in logical order the hit counts become
    [drop k hits ++ [0]], for the same [k] as the contents. *)
Theorem new_items_start_unread avail item (w : World Slots) :
  well_formed (self w) -> free_slots_unread (self w) ->
  count item <= _capacity_items (self w) ->
  (add avail item w).2 = Ok tt ->
  let s := self w in
  let s' := self (add avail item w).1 in
  exists k : nat,
    logical s' = drop k (logical s) ++ [Some item]
    /\ hits_of s' = drop k (hits_of s) ++ [0]
    /\ free_slots_unread s'
    /\ forall capacity_items capacity_ts capacity_bytes s0,
         InMemoryStorage___init__ capacity_items capacity_ts capacity_bytes
         = Ok s0 -> free_slots_unread s0.
Proof.
  intros Hwf Hfree Hcount Hok s s'.
  set (P := fun s1 : LocalStorage Slots =>
              free_slots_unread s1
              /\ _num_items s1 <= _num_items s
              /\ hits_of s1
                 = drop (Z.to_nat (_num_items s - _num_items s1))
                     (hits_of s)).
  assert (HP : forall h item0 s1,
            well_formed s1 -> 0 < _num_items s1 ->
            _hit_count s1 !! Z.to_nat (_oldest_item_idx s1) = Some h ->
            _samples s1 !! Z.to_nat (_oldest_item_idx s1)
            = Some (Some item0) ->
            P s1 -> P (evicted h item0 s1)).
  { intros h item0 s1 Hwf1 Hn1 _ _ (Hfree1 & Hle & Hhits).
    split; [now apply free_slots_unread_evicted|]. split; [simpl; lia|].
    rewrite hits_of_evicted, Hhits, drop_drop by done. simpl. f_equal. lia. }
  assert (HPw : P (self (counted item w))).
  { split; [now apply (free_slots_unread_same_ring s)|].
    split; [simpl; fold s; lia|]. simpl. fold s.
    replace (Z.to_nat (_num_items s - _num_items s)) with 0%nat by lia.
    now apply hits_of_same_ring. }
  pose proof (add_outcome_with P avail item w HP Hwf Hcount HPw) as Hadd.
  unfold wp in Hadd. fold s' in Hadd. rewrite Hok in Hadd.
  destruct Hadd as (k & s1 & Hk & Hwf1 & (Hfree1 & Hle & Hhits) & Hr).
  destruct Hr as [(_ & Hover & e & Hs')|[([?|?] & _)|(? & _)]];
    try discriminate.
  destruct Hk as (Hkn & _ & _ & _ & _ & _ & Hn1 & Hl & _).
  rewrite logical_counted in Hl. simpl in Hkn, Hn1. fold s in Hkn, Hn1, Hl.
  assert (Hroom : _num_items s1 < _capacity_items s1).
  { unfold over_capacity in Hover. apply orb_false_iff in Hover as [_ Hover].
    now apply Z.leb_gt in Hover. }
  exists k. rewrite Hs'.
  split; [now rewrite logical_inserted, Hl|].
  split.
  { rewrite hits_of_inserted, Hhits by done. do 2 f_equal. lia. }
  split; [now apply free_slots_unread_inserted|].
  intros ci cts cb s0 Hinit.
  unfold InMemoryStorage___init__, LocalStorage___init__, np_zeros in Hinit.
  destruct (negb _); [done|]. destruct (ci <? 0); [done|].
  injection Hinit as <-. intros p _ Hlen. simpl in *.
  rewrite length_replicate in Hlen. now apply lookup_replicate_2.
Qed.

Lemma new_items_start_unread_witness :
  hits_of (self (__getitem__ 2 2 storage_ABC).1) = [0; 0; 1]
  /\ logical (self (add plenty batch_F (__getitem__ 2 2 storage_ABC).1).1)
     = [Some batch_B; Some batch_C; Some batch_F]
  /\ hits_of (self (add plenty batch_F (__getitem__ 2 2 storage_ABC).1).1)
     = [0; 1; 0].
Proof.
  split; [vm_compute; reflexivity|].
  destruct (__getitem___reads_logical 2 2 storage_ABC
              storage_ABC_well_formed) as (_ & _ & _ & Hwf & _);
    [vm_compute; reflexivity|vm_compute; discriminate|].
  assert (Hfree : free_slots_unread (self (__getitem__ 2 2 storage_ABC).1)).
  { intros p Hp Hlen. exfalso.
    assert (Hthree : length (_hit_count (self (__getitem__ 2 2 storage_ABC).1))
                     = 3%nat) by (vm_compute; reflexivity).
    rewrite Hthree in Hlen.
    assert (Hslots : forall i, 0 <= i < 3 -> Z.to_nat i <> p).
    { intros i Hi. 
      assert (Hn : _num_items (self (__getitem__ 2 2 storage_ABC).1) = 3)
        by (vm_compute; reflexivity).
      specialize (Hp i). rewrite Hn in Hp. specialize (Hp Hi).
      assert (Hslot : slot_of (self (__getitem__ 2 2 storage_ABC).1) i
                      = Z.to_nat ((0 + i) mod 3)).
      { unfold slot_of. vm_compute _oldest_item_idx.
        vm_compute _capacity_items. reflexivity. }
      rewrite Hslot, Z.mod_small in Hp by lia. exact Hp. }
    assert (Hcases : p = 0%nat \/ p = 1%nat \/ p = 2%nat) by lia.
    destruct Hcases as [->|[->| ->]];
      [apply (Hslots 0)|apply (Hslots 1)|apply (Hslots 2)]; lia || reflexivity. }
  destruct (new_items_start_unread plenty batch_F
              (__getitem__ 2 2 storage_ABC).1 Hwf Hfree)
    as (k & Hl & Hhits & _).
  - vm_compute. discriminate.
  - vm_compute. reflexivity.
  - split; vm_compute; reflexivity.
Defined.

(** ** Insert and look up on disk *)

Lemma list_setitem_length {A} (l l' : list A) idx x :
  list_setitem l idx x = Ok l' -> len_ l' = len_ l.
Proof.
  unfold list_setitem. destruct (py_index _ _); [|done].
  intros [= <-]. unfold len_. now rewrite length_insert.
Qed.

(** What the evictions of [add] leave alone on disk: the capacity, the
    number of hit counts and the shelf; the oldest index stays above
    zero. *)
Lemma OnDiskStorage___delitem___shape idx (w : World Shelf) :
  wp (OnDiskStorage___delitem__ idx) w (fun w' r =>
    _samples (self w') = _samples (self w)
    /\ _capacity_items (self w') = _capacity_items (self w)
    /\ _oldest_item_idx (self w') = _oldest_item_idx (self w)
    /\ _num_items (self w') = _num_items (self w)
    /\ len_ (_hit_count (self w')) = len_ (_hit_count (self w))).
Proof.
  unfold OnDiskStorage___delitem__. wp_steps.
  destruct (shelf_getitem _ _); try done.
  wp_steps. apply wp_push_hit_count.
  destruct (list_getitem _ _); try done. simpl.
  wp_steps. apply wp_store_hit_count. simpl.
  destruct (list_setitem _ _ _) eqn:Hset; try done.
  wp_steps. simpl. apply list_setitem_length in Hset. auto.
Qed.

Lemma evict_oldest_on_disk_shape (w : World Shelf) :
  0 <= _oldest_item_idx (self w) ->
  wp evict_oldest w (fun w' r =>
    _samples (self w') = _samples (self w)
    /\ _capacity_items (self w') = _capacity_items (self w)
    /\ 0 <= _oldest_item_idx (self w')
    /\ len_ (_hit_count (self w')) = len_ (_hit_count (self w))).
Proof.
  intros Hold. unfold evict_oldest. wp_steps.
  destruct (0 <? _num_items (self w)); [|done]. wp_steps.
  apply wp_push_hit_count.
  destruct (list_getitem _ _); try done. simpl.
  wp_steps. apply wp_store_hit_count. simpl.
  destruct (list_setitem _ _ _) eqn:Hset; try done.
  apply list_setitem_length in Hset.
  wp_steps. on_disk.
  eapply wp_wand; [apply OnDiskStorage___delitem___shape|].
  intros w1 r (Hshelf & Hcap & Ho & Hn & Hlen). simpl in *.
  destruct r as [d| |]; try (repeat split; congruence || lia).
  wp_steps. destruct d; [|repeat split; congruence || lia].
  wp_steps. apply wp__get_internal_index. simpl. wp_steps. simpl.
  split; [done|]. split; [done|]. split; [|congruence].
  apply Z.mod_pos_bound. lia.
Qed.

Lemma drop_old_items_on_disk_shape fuel (w : World Shelf) :
  0 <= _oldest_item_idx (self w) ->
  wp (drop_old_items fuel) w (fun w' r =>
    _samples (self w') = _samples (self w)
    /\ _capacity_items (self w') = _capacity_items (self w)
    /\ 0 <= _oldest_item_idx (self w')
    /\ len_ (_hit_count (self w')) = len_ (_hit_count (self w))).
Proof.
  revert w. induction fuel as [|fuel IH]; intros w Hold; simpl; wp_steps;
    destruct (over_capacity (self w)); wp_steps; try done.
  eapply wp_wand; [now apply evict_oldest_on_disk_shape|].
  intros w1 r (Hshelf & Hcap & Ho & Hlen). destruct r as [[]|e|]; try done.
  eapply wp_wand; [now apply IH|].
  intros w2 r (Hshelf2 & Hcap2 & Ho2 & Hlen2).
  repeat split; congruence || lia.
Qed.

(** [add] on disk, when it stores its item. *)
Lemma add_on_disk_stored avail item (w : World Shelf) :
  0 < _capacity_items (self w) -> 0 <= _oldest_item_idx (self w) ->
  count item <= _capacity_items (self w) ->
  wp (add avail item) w (fun w' r =>
    r = Ok tt ->
    _capacity_items (self w') = _capacity_items (self w)
    /\ 0 <= _oldest_item_idx (self w')
    /\ len_ (_hit_count (self w')) = len_ (_hit_count (self w))
    /\ 0 < _num_items (self w')
    /\ _samples (self w')
         !! pretty ((_oldest_item_idx (self w') + (_num_items (self w') - 1))
                    mod _capacity_items (self w'))
       = Some item).
Proof.
  intros Hcap Hold Hcount. unfold add. wp_steps.
  assert (Hsize : (_capacity_items (self w) <? count item) = false)
    by (apply Z.ltb_ge; lia).
  rewrite Hsize. wp_steps.
  eapply wp_wand; [now apply drop_old_items_on_disk_shape|].
  intros w1 r (Hshelf & Hcap1 & Ho1 & Hlen1). simpl in *.
  destruct r as [[]|e|]; [|done..].
  wp_steps. apply wp__get_internal_index.
  destruct (Z.ltb_spec (_num_items (self w1)) 0) as [|Hn1]; [done|].
  wp_steps. on_disk. unfold OnDiskStorage__set.
  destruct (count item =? 0); wp_steps; [done|].
  eapply wp_wand; [apply wp__warn_replay_capacity|].
  intros w2 r ([e He] & _ & Hr2 & _).
  destruct Hr2 as [->|[->| ->]]; [|done..].
  wp_steps. rewrite He. simpl.
  destruct (_ <=? _); [|done]. intros _.
  rewrite Hcap1, Z.max_r by lia.
  split; [done|]. split; [done|]. split; [done|]. split; [lia|].
  replace (_num_items (self w1) + 1 - 1) with (_num_items (self w1)) by lia.
  apply lookup_insert_eq.
Qed.

(** Insert and look up, on disk.  After a call of [add] that returned for
    an item that passes the size check, on a storage on disk with as many
    hit counts as [capacity_items], index [-1] reads the new item from the
    shelf. *)
Theorem on_disk_add_then_get avail item fuel (w : World Shelf) :
  0 < _capacity_items (self w) -> 0 <= _oldest_item_idx (self w) ->
  len_ (_hit_count (self w)) = _capacity_items (self w) ->
  count item <= _capacity_items (self w) ->
  (add avail item w).2 = Ok tt -> (1 <= fuel)%nat ->
  (__getitem__ fuel (-1) (add avail item w).1).2 = Ok (Some item).
Proof.
  intros Hcap Hold Hhits Hcount Hok Hfuel.
  pose proof (add_on_disk_stored avail item w Hcap Hold Hcount) as Hadd.
  unfold wp in Hadd.
  destruct (Hadd Hok) as (Hcap' & Hold' & Hhits' & Hn' & Hitem).
  set (w' := (add avail item w).1) in *.
  destruct (__getitem___any_backend fuel (-1) w' ltac:(lia) Hold'
              ltac:(congruence) Hn' ltac:(lia)) as (h & Hh & ->).
  replace (-1 mod _num_items (self w')) with (_num_items (self w') - 1)
    by (apply (Z.mod_unique (-1) _ (-1)); lia).
  on_disk. unfold OnDiskStorage__get, bind, attr, lift, ret, shelf_getitem.
  simpl. unfold slot_of. rewrite Z2Nat.id by (apply Z.mod_pos_bound; lia).
  now rewrite Hitem.
Qed.

Lemma on_disk_add_then_get_witness :
  (add plenty batch_E shelf_ABC).2 = Ok tt
  /\ (__getitem__ 1 (-1) (add plenty batch_E shelf_ABC).1).2
     = Ok (Some batch_E).
Proof.
  assert (Hok : (add plenty batch_E shelf_ABC).2 = Ok tt)
    by (vm_compute; reflexivity).
  split; [exact Hok|].
  apply (on_disk_add_then_get plenty batch_E 1 shelf_ABC);
    [vm_compute; reflexivity|vm_compute; discriminate|vm_compute; reflexivity
    |vm_compute; discriminate|exact Hok|lia].
Defined.
